(** * Shallow-render query layer: Utils.js, ShallowTraversal.js, ShallowWrapper.js

    A shallow embedding of the selector compiler, the structural equality,
    the tree traversals and the wrapper collection, followed by the
    properties of the specification that were checked against them. *)

From Stdlib Require Import List String Ascii Bool Arith ZArith Lia.
From Stdlib Require Import DecimalString Permutation.
Import ListNotations.
Open Scope string_scope.
Open Scope list_scope.

Set Implicit Arguments.

(* ================================================================== *)
(** * JavaScript values *)
(* ================================================================== *)

(** The values the code handles.  Objects carry a reference [ref] that
    stands for their identity: [===] on two objects compares references.
    Numbers are integers (no NaN, no fractions); strings are sequences of
    code units below 256.  A React element is [VElem ref type props]:
    [props] is the props object, in key order, the prop [children] among the
    others; under React 0.13 [el._store.props] and [el.props] are this one
    object.  [VFun] is a function (a component constructor has a [name] and
    maybe a [displayName]) and [VObj] any other object, such as a handler or
    a style held in a prop: the code looks inside neither, and they are
    given no [length], no [type] and no [_store]. *)
#[warnings="-register-all"]
Inductive value : Type :=
| VUndefined
| VNull
| VBool (b : bool)
| VNum (z : Z)
| VStr (s : string)
| VFun (ref : nat) (name : string) (displayName : option string)
| VObj (ref : nat)
| VArr (ref : nat) (items : list value)
| VElem (ref : nat) (type : value) (props : list (string * value)).

(** Induction over the elements of arrays and the values of props. *)
Section value_induction.
Variable P : value -> Prop.
Hypothesis Hundef : P VUndefined.
Hypothesis Hnull : P VNull.
Hypothesis Hbool : forall b, P (VBool b).
Hypothesis Hnum : forall z, P (VNum z).
Hypothesis Hstr : forall s, P (VStr s).
Hypothesis Hfun : forall r n d, P (VFun r n d).
Hypothesis Hobj : forall r, P (VObj r).
Hypothesis Harr : forall r items, Forall P items -> P (VArr r items).
Hypothesis Helem : forall r t props,
    P t -> Forall (fun kv => P (snd kv)) props -> P (VElem r t props).

Fixpoint value_nested_ind (v : value) : P v :=
  match v with
  | VUndefined => Hundef
  | VNull => Hnull
  | VBool b => Hbool b
  | VNum z => Hnum z
  | VStr s => Hstr s
  | VFun r n d => Hfun r n d
  | VObj r => Hobj r
  | VArr r items =>
      Harr r ((fix go (l : list value) : Forall P l :=
                 match l with
                 | [] => Forall_nil P
                 | x :: l' => Forall_cons x (value_nested_ind x) (go l')
                 end) items)
  | VElem r t props =>
      Helem r (value_nested_ind t)
        ((fix go (l : list (string * value)) : Forall (fun kv => P (snd kv)) l :=
            match l with
            | [] => Forall_nil _
            | kv :: l' =>
                Forall_cons (P := fun kv => P (snd kv)) kv
                  (value_nested_ind (snd kv)) (go l')
            end) props)
  end.
End value_induction.

(** A size that bounds every traversal of a value. *)
Fixpoint vsize (v : value) : nat :=
  match v with
  | VArr _ items => S (list_sum (map vsize items))
  | VElem _ t props => S (vsize t + list_sum (map (fun kv => vsize (snd kv)) props))
  | _ => 1
  end.

(** [a === b]. *)
Definition strict_eq (a b : value) : bool :=
  match a, b with
  | VUndefined, VUndefined => true
  | VNull, VNull => true
  | VBool x, VBool y => Bool.eqb x y
  | VNum x, VNum y => Z.eqb x y
  | VStr x, VStr y => String.eqb x y
  | VFun r _ _, VFun r' _ _ => Nat.eqb r r'
  | VObj r, VObj r' => Nat.eqb r r'
  | VArr r _, VArr r' _ => Nat.eqb r r'
  | VElem r _ _, VElem r' _ _ => Nat.eqb r r'
  | _, _ => false
  end.

(** Truthiness: [undefined], [null], [false], [0] and [''] are falsy. *)
Definition truthy (v : value) : bool :=
  match v with
  | VUndefined | VNull => false
  | VBool b => b
  | VNum z => negb (Z.eqb z 0)
  | VStr s => negb (String.eqb s "")
  | _ => true
  end.

Inductive js_type := TUndefined | TObject | TBoolean | TNumber | TString | TFunction.

Definition js_type_eqb (a b : js_type) : bool :=
  match a, b with
  | TUndefined, TUndefined | TObject, TObject | TBoolean, TBoolean
  | TNumber, TNumber | TString, TString | TFunction, TFunction => true
  | _, _ => false
  end.

(** [typeof v]. *)
Definition typeof (v : value) : js_type :=
  match v with
  | VUndefined => TUndefined
  | VNull => TObject
  | VBool _ => TBoolean
  | VNum _ => TNumber
  | VStr _ => TString
  | VFun _ _ _ => TFunction
  | VObj _ | VArr _ _ | VElem _ _ _ => TObject
  end.

Definition isArray (v : value) : bool :=
  match v with VArr _ _ => true | _ => false end.

(** [key in obj] and [obj[key]] on a props object, own keys only: [lookup]
    is [None] when the key is absent, [get] is then [undefined].  The names
    that [Object.prototype] defines ([constructor], [toString], ...) are
    found by [in] on every object: a props object with such a key is outside
    what [lookup] models. *)
Fixpoint lookup (key : string) (obj : list (string * value)) : option value :=
  match obj with
  | [] => None
  | (k, v) :: obj' => if String.eqb key k then Some v else lookup key obj'
  end.

Definition get (key : string) (obj : list (string * value)) : value :=
  match lookup key obj with Some v => v | None => VUndefined end.

Definition keys (obj : list (string * value)) : list string := map fst obj.

(** [node.type]; only elements carry one. *)
Definition type_of (node : value) : value :=
  match node with VElem _ t _ => t | _ => VUndefined end.

(* ================================================================== *)
(** * Exceptions *)
(* ================================================================== *)

Inductive exn :=
| TypeError (msg : string)
| Error (msg : string).

Inductive result (A : Type) :=
| Ok (a : A)
| Throw (e : exn).
Arguments Ok {A} a.
Arguments Throw {A} e.

Definition bind {A B} (m : result A) (k : A -> result B) : result B :=
  match m with Ok a => k a | Throw e => Throw e end.

Notation "x <- m ;; k" := (bind m (fun x => k))
  (at level 61, m at next level, right associativity).

Fixpoint mapM {A B} (f : A -> result B) (l : list A) : result (list B) :=
  match l with
  | [] => Ok []
  | x :: l' => y <- f x ;; ys <- mapM f l' ;; Ok (y :: ys)
  end.

(** Reading a property of [null] or [undefined]. *)
Definition cannot_read (prop : string) : exn :=
  TypeError ("Cannot read property '" ++ prop ++ "' of null or undefined").

(* ================================================================== *)
(** * Utils.js *)
(* ================================================================== *)

Module Utils.

(** [propsOfNode]: [(node && node._store && node._store.props) || {}]. *)
Definition propsOfNode (node : value) : list (string * value) :=
  match node with VElem _ _ props => props | _ => [] end.

(** [v.length]: defined on arrays and strings, [undefined] on the other
    values modelled here, a TypeError on [null] and [undefined].  The
    [length] of a function, the number of its parameters, is not modelled. *)
Definition length_of (v : value) : result (option nat) :=
  match v with
  | VUndefined | VNull => Throw (cannot_read "length")
  | VArr _ items => Ok (Some (List.length items))
  | VStr s => Ok (Some (String.length s))
  | _ => Ok None
  end.

(** [v[i]] for [i] below [v.length]. *)
Definition index_of (v : value) (i : nat) : value :=
  match v with
  | VArr _ items => nth i items VUndefined
  | VStr s => match String.get i s with
              | Some c => VStr (String c EmptyString)
              | None => VUndefined
              end
  | _ => VUndefined
  end.

Definition option_nat_eqb (a b : option nat) : bool :=
  match a, b with
  | Some x, Some y => Nat.eqb x y
  | None, None => true
  | _, _ => false
  end.

Section Equality.

(** underscore's [isEqual], the deep comparison of two objects. *)
Variable isEqual : value -> value -> bool.

(** [nodeEqual] when [a] is not an element: [propsOfNode(a)] is [{}], the
    loop over its keys is empty. *)
Definition nodeEqual_leaf (a b : value) : result bool :=
  if strict_eq a b then Ok true
  else if negb (truthy a) || negb (truthy b) then Ok false
  else if negb (strict_eq (type_of a) (type_of b)) then Ok false
  else Ok (Nat.eqb 0 (List.length (keys (propsOfNode b)))).

(** The body of [childrenEqual]; [rec] is [nodeEqual] and [each] the loop
    [for (i = 0; i < a.length; i++)] over the elements of two arrays.  When
    [a] is a string, [a[i]] is a string too and [nodeEqual] on it is
    [nodeEqual_leaf]. *)
Definition childrenEqual_with (rec : value -> value -> result bool)
    (each : list value -> list value -> result bool)
    (a b : value) : result bool :=
  if strict_eq a b then Ok true
  else if negb (isArray a) && negb (isArray b) then rec a b
  else if negb (truthy a) && negb (truthy b) then Ok true
  else
    la <- length_of a ;;
    lb <- length_of b ;;
    if negb (option_nat_eqb la lb) then Ok false
    else if option_nat_eqb la (Some 0) && option_nat_eqb lb (Some 0) then Ok true
    else
      match a with
      | VArr _ items => each items (map (index_of b) (seq 0 (List.length items)))
      | VStr s =>
          (fix chars (i n : nat) : result bool :=
             match n with
             | 0 => Ok true
             | S n' =>
                 eq <- nodeEqual_leaf (index_of a i) (index_of b i) ;;
                 if negb eq then Ok false else chars (S i) n'
             end) 0 (String.length s)
      | _ => Ok true
      end.

Fixpoint nodeEqual (a b : value) {struct a} : result bool :=
  if strict_eq a b then Ok true
  else if negb (truthy a) || negb (truthy b) then Ok false
  else if negb (strict_eq (type_of a) (type_of b)) then Ok false
  else
    let rightProps := propsOfNode b in
    match a with
    | VElem _ _ leftProps =>
        (fix loop (leftKeys : list (string * value)) : result bool :=
           match leftKeys with
           | [] => Ok (Nat.eqb (List.length (keys leftProps)) (List.length (keys rightProps)))
           | (prop, lv) :: rest =>
               match lookup prop rightProps with
               | None => Ok false
               | Some rv =>
                   if String.eqb prop "children" then
                     eq <- childrenEqual_with nodeEqual
                             (fix each (xs ys : list value) : result bool :=
                                match xs, ys with
                                | x :: xs', y :: ys' =>
                                    eq <- nodeEqual x y ;;
                                    if negb eq then Ok false else each xs' ys'
                                | _, _ => Ok true
                                end)
                             lv rv ;;
                     if negb eq then Ok false else loop rest
                   else if strict_eq rv lv then loop rest
                   else if js_type_eqb (typeof rv) (typeof lv)
                           && js_type_eqb (typeof lv) TObject then
                     if negb (isEqual lv rv) then Ok false else loop rest
                   else Ok false
               end
           end) leftProps
    | _ => Ok (Nat.eqb 0 (List.length (keys rightProps)))
    end.

(** The loop [for (i = 0; i < a.length; i++)] of [childrenEqual] over
    [a[0], a[1], ...] and [b[0], b[1], ...]. *)
Fixpoint each_equal (xs ys : list value) : result bool :=
  match xs, ys with
  | x :: xs', y :: ys' =>
      eq <- nodeEqual x y ;;
      if negb eq then Ok false else each_equal xs' ys'
  | _, _ => Ok true
  end.

Definition childrenEqual (a b : value) : result bool :=
  childrenEqual_with nodeEqual each_equal a b.

End Equality.

(** ** Selectors *)

(** Strings are sequences of code units below 256. *)
Definition is_space (c : ascii) : bool :=
  match nat_of_ascii c with
  | 9 | 10 | 11 | 12 | 13 | 32 | 160 => true
  | _ => false
  end.

Definition is_line_terminator (c : ascii) : bool :=
  match nat_of_ascii c with
  | 10 | 13 => true
  | _ => false
  end.

(** [[a-z]] under the [i] flag. *)
Definition is_letter (c : ascii) : bool :=
  let n := nat_of_ascii c in
  (Nat.leb 65 n && Nat.leb n 90) || (Nat.leb 97 n && Nat.leb n 122).

(** [[~\s:>]] *)
Definition is_complex_char (c : ascii) : bool :=
  Ascii.eqb c "~" || is_space c || Ascii.eqb c ":" || Ascii.eqb c ">".

Fixpoint string_exists (p : ascii -> bool) (s : string) : bool :=
  match s with
  | EmptyString => false
  | String c s' => p c || string_exists p s'
  end.

(** [isSimpleSelector]: [!/[~\s:>]/.test(selector)]. *)
Definition isSimpleSelector (selector : string) : bool :=
  negb (string_exists is_complex_char selector).

(** [selectorError]. *)
Definition selectorError (selector : string) : exn :=
  TypeError ("Enzyme received a complex CSS selector ('" ++ selector
             ++ "') that it does not currently support").

(** [.*\]] at the start of [s]: a [']'] reached through characters that are
    not line terminators. *)
Fixpoint closes_bracket (s : string) : bool :=
  match s with
  | EmptyString => false
  | String c s' =>
      if Ascii.eqb c "]" then true
      else if is_line_terminator c then false
      else closes_bracket s'
  end.

Definition starts_with (p : ascii -> bool) (s : string) : bool :=
  match s with
  | EmptyString => false
  | String c _ => p c
  end.

(** [isCompoundSelector.test(s)] for [/([a-z]\.[a-z]|[a-z]\[.*\])/i]. *)
Fixpoint isCompoundSelector (s : string) : bool :=
  match s with
  | EmptyString => false
  | String c s' =>
      (is_letter c &&
         match s' with
         | EmptyString => false
         | String d s'' =>
             (Ascii.eqb d "." && starts_with is_letter s'')
             || (Ascii.eqb d "[" && closes_bracket s'')
         end)
      || isCompoundSelector s'
  end.

(** The lookahead [(?=\.|\[.*\])] at the start of [s]. *)
Definition split_lookahead (s : string) : bool :=
  match s with
  | EmptyString => false
  | String c s' =>
      Ascii.eqb c "." || (Ascii.eqb c "[" && closes_bracket s')
  end.

(** [String.prototype.split] on a zero-width separator: the string is cut at
    every position after the start of the current piece where the lookahead
    matches.  [cur] is the piece read so far. *)
Fixpoint split_go (cur : string) (s : string) : list string :=
  match s with
  | EmptyString => [cur]
  | String c s' =>
      if split_lookahead s && negb (String.eqb cur "")
      then cur :: split_go (String c EmptyString) s'
      else split_go (cur ++ String c EmptyString) s'
  end.

(** [splitSelector]: [selector.split(/(?=\.|\[.*\])/)]. *)
Definition splitSelector (selector : string) : list string :=
  split_go "" selector.

Inductive SELECTOR := CLASS_TYPE | ID_TYPE | PROP_TYPE.

Fixpoint last_char (s : string) : option ascii :=
  match s with
  | EmptyString => None
  | String c EmptyString => Some c
  | String _ s' => last_char s'
  end.

(** [isPropSelector.test(s)] for [/^\[.*\]$/]. *)
Definition isPropSelector (s : string) : bool :=
  match s with
  | String c s' =>
      Ascii.eqb c "["
      && match last_char s' with Some d => Ascii.eqb d "]" | None => false end
      && negb (string_exists is_line_terminator s')
  | EmptyString => false
  end.

(** [selectorType]; [None] is the [undefined] of the missing [else]. *)
Definition selectorType (selector : string) : option SELECTOR :=
  if starts_with (Ascii.eqb ".") selector then Some CLASS_TYPE
  else if starts_with (Ascii.eqb "#") selector then Some ID_TYPE
  else if isPropSelector selector then Some PROP_TYPE
  else None.

(** [AND]: [while (i--) if (!fns[i](x)) return false]. *)
Fixpoint AND_loop (fns : list (value -> bool)) (x : value) : bool :=
  match fns with
  | [] => true
  | f :: rest => if negb (f x) then false else AND_loop rest x
  end.

Definition AND (fns : list (value -> bool)) : value -> bool :=
  fun x => AND_loop (rev fns) x.

End Utils.

(* ================================================================== *)
(** * ShallowTraversal.js *)
(* ================================================================== *)

Module ShallowTraversal.
Import Utils.

(** ToString, as string concatenation applies it. *)
Fixpoint join (sep : string) (l : list string) : string :=
  match l with
  | [] => ""
  | [x] => x
  | x :: l' => x ++ sep ++ join sep l'
  end.

Fixpoint to_string (v : value) : string :=
  match v with
  | VUndefined => "undefined"
  | VNull => "null"
  | VBool true => "true"
  | VBool false => "false"
  | VNum z => NilZero.string_of_int (Z.to_int z)
  | VStr s => s
  | VFun _ name _ => "function " ++ name ++ "() { [native code] }"
  | VObj _ | VElem _ _ _ => "[object Object]"
  | VArr _ items =>
      join "," (map (fun x => match x with
                              | VUndefined | VNull => ""
                              | _ => to_string x
                              end) items)
  end.

(** [node && node._store && node._store.props && node._store.props[key]]:
    the first falsy operand, or the prop. *)
Definition store_prop (node : value) (key : string) : value :=
  if negb (truthy node) then node
  else match node with
       | VElem _ _ props => get key props
       | _ => VUndefined
       end.

(** React's [traverseAllChildren], as [React.Children.forEach] runs it:
    [undefined] and booleans are passed as [null]; [null], strings, numbers
    and elements are passed as they are; arrays are descended into; other
    objects are not children. *)
Fixpoint traverseAllChildren (children : value) : list value :=
  match children with
  | VUndefined | VBool _ => [VNull]
  | VNull | VStr _ | VNum _ | VElem _ _ _ => [children]
  | VArr _ items => flat_map traverseAllChildren items
  | VFun _ _ _ | VObj _ => []
  end.

(** [React.Children.forEach(children, child => result.push(child))]. *)
Definition Children_forEach (children : value) : list value :=
  match children with
  | VUndefined | VNull => []
  | _ => traverseAllChildren children
  end.

Definition childrenOfNode (node : value) : list value :=
  if negb (truthy node) then []
  else
    let maybeArray := store_prop node "children" in
    Children_forEach maybeArray.

(** [s.indexOf(t)]: the first position where [t] occurs in [s], or [-1];
    [i] is the position of [s] in the string searched. *)
Fixpoint indexOf_from (s t : string) (i : Z) : Z :=
  if prefix t s then i
  else match s with
       | EmptyString => (-1)%Z
       | String _ s' => indexOf_from s' t (i + 1)%Z
       end.

Definition indexOf (s t : string) : Z := indexOf_from s t 0%Z.

(** [node._store.props.className || ''] as the concatenation reads it. *)
Definition classes_of (node : value) : string :=
  let c := store_prop node "className" in
  to_string (if truthy c then c else VStr "").

Definition hasClassName (node : value) (className : string) : bool :=
  let classes := classes_of node in
  Z.gtb (indexOf (" " ++ classes ++ " ") (" " ++ className ++ " ")) (-1).

(** [treeForEach]; [fn] acts on a state [St] (the [results] array of
    [treeFilter]).  The recursion is bounded by the size of [tree]. *)
Fixpoint treeForEach_fuel {St : Type} (fuel : nat) (tree : value)
    (fn : value -> St -> St) (st : St) : St :=
  match fuel with
  | 0 => st
  | S fuel' =>
      fold_left (fun acc node => treeForEach_fuel fuel' node fn acc)
        (childrenOfNode tree) (fn tree st)
  end.

Definition treeForEach {St : Type} (tree : value) (fn : value -> St -> St)
    (st : St) : St :=
  treeForEach_fuel (vsize tree) tree fn st.

Definition treeFilter (tree : value) (fn : value -> bool) : list value :=
  treeForEach tree
    (fun node results => if fn node then results ++ [node] else results) [].

(** [queue.pop()]: the last element and the array without it. *)
Definition pop {A : Type} (queue : list A) : option (A * list A) :=
  match rev queue with
  | [] => None
  | x :: rest => Some (x, rev rest)
  end.

Inductive outcome (A : Type) :=
| Return (a : A)
| OutOfFuel.
Arguments Return {A} a.
Arguments OutOfFuel {A}.

(** The [while (queue.length)] loop of [pathToNode]; [None] is [null]. *)
Fixpoint pathToNode_loop (fuel : nat) (node : value) (queue path : list value)
  : outcome (option (list value)) :=
  match fuel with
  | 0 => OutOfFuel
  | S fuel' =>
      match pop queue with
      | None => Return None
      | Some (current, queue) =>
          let children := childrenOfNode current in
          if strict_eq current node then Return (Some path)
          else
            let path := path ++ [current] in
            let path :=
              if Nat.eqb (List.length children) 0
              then removelast path   (* leaf node: pop *)
              else path in
            pathToNode_loop fuel' node (queue ++ children) path
      end
  end.

Definition pathToNode (node root : value) : option (list value) :=
  match pathToNode_loop (S (vsize root)) node [root] [] with
  | Return r => r
  | OutOfFuel => None
  end.

(** [pathToNode(node, root).reverse()]; [null.reverse()] throws. *)
Definition parentsOfNode (node root : value) : result (list value) :=
  match pathToNode node root with
  | Some path => Ok (rev path)
  | None => Throw (cannot_read "reverse")
  end.

Definition nodeHasId (node : value) (id : string) : bool :=
  let maybeId := store_prop node "id" in
  strict_eq maybeId (VStr id).

Definition nodeHasType (node : value) (type : value) : bool :=
  if negb (truthy type) || negb (truthy node) then false
  else if negb (truthy (type_of node)) then false
  else if js_type_eqb (typeof (type_of node)) TString
       then strict_eq (type_of node) type
  else match type_of node with
       | VFun _ name displayName =>
           strict_eq (VStr name) type
           || strict_eq (match displayName with
                         | Some d => VStr d
                         | None => VUndefined
                         end) type
       | _ => false
       end.

(** [selector.substr(1)] *)
Definition substr1 (s : string) : string :=
  match s with
  | EmptyString => ""
  | String _ s' => s'
  end.

(** The call stack running over. *)
Definition stack_overflow : exn := Error "Maximum call stack size exceeded".

(** [buildPredicate].  A predicate is read through its truthiness, which is
    all its callers use.  The recursion on the pieces of a compound selector
    is bounded by [fuel]; [buildPredicate_fuel_stable] and
    [buildPredicate_fuel_simple] below show that the length of the selector
    is always enough. *)
Fixpoint buildPredicate_fuel (fuel : nat) (selector : value)
  : result (value -> bool) :=
  match typeof selector, selector with
  | TFunction, _ =>
      (* selector is a component constructor *)
      Ok (fun node => truthy node && strict_eq (type_of node) selector)
  | TString, VStr sel =>
      if negb (isSimpleSelector sel) then Throw (selectorError sel)
      else if isCompoundSelector sel then
        match fuel with
        | 0 => Throw stack_overflow
        | S fuel' =>
            fns <- mapM (fun s => buildPredicate_fuel fuel' (VStr s))
                     (splitSelector sel) ;;
            Ok (AND fns)
        end
      else if starts_with (Ascii.eqb ".") sel then
        (* selector is a class name *)
        Ok (fun node => hasClassName node (substr1 sel))
      else if starts_with (Ascii.eqb "#") sel then
        (* selector is an id name *)
        Ok (fun node => nodeHasId node (substr1 sel))
      else
        (* selector is a string. match to DOM tag or constructor displayName *)
        Ok (fun node => nodeHasType node selector)
  | _, _ => Throw (TypeError "Expecting a string or Component Constructor")
  end.

Definition selector_length (selector : value) : nat :=
  match selector with VStr s => String.length s | _ => 0 end.

Definition buildPredicate (selector : value) : result (value -> bool) :=
  buildPredicate_fuel (selector_length selector) selector.

End ShallowTraversal.

(* ================================================================== *)
(** * MountedTraversal.js *)
(* ================================================================== *)

Module MountedTraversal.
Import Utils ShallowTraversal.

Section Mounted.

(** A mounted tree is made of component instances that React and the DOM
    own.  The code reads them through [isDOMComponent], [findDOMNode] and
    the rendered children; [same] is [===] on instances. *)
Variable inst : Type.
Variable same : inst -> inst -> bool.
Variable isDOMComponent : inst -> bool.
Variable dom_className : inst -> value.
Variable childrenOfInst : inst -> list inst.

Definition instHasClassName (i : inst) (className : string) : bool :=
  if negb (isDOMComponent i) then false
  else
    let classes :=
      to_string (if truthy (dom_className i) then dom_className i else VStr "") in
    Z.gtb (indexOf (" " ++ classes ++ " ") (" " ++ className ++ " ")) (-1).

(** The loop of [pathToNode], the same as in ShallowTraversal.js, over
    [childrenOfInst]; the mounted tree is not a value of this development,
    the number of turns is bounded by [fuel]. *)
Fixpoint pathToNode_loop (fuel : nat) (node : inst) (queue path : list inst)
  : outcome (option (list inst)) :=
  match fuel with
  | 0 => OutOfFuel
  | S fuel' =>
      match pop queue with
      | None => Return None
      | Some (current, queue) =>
          let children := childrenOfInst current in
          if same current node then Return (Some path)
          else
            let path := path ++ [current] in
            let path :=
              if Nat.eqb (List.length children) 0
              then removelast path   (* leaf node: pop *)
              else path in
            pathToNode_loop fuel' node (queue ++ children) path
      end
  end.

Definition pathToNode (fuel : nat) (node root : inst)
  : outcome (option (list inst)) :=
  pathToNode_loop fuel node [root] [].

End Mounted.

End MountedTraversal.

(* ================================================================== *)
(** * ShallowWrapper.js *)
(* ================================================================== *)

Module ShallowWrapper.
Import Utils ShallowTraversal.

(** underscore's [compact], [flatten(_, true)] and [unique]. *)
Definition compact (l : list value) : list value := List.filter truthy l.

Definition flatten_shallow (l : list value) : list value :=
  flat_map (fun v => match v with VArr _ items => items | _ => [v] end) l.

Definition contains (l : list value) (v : value) : bool :=
  existsb (fun x => strict_eq x v) l.

Definition unique (l : list value) : list value :=
  fold_left (fun result v => if contains result v then result else result ++ [v])
    l [].

(** An array made by the code itself; nothing reads its identity. *)
Definition array (l : list value) : value := VArr 0 l.

(** [nodes[index]] *)
Definition nth_Z (l : list value) (index : Z) : value :=
  if Z.ltb index 0 then VUndefined else nth (Z.to_nat index) l VUndefined.

Section Wrapper.

(** The rendering backend: the shallow renderer of [react-compat], the
    component instance it holds, and [React.cloneElement]. *)
Variable Renderer : Type.
Variable createShallowRenderer : Renderer.
Variable render : Renderer -> value -> Renderer.
Variable getRenderOutput : Renderer -> value.
Variable instance_setState : Renderer -> value -> Renderer.
Variable instance_state : Renderer -> value.
Variable cloneElement : value -> value -> value.
Variable member : value -> value -> value.

(** The root wrapper is the one object the class ever mutates; its fields
    are the store. *)
Record Root := mkRoot {
  unrendered : value;
  renderer : Renderer;
  root_node : value;
  root_nodes : list value;
  root_length : nat
}.

(** A wrapper is the root itself ([this.root === this]) or an object made
    by [new ShallowWrapper(nodes, root)], whose fields never change and
    whose [root] is the root it was made from, directly or through other
    wrappers: the methods take that root as their first argument. *)
Inductive Wrapper :=
| RootWrapper
| ChildWrapper (node : value) (nodes : list value) (length : nat).

Definition isRoot (this : Wrapper) : bool :=
  match this with RootWrapper => true | ChildWrapper _ _ _ => false end.

Definition node (root : Root) (this : Wrapper) : value :=
  match this with
  | RootWrapper => root_node root
  | ChildWrapper n _ _ => n
  end.

Definition nodes (root : Root) (this : Wrapper) : list value :=
  match this with
  | RootWrapper => root_nodes root
  | ChildWrapper _ ns _ => ns
  end.

Definition length (root : Root) (this : Wrapper) : nat :=
  match this with
  | RootWrapper => root_length root
  | ChildWrapper _ _ len => len
  end.

(** [new ShallowWrapper(nodes)]: the branch [!root]. *)
Definition new_root (nodes : value) : Root :=
  let renderer := render createShallowRenderer nodes in
  let node := getRenderOutput renderer in
  mkRoot nodes renderer node [node] 1.

(** [new ShallowWrapper(nodes, root)]: the branch [else]. *)
Definition new_child (nodes : value) : Wrapper :=
  match nodes with
  | VArr _ items => ChildWrapper (nth 0 items VUndefined) items (List.length items)
  | _ => ChildWrapper nodes [nodes] (List.length [nodes])
  end.

(** [wrap]: its argument is a wrapper or a node. *)
Inductive wrappable :=
| AWrapper (w : Wrapper)
| ANode (v : value).

Definition wrap (this : Wrapper) (node : wrappable) : Wrapper :=
  match node with
  | AWrapper w => w
  | ANode v => new_child v
  end.

Definition single_error (root : Root) (this : Wrapper) : exn :=
  Error ("This method is only meant to be run on single node. "
         ++ NilZero.string_of_uint (Nat.to_uint (length root this))
         ++ " found instead.").

Definition single {A} (root : Root) (this : Wrapper) (fn : value -> result A)
  : result A :=
  if negb (Nat.eqb (length root this) 1) then Throw (single_error root this)
  else fn (node root this).

(** [single] around a callback that writes to the root. *)
Definition single_st {A} (root : Root) (this : Wrapper)
    (fn : value -> result A * Root) : result A * Root :=
  if negb (Nat.eqb (length root this) 1) then (Throw (single_error root this), root)
  else fn (node root this).

(** [filterWhere]; [predicate] reads the node only, as the predicates of
    [buildPredicate] do: [Array.prototype.filter] also passes the index and
    the array, which a predicate reading them would see. *)
Definition filterWhere (root : Root) (this : Wrapper) (predicate : value -> bool)
  : Wrapper :=
  wrap this (ANode (array (compact (List.filter predicate (nodes root this))))).

Definition filter (root : Root) (this : Wrapper) (selector : value)
  : result Wrapper :=
  predicate <- buildPredicate selector ;;
  Ok (filterWhere root this predicate).

Definition not_ (root : Root) (this : Wrapper) (selector : value)
  : result Wrapper :=
  predicate <- buildPredicate selector ;;
  Ok (filterWhere root this (fun n => negb (predicate n))).

Definition is_ (root : Root) (this : Wrapper) (selector : value) : result bool :=
  predicate <- buildPredicate selector ;;
  single root this (fun n => Ok (predicate n)).

Definition flatMap (root : Root) (this : Wrapper)
    (fn : Wrapper -> nat -> result value) : result Wrapper :=
  nodes <- mapM (fun ni => fn (wrap this (ANode (fst ni))) (snd ni))
             (combine (nodes root this) (seq 0 (List.length (nodes root this)))) ;;
  let flattened := flatten_shallow nodes in
  let uniques := unique flattened in
  Ok (wrap this (ANode (array uniques))).

Definition findWhere (root : Root) (this : Wrapper) (predicate : value -> bool)
  : result Wrapper :=
  flatMap root this (fun n _ => Ok (array (treeFilter (node root n) predicate))).

Definition find (root : Root) (this : Wrapper) (selector : value)
  : result Wrapper :=
  predicate <- buildPredicate selector ;;
  findWhere root this predicate.

Definition children (root : Root) (this : Wrapper) (selector : value)
  : result Wrapper :=
  allChildren <- flatMap root this
                   (fun n _ => Ok (array (childrenOfNode (node root n)))) ;;
  if truthy selector then filter root allChildren selector else Ok allChildren.

Definition parents (root : Root) (this : Wrapper) (selector : value)
  : result Wrapper :=
  ps <- single root this (fun n => parentsOfNode n (node root RootWrapper)) ;;
  let allParents := wrap this (ANode (array ps)) in
  if truthy selector then filter root allParents selector else Ok allParents.

Definition parent (root : Root) (this : Wrapper) : result Wrapper :=
  flatMap root this
    (fun n _ => ps <- parents root n VUndefined ;;
                Ok (array [nth 0 (nodes root ps) VUndefined])).

Definition get (root : Root) (this : Wrapper) (index : Z) : Wrapper :=
  wrap this (ANode (nth_Z (nodes root this) index)).

Definition first (root : Root) (this : Wrapper) : Wrapper :=
  get root this 0.

Definition last (root : Root) (this : Wrapper) : Wrapper :=
  get root this (Z.of_nat (length root this) - 1).

Definition isEmpty (root : Root) (this : Wrapper) : bool :=
  Nat.eqb (length root this) 0.

Definition closest (root : Root) (this : Wrapper) (selector : value)
  : result Wrapper :=
  matches <- is_ root this selector ;;
  if matches then Ok this
  else
    ps <- parents root this VUndefined ;;
    found <- filter root ps selector ;;
    Ok (first root found).

Definition hasClass (root : Root) (this : Wrapper) (className : string)
  : result bool :=
  single root this (fun n => Ok (hasClassName n className)).

(** ** Operations on the root: they return the store they leave.

    The guard of each is given in full.  On the root itself the renderer
    is taken here as one that returns; [WrapperMethods] below gives
    [setProps], [setState] and [state] with a renderer that may throw, with
    a root that may hold no instance and with [global.document]. *)

Definition update (root : Root) (this : Wrapper) : result Wrapper * Root :=
  if negb (isRoot this) then
    (Throw (Error "ShallowWrapper::update() can only be called on the root"), root)
  else
    let '(r, root) :=
      single_st root this (fun _ =>
        let node := getRenderOutput (renderer root) in
        (Ok tt, mkRoot (unrendered root) (renderer root) node [node]
                  (root_length root))) in
    (_ <- r ;; Ok this, root).

Definition setProps (root : Root) (this : Wrapper) (props : value)
  : result Wrapper * Root :=
  if negb (isRoot this) then
    (Throw (Error "ShallowWrapper::setProps() can only be called on the root"), root)
  else
    let '(r, root) :=
      single_st root this (fun _ =>
        let root :=
          mkRoot (unrendered root)
            (render (renderer root) (cloneElement (unrendered root) props))
            (root_node root) (root_nodes root) (root_length root) in
        update root this) in
    (_ <- r ;; Ok this, root).

Definition setState (root : Root) (this : Wrapper) (state : value)
  : result Wrapper * Root :=
  if negb (isRoot this) then
    (Throw (Error "ShallowWrapper::setState() can only be called on the root"), root)
  else
    let '(r, root) :=
      single_st root this (fun _ =>
        let root :=
          mkRoot (unrendered root) (instance_setState (renderer root) state)
            (root_node root) (root_nodes root) (root_length root) in
        update root this) in
    (_ <- r ;; Ok this, root).

Definition state (root : Root) (this : Wrapper) (name : value)
  : result value * Root :=
  if negb (isRoot this) then
    (Throw (Error "ShallowWrapper::state() can only be called on the root"), root)
  else
    (_state <- single root this (fun _ => Ok (instance_state (renderer root))) ;;
     if negb (strict_eq name VUndefined) then Ok (member _state name)
     else Ok _state,
     root).

End Wrapper.

End ShallowWrapper.

(* ================================================================== *)
(** * Notions the properties are stated with *)
(* ================================================================== *)

Module Notions.
Import Utils ShallowTraversal ShallowWrapper.

#[warnings="-register-all"]
(** [Preorder t l]: [l] lists [t] and then, child after child in render
    order, the pre-order of each child. *)
Inductive Preorder : value -> list value -> Prop :=
| Preorder_node : forall t ls,
    Forall2 Preorder (childrenOfNode t) ls ->
    Preorder t (t :: List.concat ls).

(** What [treeFilter] hands to [treeForEach]. *)
Definition push_if (fn : value -> bool) (node : value) (results : list value)
  : list value :=
  if fn node then results ++ [node] else results.

(** [Reach t x]: [x] is [t] or a descendant of [t]. *)
Inductive Reach : value -> value -> Prop :=
| Reach_self : forall t, Reach t t
| Reach_child : forall t c x, In c (childrenOfNode t) -> Reach c x -> Reach t x.

(** Whether [split_go cur s] cuts at all. *)
Fixpoint cuts (cur : string) (s : string) : bool :=
  match s with
  | EmptyString => false
  | String c s' =>
      if split_lookahead s && negb (String.eqb cur "") then true
      else cuts (cur ++ String c EmptyString) s'
  end.

(** The tokens of a class string: the pieces between its spaces. *)
Fixpoint tokens (s : string) : list string :=
  match s with
  | EmptyString => [EmptyString]
  | String c s' =>
      if Ascii.eqb c " " then EmptyString :: tokens s'
      else match tokens s' with
           | t :: ts => String c t :: ts
           | [] => [String c EmptyString]
           end
  end.

Definition has_space (s : string) : bool := string_exists (Ascii.eqb " ") s.

(** [t] occurs in [s]. *)
Fixpoint occurs (t s : string) : bool :=
  prefix t s
  || match s with
     | EmptyString => false
     | String _ s' => occurs t s'
     end.

(** No two values of the list are [===]. *)
Fixpoint distinct (l : list value) : bool :=
  match l with
  | [] => true
  | x :: l' => negb (existsb (strict_eq x) l') && distinct l'
  end.

Definition unique_step (result : list value) (v : value) : list value :=
  if contains result v then result else result ++ [v].

(** The invariants of the data model: [length] counts [nodes], [node] is
    the first of them. *)
Definition wrapper_ok {R} (root : Root R) (this : Wrapper) : Prop :=
  length root this = List.length (nodes root this)
  /\ node root this = nth 0 (nodes root this) VUndefined.

(** ** Structural equality *)

Section EqualityNotions.

Variable isEqual : value -> value -> bool.

(** The comparison of one prop in the loop of [nodeEqual]. *)
Definition compare_prop (prop : string) (lv rv : value) : result bool :=
  if String.eqb prop "children" then childrenEqual isEqual lv rv
  else if strict_eq rv lv then Ok true
  else if js_type_eqb (typeof rv) (typeof lv) && js_type_eqb (typeof lv) TObject
       then Ok (isEqual lv rv)
  else Ok false.

Fixpoint props_loop (leftKeys : list (string * value)) (nleft : nat)
    (rightProps : list (string * value)) : result bool :=
  match leftKeys with
  | [] => Ok (Nat.eqb nleft (List.length (keys rightProps)))
  | (prop, lv) :: rest =>
      match lookup prop rightProps with
      | None => Ok false
      | Some rv =>
          eq <- compare_prop prop lv rv ;;
          if negb eq then Ok false else props_loop rest nleft rightProps
      end
  end.

(** [a[0], ..., a[n-1]], as the loop of [childrenEqual] reads them. *)
Definition elements (v : value) (n : nat) : list value := map (index_of v) (seq 0 n).

(** The keys of every props object are distinct, as the keys of an object
    are. *)
Fixpoint keys_distinct (v : value) : Prop :=
  match v with
  | VArr _ items =>
      (fix all (l : list value) : Prop :=
         match l with
         | [] => True
         | x :: l' => keys_distinct x /\ all l'
         end) items
  | VElem _ t props =>
      NoDup (keys props)
      /\ (fix all (l : list (string * value)) : Prop :=
            match l with
            | [] => True
            | kv :: l' => keys_distinct (snd kv) /\ all l'
            end) props
  | _ => True
  end.

(** The symmetry of [nodeEqual] on the first arguments of size at most [m]. *)
Definition symmetric_upto (m : nat) : Prop :=
  forall a, vsize a <= m -> keys_distinct a ->
  forall b, keys_distinct b ->
    nodeEqual isEqual a b = Ok true ->
    forall y, nodeEqual isEqual b a = Ok y -> y = true.

End EqualityNotions.

End Notions.

(* ================================================================== *)
(** * Trees used below *)
(* ================================================================== *)

Module Examples.
Import Utils ShallowTraversal ShallowWrapper.

(** The renderer of [react-compat] on a DOM element: [render] keeps the
    element, [getRenderOutput] gives it back. *)
Definition dom_root (element : value) : Root value :=
  new_root VUndefined (fun _ el => el) (fun r => r) element.

(** [<div><span/><div className="foo"><i/></div></div>] *)
Definition leaf : value := VElem 4 (VStr "i") [].
Definition sibling : value :=
  VElem 3 (VStr "div") [("className", VStr "foo"); ("children", leaf)].
Definition target : value := VElem 2 (VStr "span") [].
Definition tree : value :=
  VElem 1 (VStr "div") [("children", VArr 5 [target; sibling])].

(** [<div>{0}<span/></div>] *)
Definition counter : value :=
  VElem 1 (VStr "div") [("children", VArr 3 [VNum 0; VElem 2 (VStr "span") []])].

(** [<ul><li>x</li><li>x</li></ul>] *)
Definition items : value :=
  VElem 1 (VStr "ul")
    [("children", VArr 4 [VElem 2 (VStr "li") [("children", VStr "x")];
                          VElem 3 (VStr "li") [("children", VStr "x")]])].

(** [<div>{null}</div>] and [<div id="y">{[<span/>]}</div>] *)
Definition hollow : value := VElem 1 (VStr "div") [("children", VNull)].
Definition listed : value :=
  VElem 2 (VStr "div")
    [("id", VStr "y"); ("children", VArr 3 [VElem 4 (VStr "span") []])].

End Examples.

(* ================================================================== *)
(** * The rest of Utils.js *)
(* ================================================================== *)

Module UtilsRest.
Import Utils.

Section Events.

(** [String.prototype.toUpperCase] on a string of one character. *)
Variable toUpperCase : ascii -> string.

(** [propFromEvent]: [`on${event[0].toUpperCase()}${event.substring(1)}`];
    [event[0]] is [undefined] on the empty string. *)
Definition propFromEvent (event : string) : result string :=
  match event with
  | EmptyString => Throw (cannot_read "toUpperCase")
  | String c rest => Ok ("on" ++ toUpperCase c ++ rest)%string
  end.

End Events.

Section Global.

(** The object [{}] that [withSetStateAllowed] stores in [global.document],
    and the state [fn] works on besides. *)
Variable stub : value.
Variable St : Type.

(** [typeof global.document === 'undefined']; [None] is a global without
    the property. *)
Definition document_undefined (document : option value) : bool :=
  match document with
  | None | Some VUndefined => true
  | Some _ => false
  end.

(** [withSetStateAllowed].  The state is [global.document] and what [fn]
    works on; [fn] may throw: nothing catches its exception, the statements
    after [fn()] are then skipped. *)
Definition withSetStateAllowed
    (fn : St -> option value -> result unit * St * option value)
    (st : St) (document : option value) : result unit * St * option value :=
  let cleanup := document_undefined document in
  let document := if cleanup then Some stub else document in
  match fn st document with
  | (Throw e, st, document) => (Throw e, st, document)
  | (Ok _, st, document) => (Ok tt, st, if cleanup then None else document)
  end.

End Global.

End UtilsRest.

(* ================================================================== *)
(** * react-compat.js *)
(* ================================================================== *)

Module ReactCompat.

Section Compatible.

(** The renderer of [TestUtils.createRenderer()], which React owns. *)
Variable TestRenderer : Type.
Variable createRenderer : TestRenderer.
Variable test_render : TestRenderer -> value -> TestRenderer.
Variable test_getRenderOutput : TestRenderer -> value.
Variable test_instance : TestRenderer -> value.

(** The object [createRendererCompatible] returns, with the variables
    [renderer], [isDOM] and [_node] its methods close over. *)
Record Compatible := mkCompatible {
  renderer : TestRenderer;
  isDOM : bool;
  _node : value;
  _instance : value
}.

Definition createRendererCompatible : Compatible :=
  mkCompatible createRenderer false VUndefined (test_instance createRenderer).

(** [render(node)]; [node.type] throws on [null] and [undefined]. *)
Definition render (this : Compatible) (node : value) : result Compatible :=
  match node with
  | VUndefined | VNull => Throw (cannot_read "type")
  | _ =>
      if js_type_eqb (typeof (type_of node)) TString then
        Ok (mkCompatible (renderer this) true node (_instance this))
      else
        let renderer := test_render (renderer this) node in
        Ok (mkCompatible renderer false (_node this) (test_instance renderer))
  end.

Definition getRenderOutput (this : Compatible) : value :=
  if isDOM this then _node this else test_getRenderOutput (renderer this).

(** [render] as the constructor of ShallowWrapper calls it, on an element. *)
Definition render_element (this : Compatible) (node : value) : Compatible :=
  match render this node with
  | Ok this' => this'
  | Throw _ => this
  end.

End Compatible.

End ReactCompat.

(* ================================================================== *)
(** * The rest of ShallowTraversal.js *)
(* ================================================================== *)

Module TraversalRest.
Import Utils ShallowTraversal.

(** [s.replace(/\s+/, ' ')]: the first run of white space becomes one
    space. *)
Fixpoint skip_spaces (s : string) : string :=
  match s with
  | EmptyString => EmptyString
  | String c s' => if is_space c then skip_spaces s' else s
  end.

Fixpoint replace_spaces (s : string) : string :=
  match s with
  | EmptyString => EmptyString
  | String c s' =>
      if is_space c then String " " (skip_spaces s')
      else String c (replace_spaces s')
  end.

(** [node.type.name || node.type.displayName] inside a template string. *)
Definition component_name (type : value) : string :=
  match type with
  | VFun _ name displayName =>
      if negb (String.eqb name "") then name
      else match displayName with
           | Some d => d
           | None => "undefined"
           end
  | _ => "undefined"
  end.

(** [getTextFromNode]; the recursion is bounded by the size of [node]. *)
Fixpoint getTextFromNode_fuel (fuel : nat) (node : value) : string :=
  match node with
  | VNull | VUndefined => ""
  | VStr _ | VNum _ => to_string node
  | _ =>
      if truthy (type_of node) && js_type_eqb (typeof (type_of node)) TFunction
      then ("<" ++ component_name (type_of node) ++ " />")%string
      else
        match fuel with
        | 0 => ""
        | S fuel' =>
            replace_spaces
              (String.concat "" (map (getTextFromNode_fuel fuel') (childrenOfNode node)))
        end
  end.

Definition getTextFromNode (node : value) : string :=
  getTextFromNode_fuel (vsize node) node.

(** [treeForEach] and [treeFilter] when [fn] may throw: the exception leaves
    the traversal at once. *)
Fixpoint fold_leftR {A B : Type} (f : A -> B -> result A) (l : list B) (a : A)
  : result A :=
  match l with
  | [] => Ok a
  | x :: l' => a' <- f a x ;; fold_leftR f l' a'
  end.

Fixpoint treeForEachR_fuel {St : Type} (fuel : nat) (tree : value)
    (fn : value -> St -> result St) (st : St) : result St :=
  match fuel with
  | 0 => Ok st
  | S fuel' =>
      st' <- fn tree st ;;
      fold_leftR (fun acc node => treeForEachR_fuel fuel' node fn acc)
        (childrenOfNode tree) st'
  end.

Definition treeForEachR {St : Type} (tree : value) (fn : value -> St -> result St)
    (st : St) : result St :=
  treeForEachR_fuel (vsize tree) tree fn st.

Definition treeFilterR (tree : value) (fn : value -> result bool)
  : result (list value) :=
  treeForEachR tree
    (fun node results =>
       keep <- fn node ;; Ok (if keep then results ++ [node] else results)) [].

End TraversalRest.

(* ================================================================== *)
(** * The rest of MountedTraversal.js *)
(* ================================================================== *)

Module MountedRest.
Import Utils ShallowTraversal.

Section Selectors.

(** What the code asks React and the DOM about an instance. *)
Variable inst : Type.
Variable isDOMComponent : inst -> bool.
Variable dom_className : inst -> value.
Variable dom_id : inst -> value.
Variable tagName : inst -> string.
Variable toUpperCase : string -> string.
Variable isCompositeComponentWithType : inst -> value -> bool.

Definition instHasId (i : inst) (id : string) : bool :=
  if negb (isDOMComponent i) then false
  else
    let instId := if truthy (dom_id i) then dom_id i else VStr "" in
    strict_eq instId (VStr id).

Definition instHasType (i : inst) (type : value) : bool :=
  match typeof type, type with
  | TString, VStr t =>
      isDOMComponent i && String.eqb (toUpperCase (tagName i)) (toUpperCase t)
  | TFunction, _ => isCompositeComponentWithType i type
  | _, _ => false
  end.

(** [buildInstPredicate], with the recursion of [buildPredicate]. *)
Fixpoint buildInstPredicate_fuel (fuel : nat) (selector : value)
  : result (inst -> bool) :=
  match typeof selector, selector with
  | TFunction, _ =>
      (* selector is a component constructor *)
      Ok (fun i => instHasType i selector)
  | TString, VStr sel =>
      if negb (isSimpleSelector sel) then Throw (selectorError sel)
      else if isCompoundSelector sel then
        match fuel with
        | 0 => Throw stack_overflow
        | S fuel' =>
            fns <- mapM (fun s => buildInstPredicate_fuel fuel' (VStr s))
                     (splitSelector sel) ;;
            Ok (fun i =>
                  (fix loop (rest : list (inst -> bool)) : bool :=
                     match rest with
                     | [] => true
                     | f :: rest' => if negb (f i) then false else loop rest'
                     end) (rev fns))
        end
      else if starts_with (Ascii.eqb ".") sel then
        (* selector is a class name *)
        Ok (fun i =>
              MountedTraversal.instHasClassName isDOMComponent dom_className i
                (substr1 sel))
      else if starts_with (Ascii.eqb "#") sel then
        (* selector is an id name *)
        Ok (fun i => instHasId i (substr1 sel))
      else
        (* selector is a string. match to DOM tag or constructor displayName *)
        Ok (fun i => instHasType i selector)
  | _, _ => Throw (TypeError "Expecting a string or Component Constructor")
  end.

Definition buildInstPredicate (selector : value) : result (inst -> bool) :=
  buildInstPredicate_fuel (selector_length selector) selector.

End Selectors.

End MountedRest.

(* ================================================================== *)
(** * The rest of ShallowWrapper.js *)
(* ================================================================== *)

Module WrapperMethods.
Import Utils ShallowTraversal TraversalRest UtilsRest.

(** [obj[key]] on a props object. *)
Definition member_of (key : string) (obj : list (string * value)) : value :=
  get key obj.

Import ShallowWrapper.

Section Methods.

(** The renderer, underscore's [isEqual], [toUpperCase] on one character,
    the object [withSetStateAllowed] stores, and the call [handler(...args)]
    of a handler, which sees [global.document], may change what the renderer
    will output, and may throw. *)
Variable Renderer : Type.
Variable getRenderOutput : Renderer -> value.
Variable isEqual : value -> value -> bool.
Variable toUpperCase : ascii -> string.
Variable stub : value.
Variable call : value -> list value -> Renderer -> option value
                -> result unit * Renderer.

(** [findWhere] with a predicate that may throw. *)
Definition findWhereR (root : Root Renderer) (this : Wrapper)
    (predicate : value -> result bool) : result Wrapper :=
  flatMap root this
    (fun n _ => found <- treeFilterR (node root n) predicate ;; Ok (array found)).

Definition contains (root : Root Renderer) (this : Wrapper) (node : value)
  : result bool :=
  found <- findWhereR root this (fun other => nodeEqual isEqual node other) ;;
  Ok (Nat.ltb 0 (length root found)).

Definition text (root : Root Renderer) (this : Wrapper) : result string :=
  single root this (fun n => Ok (getTextFromNode n)).

Definition props (root : Root Renderer) (this : Wrapper)
  : result (list (string * value)) :=
  single root this (fun n => Ok (propsOfNode n)).

(** [this.props()[propName]], for a name that [Object.prototype] does not
    define. *)
Definition prop (root : Root Renderer) (this : Wrapper) (propName : string)
  : result value :=
  ps <- props root this ;; Ok (member_of propName ps).

(** [type]: [n.type] throws on [null] and [undefined]. *)
Definition type (root : Root Renderer) (this : Wrapper) : result value :=
  single root this
    (fun n => match n with
              | VUndefined | VNull => Throw (cannot_read "type")
              | _ => Ok (type_of n)
              end).

(** [Array.prototype.map] with a callback that works on a state and may
    throw: the elements are visited by ascending index, an exception ends
    the walk and keeps what the earlier calls did to the state. *)
Fixpoint map_loop {A St : Type} (fn : value -> nat -> St -> result A * St)
    (l : list value) (i : nat) (st : St) : result (list A) * St :=
  match l with
  | [] => (Ok [], st)
  | n :: l' =>
      match fn n i st with
      | (Throw e, st) => (Throw e, st)
      | (Ok x, st) =>
          match map_loop fn l' (S i) st with
          | (Throw e, st) => (Throw e, st)
          | (Ok xs, st) => (Ok (x :: xs), st)
          end
      end
  end.

(** [map]: [fn.call(this, this.wrap(n), i)] on every node. *)
Definition map_ {A St : Type} (root : Root Renderer) (this : Wrapper)
    (fn : Wrapper -> Wrapper -> nat -> St -> result A * St) (st : St)
  : result (list A) * St :=
  map_loop (fun n i => fn this (wrap this (ANode n)) i) (nodes root this) 0 st.

(** [forEach]: the same walk, the wrapper is returned. *)
Definition forEach {St : Type} (root : Root Renderer) (this : Wrapper)
    (fn : Wrapper -> Wrapper -> nat -> St -> result unit * St) (st : St)
  : result Wrapper * St :=
  let '(r, st) := map_ root this fn st in
  (_ <- r ;; Ok this, st).

(** [simulate].  A handler that is not a function cannot be called. *)
Definition simulate (root : Root Renderer) (this : Wrapper) (event : string)
    (args : list value) (document : option value)
  : result Wrapper * Root Renderer * option value :=
  match propFromEvent toUpperCase event with
  | Throw e => (Throw e, root, document)
  | Ok name =>
      match prop root this name with
      | Throw e => (Throw e, root, document)
      | Ok handler =>
          if truthy handler then
            let '(r, root, document) :=
              withSetStateAllowed stub
                (fun root document =>
                   match handler with
                   | VFun _ _ _ =>
                       let '(r, renderer) :=
                         call handler args (renderer root) document in
                       let root :=
                         mkRoot (unrendered root) renderer (root_node root)
                           (root_nodes root) (root_length root) in
                       match r with
                       | Throw e => (Throw e, root, document)
                       | Ok _ =>
                           let '(r, root) :=
                             update getRenderOutput root RootWrapper in
                           (_ <- r ;; Ok tt, root, document)
                       end
                   | _ =>
                       (Throw (TypeError "handler is not a function"), root,
                        document)
                   end) root document in
            (_ <- r ;; Ok this, root, document)
          else (Ok this, root, document)
      end
  end.

(** ** The root methods with a renderer that may throw

    [render] is [this.renderer.render(element)]: it runs the component,
    sees [global.document] and may throw; what it did to the renderer
    stays.  [cloneElement] is React's.  [renderer_instance] is
    [this.renderer._instance], [null] as long as no component was rendered,
    and [public_instance] its [_instance]; [instance_setState] is
    [setState(state)] on that instance and [instance_state] its [state];
    [member] is [_state[name]]. *)
Variable render : Renderer -> value -> option value -> result unit * Renderer.
Variable cloneElement : value -> value -> result value.
Variable renderer_instance : Renderer -> value.
Variable public_instance : Renderer -> value.
Variable instance_setState : Renderer -> value -> option value
                             -> result unit * Renderer.
Variable instance_state : Renderer -> value.
Variable member : value -> value -> value.

(** [instance]: [this.renderer._instance._instance]; the renderer of a
    wrapper that is not the root is [null]. *)
Definition instance (root : Root Renderer) (this : Wrapper) : result value :=
  match this with
  | ChildWrapper _ _ _ => Throw (cannot_read "_instance")
  | RootWrapper =>
      match renderer_instance (renderer root) with
      | VUndefined | VNull => Throw (cannot_read "_instance")
      | _ => Ok (public_instance (renderer root))
      end
  end.

Definition setProps (root : Root Renderer) (this : Wrapper) (props : value)
    (document : option value)
  : result Wrapper * Root Renderer * option value :=
  if negb (isRoot this) then
    (Throw (Error "ShallowWrapper::setProps() can only be called on the root"),
     root, document)
  else if negb (Nat.eqb (length root this) 1) then
    (Throw (single_error root this), root, document)
  else
    let '(r, root, document) :=
      withSetStateAllowed stub
        (fun root document =>
           match cloneElement (unrendered root) props with
           | Throw e => (Throw e, root, document)
           | Ok element =>
               let '(r, renderer) := render (renderer root) element document in
               let root :=
                 mkRoot (unrendered root) renderer (root_node root)
                   (root_nodes root) (root_length root) in
               match r with
               | Throw e => (Throw e, root, document)
               | Ok _ =>
                   let '(r, root) := update getRenderOutput root this in
                   (_ <- r ;; Ok tt, root, document)
               end
           end) root document in
    (_ <- r ;; Ok this, root, document).

Definition setState (root : Root Renderer) (this : Wrapper) (state : value)
    (document : option value)
  : result Wrapper * Root Renderer * option value :=
  if negb (isRoot this) then
    (Throw (Error "ShallowWrapper::setState() can only be called on the root"),
     root, document)
  else if negb (Nat.eqb (length root this) 1) then
    (Throw (single_error root this), root, document)
  else
    let '(r, root, document) :=
      withSetStateAllowed stub
        (fun root document =>
           match instance root this with
           | Throw e => (Throw e, root, document)
           | Ok (VUndefined | VNull) =>
               (Throw (cannot_read "setState"), root, document)
           | Ok _ =>
               let '(r, renderer) :=
                 instance_setState (renderer root) state document in
               let root :=
                 mkRoot (unrendered root) renderer (root_node root)
                   (root_nodes root) (root_length root) in
               match r with
               | Throw e => (Throw e, root, document)
               | Ok _ =>
                   let '(r, root) := update getRenderOutput root this in
                   (_ <- r ;; Ok tt, root, document)
               end
           end) root document in
    (_ <- r ;; Ok this, root, document).

Definition state (root : Root Renderer) (this : Wrapper) (name : value)
  : result value :=
  if negb (isRoot this) then
    Throw (Error "ShallowWrapper::state() can only be called on the root")
  else
    _state <- single root this
                (fun _ =>
                   inst <- instance root this ;;
                   match inst with
                   | VUndefined | VNull => Throw (cannot_read "state")
                   | _ => Ok (instance_state (renderer root))
                   end) ;;
    if negb (strict_eq name VUndefined) then
      match _state with
      | VUndefined | VNull => Throw (cannot_read (to_string name))
      | _ => Ok (member _state name)
      end
    else Ok _state.

End Methods.

End WrapperMethods.

(* ================================================================== *)
(** * Further notions *)
(* ================================================================== *)

Module MoreNotions.
Import Utils ShallowTraversal ShallowWrapper Notions TraversalRest.

(** [Chain t x l]: [l] lists the nodes from [t] down to the parent of [x],
    a node below [t]; [l] is empty when [x] is [t]. *)
Inductive Chain : value -> value -> list value -> Prop :=
| Chain_self : forall t, Chain t t []
| Chain_child : forall t c x l,
    In c (childrenOfNode t) -> Chain c x l -> Chain t x (t :: l).

(** [Subseq l l']: [l] is [l'] with some elements left out. *)
Inductive Subseq : list value -> list value -> Prop :=
| Subseq_nil : Subseq [] []
| Subseq_skip : forall x l l', Subseq l l' -> Subseq l (x :: l')
| Subseq_keep : forall x l l', Subseq l l' -> Subseq (x :: l) (x :: l').

(** The text a leaf contributes. *)
Definition leaf_text (v : value) : string :=
  match v with
  | VStr _ | VNum _ => to_string v
  | _ => ""
  end.

(** An element whose type is a component: [getTextFromNode] prints it. *)
Definition is_component (v : value) : bool :=
  match v with
  | VUndefined | VNull | VStr _ | VNum _ => false
  | _ => truthy (type_of v) && js_type_eqb (typeof (type_of v)) TFunction
  end.

(** Filtering a list with a predicate that may throw, from left to right. *)
Fixpoint filterR (fn : value -> result bool) (l : list value)
  : result (list value) :=
  match l with
  | [] => Ok []
  | x :: l' =>
      keep <- fn x ;;
      rest <- filterR fn l' ;;
      Ok (if keep then x :: rest else rest)
  end.

(** What the loop of [pathToNode] keeps true of its queue and its path. *)
Definition path_invariant (root node : value) (queue path : list value) : Prop :=
  (forall q, In q queue -> exists l, Chain root q l /\ Subseq l path)
  /\ Forall (fun y => Reach root y /\ childrenOfNode y <> []
                      /\ strict_eq y node = false) path.

(** What [treeFilterR] hands to [treeForEachR]. *)
Definition push_ifR (fn : value -> result bool) (node : value)
    (results : list value) : result (list value) :=
  keep <- fn node ;; Ok (if keep then results ++ [node] else results).

(** [s] has no ['.'] and no ['[']: the lookahead of [splitSelector] fails
    everywhere in it. *)
Definition plain (s : string) : Prop :=
  string_exists (fun c => Ascii.eqb c "." || Ascii.eqb c "[") s = false.

(** The lookahead of [splitSelector] fails at every position of [u] when [s]
    follows it. *)
Fixpoint clear_tail (u s : string) : bool :=
  match u with
  | EmptyString => true
  | String c u' => negb (split_lookahead (u ++ s)) && clear_tail u' s
  end.

(** [".c1.c2..."] for the class names [c1], [c2], ... *)
Definition class_suffix (cs : list string) : string :=
  String.concat "" (map (String ".") cs).

(** Neither an element nor an array. *)
Definition is_leaf (v : value) : bool :=
  match v with
  | VElem _ _ _ | VArr _ _ => false
  | _ => true
  end.

(** The names that [Object.prototype] defines, which [in] finds on every
    object. *)
Definition inherited_names : list string :=
  ["constructor"; "toString"; "toLocaleString"; "valueOf"; "hasOwnProperty";
   "isPrototypeOf"; "propertyIsEnumerable"; "__proto__"; "__defineGetter__";
   "__defineSetter__"; "__lookupGetter__"; "__lookupSetter__"].

Definition inherited (key : string) : bool :=
  existsb (String.eqb key) inherited_names.

(** The nodes on which [nodeEqual] is modelled: in every props object,
    down the node, no key is a name that [Object.prototype] defines, so
    that [in] finds own keys only, and [children] is not a function, whose
    [length] would be read. *)
Fixpoint own_keyed (v : value) : Prop :=
  match v with
  | VArr _ items =>
      (fix all (l : list value) : Prop :=
         match l with
         | [] => True
         | x :: l' => own_keyed x /\ all l'
         end) items
  | VElem _ t props =>
      forallb (fun k => negb (inherited k)) (keys props) = true
      /\ js_type_eqb (typeof (WrapperMethods.member_of "children" props)) TFunction = false
      /\ (fix all (l : list (string * value)) : Prop :=
            match l with
            | [] => True
            | kv :: l' => own_keyed (snd kv) /\ all l'
            end) props
  | _ => True
  end.



(** [global.document] inside [withSetStateAllowed] and after it returned. *)
Definition document_inside (stub : value) (document : option value)
  : option value :=
  if UtilsRest.document_undefined document then Some stub else document.

Definition document_after (document : option value) : option value :=
  if UtilsRest.document_undefined document then None else document.

(** The root after [update] has read the output of the renderer [r]. *)
Definition rerendered {R} (getRenderOutput : R -> value) (root : Root R) (r : R)
  : Root R :=
  mkRoot (unrendered root) r (getRenderOutput r) [getRenderOutput r]
    (root_length root).

End MoreNotions.

(* ================================================================== *)
(** * Properties of the traversals *)
(* ================================================================== *)

Module TraversalFacts.
Import Utils ShallowTraversal Notions.

Lemma vsize_pos : forall v, 1 <= vsize v.
Proof. destruct v; simpl; lia. Qed.

Lemma vsize_get : forall key props,
    vsize (get key props) <= S (list_sum (map (fun kv => vsize (snd kv)) props)).
Proof.
  intros key props. unfold get.
  induction props as [|[k v] props IH]; simpl.
  - lia.
  - destruct (String.eqb key k); simpl.
    + lia.
    + destruct (lookup key props); simpl in *; lia.
Qed.

Lemma vsize_lookup : forall key props v,
    lookup key props = Some v ->
    vsize v <= list_sum (map (fun kv => vsize (snd kv)) props).
Proof.
  intros key props v. induction props as [|[k w] props IH]; simpl.
  - discriminate.
  - destruct (String.eqb key k).
    + intros [= ->]. lia.
    + intros H. apply IH in H. lia.
Qed.

Lemma list_sum_flat_map : forall (f : value -> list value) l,
    list_sum (map vsize (flat_map f l))
    = list_sum (map (fun x => list_sum (map vsize (f x))) l).
Proof.
  intros f l. induction l as [|x l IH]; simpl.
  - reflexivity.
  - rewrite map_app, list_sum_app, IH. reflexivity.
Qed.

Lemma vsize_traverseAllChildren : forall v,
    list_sum (map vsize (traverseAllChildren v)) <= vsize v.
Proof.
  induction v using value_nested_ind; simpl; try lia.
  rewrite list_sum_flat_map.
  induction H as [|x l Hx Hl IH]; simpl in *; lia.
Qed.

(** The children of a node are smaller than the node: traversals end. *)
Lemma vsize_childrenOfNode : forall t,
    list_sum (map vsize (childrenOfNode t)) < vsize t.
Proof.
  intros t. unfold childrenOfNode, store_prop.
  destruct (truthy t) eqn:Ht; simpl; [|pose proof (vsize_pos t); lia].
  destruct t; simpl; try lia.
  unfold Children_forEach, get.
  destruct (lookup "children" props) as [v|] eqn:Hl; simpl; [|lia].
  apply vsize_lookup in Hl.
  pose proof (vsize_traverseAllChildren v) as Hv.
  destruct v; simpl in *; lia.
Qed.

Lemma list_sum_In : forall (l : list value) x,
    In x l -> vsize x <= list_sum (map vsize l).
Proof.
  induction l as [|y l IH]; simpl; intros x H; [contradiction|].
  destruct H as [->|H]; [lia|]. apply IH in H. lia.
Qed.

Lemma vsize_child : forall t c, In c (childrenOfNode t) -> vsize c < vsize t.
Proof.
  intros t c H. apply list_sum_In in H.
  pose proof (vsize_childrenOfNode t). lia.
Qed.

Lemma treeForEach_fuel_preorder : forall fuel t,
    vsize t <= fuel ->
    exists l, Preorder t l /\
      forall fn results,
        treeForEach_fuel fuel t (push_if fn) results
        = results ++ List.filter fn l.
Proof.
  induction fuel as [|fuel IH]; intros t Hsize.
  - pose proof (vsize_pos t). lia.
  - assert (Hkids : forall c, In c (childrenOfNode t) -> vsize c <= fuel).
    { intros c Hc. apply vsize_child in Hc. lia. }
    assert (Hfold : forall kids,
               (forall c, In c kids -> vsize c <= fuel) ->
               exists ls, Forall2 Preorder kids ls /\
                 forall fn results,
                   fold_left (fun acc node => treeForEach_fuel fuel node (push_if fn) acc)
                     kids results
                   = results ++ List.filter fn (List.concat ls)).
    { induction kids as [|c kids IHk]; intros Hall.
      - exists []. split; [constructor|]. intros. simpl. now rewrite app_nil_r.
      - destruct (IH c) as [lc [Hlc Hc]]; [apply Hall; now left|].
        destruct IHk as [ls [Hls Hk]]; [intros; apply Hall; now right|].
        exists (lc :: ls). split; [now constructor|].
        intros fn results. simpl. rewrite Hc, Hk, filter_app, app_assoc.
        reflexivity. }
    destruct (Hfold _ Hkids) as [ls [Hls Hrun]].
    exists (t :: List.concat ls). split; [now constructor|].
    intros fn results. simpl. rewrite Hrun. unfold push_if.
    destruct (fn t); simpl.
    + now rewrite <- app_assoc.
    + reflexivity.
Qed.

Lemma Preorder_unique_bounded : forall n t,
    vsize t <= n -> forall l l', Preorder t l -> Preorder t l' -> l = l'.
Proof.
  induction n as [|n IH]; intros t Hsize l l' H H'.
  - pose proof (vsize_pos t). lia.
  - inversion H as [t1 ls Hls]; subst. inversion H' as [t2 ls' Hls']; subst.
    f_equal. f_equal.
    assert (Hkids : forall c, In c (childrenOfNode t) -> vsize c <= n).
    { intros c Hc. apply vsize_child in Hc. lia. }
    clear H H' Hsize. revert ls' Hls'.
    induction Hls as [|c lc kids ls Hc Hrest IHrest]; intros ls' Hls'.
    + now inversion Hls'.
    + inversion Hls' as [|c' lc' kids' ls'' Hc' Hrest']; subst.
      f_equal.
      * apply (IH c); [apply Hkids; now left|assumption|assumption].
      * apply IHrest; [|assumption]. intros; apply Hkids; now right.
Qed.

Lemma Preorder_unique : forall t l l', Preorder t l -> Preorder t l' -> l = l'.
Proof. intros t. now apply (Preorder_unique_bounded (n := vsize t)). Qed.

(** [treeFilter] returns, in pre-order, the nodes for which [fn] holds:
    the fuel given to [treeForEach] is enough. *)
Lemma treeFilter_preorder : forall t,
    exists l, Preorder t l /\ forall fn, treeFilter t fn = List.filter fn l.
Proof.
  intros t. destruct (treeForEach_fuel_preorder (fuel := vsize t) t) as [l [Hl Hrun]];
    [lia|].
  exists l. split; [exact Hl|]. intros fn.
  unfold treeFilter, treeForEach. exact (Hrun fn []).
Qed.

Lemma filter_true : forall (l : list value), List.filter (fun _ => true) l = l.
Proof. induction l; simpl; congruence. Qed.

Lemma treeFilter_all_preorder : forall t, Preorder t (treeFilter t (fun _ => true)).
Proof.
  intros t. destruct (treeFilter_preorder t) as [l [Hl Hf]].
  rewrite Hf, filter_true. exact Hl.
Qed.

Lemma treeFilter_filter : forall t fn,
    treeFilter t fn = List.filter fn (treeFilter t (fun _ => true)).
Proof.
  intros t fn. destruct (treeFilter_preorder t) as [l [Hl Hf]].
  now rewrite !Hf, filter_true.
Qed.

Lemma Reach_Preorder : forall t l, Preorder t l -> forall x, Reach t x -> In x l.
Proof.
  intros t l Hl x Hr. revert l Hl.
  induction Hr as [t|t c x Hc Hr IH]; intros l Hl; inversion Hl as [t' ls Hls]; subst.
  - now left.
  - right. clear Hl.
    induction Hls as [|c' lc kids ls Hc' Hrest IHrest]; [contradiction|].
    simpl. apply in_or_app. destruct Hc as [->|Hc].
    + left. now apply IH.
    + right. now apply IHrest.
Qed.

Lemma Preorder_Reach_bounded : forall n t,
    vsize t <= n -> forall l, Preorder t l -> forall x, In x l -> Reach t x.
Proof.
  induction n as [|n IH]; intros t Hsize l H x Hx.
  - pose proof (vsize_pos t). lia.
  - inversion H as [t1 ls Hls]; subst.
    destruct Hx as [<-|Hx]; [constructor|].
    assert (Hkids : forall c, In c (childrenOfNode t) -> vsize c <= n).
    { intros c Hc. apply vsize_child in Hc. lia. }
    assert (Hsome : exists c, In c (childrenOfNode t) /\ Reach c x).
    { clear H Hsize.
      induction Hls as [|c lc kids ls Hc Hrest IHrest]; [contradiction|].
      simpl in Hx. apply in_app_or in Hx. destruct Hx as [Hx|Hx].
      - exists c. split; [now left|]. apply (IH c) with lc; auto.
        apply Hkids; now left.
      - destruct IHrest as [c' [Hc' Hr']]; auto.
        + intros; apply Hkids; now right.
        + exists c'. split; [now right|assumption]. }
    destruct Hsome as [c [Hc Hr]]. now apply Reach_child with c.
Qed.

Lemma Preorder_Reach : forall t l, Preorder t l -> forall x, In x l -> Reach t x.
Proof. intros t. now apply (Preorder_Reach_bounded (n := vsize t)). Qed.

(** ** [pathToNode] *)

Lemma pop_spec : forall {A} (queue : list A) current rest,
    pop queue = Some (current, rest) -> queue = rest ++ [current].
Proof.
  intros A queue current rest H. unfold pop in H.
  destruct (rev queue) as [|x r] eqn:E; [discriminate|].
  injection H as <- <-.
  rewrite <- (rev_involutive queue), E. reflexivity.
Qed.

(** The loop of [pathToNode] ends: each turn replaces a node of the queue by
    its children. *)
Lemma pathToNode_loop_returns : forall fuel node queue path,
    list_sum (map vsize queue) < fuel ->
    exists r, pathToNode_loop fuel node queue path = Return r.
Proof.
  induction fuel as [|fuel IH]; intros node queue path Hfuel; [lia|].
  simpl. destruct (pop queue) as [[current rest]|] eqn:Hpop; [|now eexists].
  destruct (strict_eq current node); [now eexists|].
  apply IH. apply pop_spec in Hpop. subst queue.
  rewrite map_app, list_sum_app in *. simpl in Hfuel.
  pose proof (vsize_childrenOfNode current). lia.
Qed.

Lemma pathToNode_returns : forall node root,
    pathToNode_loop (S (vsize root)) node [root] [] = Return (pathToNode node root).
Proof.
  intros node root. unfold pathToNode.
  destruct (pathToNode_loop_returns (fuel := S (vsize root)) node [root] [])
    as [r Hr]; [simpl; lia|].
  now rewrite Hr.
Qed.

(** When the loop returns a path it has met the target in the tree. *)
Lemma pathToNode_loop_found : forall fuel node queue path p,
    pathToNode_loop fuel node queue path = Return (Some p) ->
    exists q x, In q queue /\ Reach q x /\ strict_eq x node = true.
Proof.
  induction fuel as [|fuel IH]; intros node queue path p H; [discriminate|].
  simpl in H. destruct (pop queue) as [[current rest]|] eqn:Hpop; [|discriminate].
  apply pop_spec in Hpop. subst queue.
  destruct (strict_eq current node) eqn:Heq.
  - exists current, current. repeat split; auto using Reach_self.
    apply in_or_app. right. now left.
  - apply IH in H. destruct H as [q [x [Hq [Hr Hx]]]].
    apply in_app_or in Hq. destruct Hq as [Hq|Hq].
    + exists q, x. repeat split; auto. apply in_or_app. now left.
    + exists current, x. repeat split; auto.
      * apply in_or_app. right. now left.
      * now apply Reach_child with q.
Qed.

(** [pathToNode] returns [null] for a target that is not in the tree. *)
Lemma pathToNode_unreachable : forall node root,
    (forall x, Reach root x -> strict_eq x node = false) ->
    pathToNode node root = None.
Proof.
  intros node root Hno.
  destruct (pathToNode node root) as [p|] eqn:Hp; [|reflexivity].
  pose proof (pathToNode_returns node root) as Hret. rewrite Hp in Hret.
  apply pathToNode_loop_found in Hret. destruct Hret as [q [x [Hq [Hr Hx]]]].
  destruct Hq as [<-|[]]. rewrite (Hno x Hr) in Hx. discriminate.
Qed.

(** The loop of MountedTraversal.js on instances [1] with children [2] and
    [3], [3] with the child [4]: the path to [2] holds [3]. *)
Lemma mounted_pathToNode_keeps_visited_sibling :
  MountedTraversal.pathToNode Nat.eqb
    (fun i => match i with 1 => [2; 3] | 3 => [4] | _ => [] end) 5 2 1
  = Return (Some [1; 3]).
Proof. reflexivity. Qed.

End TraversalFacts.

(* ================================================================== *)
(** * Properties of the structural equality *)
(* ================================================================== *)

Module EqualityFacts.
Import Utils ShallowTraversal Notions TraversalFacts.

Section Symmetry.

Variable isEqual : value -> value -> bool.

Lemma nodeEqual_eq : forall a b,
    nodeEqual isEqual a b
    = if strict_eq a b then Ok true
      else if negb (truthy a) || negb (truthy b) then Ok false
      else if negb (strict_eq (type_of a) (type_of b)) then Ok false
      else props_loop isEqual (propsOfNode a) (List.length (keys (propsOfNode a)))
             (propsOfNode b).
Proof.
  intros a b. destruct a; try reflexivity.
  cbn [nodeEqual propsOfNode].
  destruct (strict_eq (VElem ref a props) b); [reflexivity|].
  destruct (negb (truthy (VElem ref a props)) || negb (truthy b)); [reflexivity|].
  destruct (negb (strict_eq (type_of (VElem ref a props)) (type_of b))); [reflexivity|].
  generalize (List.length (keys props)) as n.
  induction props as [|[prop lv] rest IH]; intros n; [reflexivity|].
  cbn [props_loop]. destruct (lookup prop (propsOfNode b)) as [rv|]; [|reflexivity].
  unfold compare_prop. destruct (String.eqb prop "children").
  - unfold childrenEqual.
    change (fix each (xs ys : list value) {struct xs} : result bool :=
           match xs with
           | [] => Ok true
           | x :: xs' =>
               match ys with
               | [] => Ok true
               | y :: ys' =>
                   eq <- nodeEqual isEqual x y;;
                   (if negb eq then Ok false else each xs' ys')
               end
           end) with (each_equal isEqual).
    destruct (childrenEqual_with (nodeEqual isEqual) (each_equal isEqual) lv rv) as [[|]|e];
      cbn [bind negb]; [apply IH|reflexivity|reflexivity].
  - destruct (strict_eq rv lv); [apply IH|].
    destruct (js_type_eqb (typeof rv) (typeof lv) && js_type_eqb (typeof lv) TObject);
      [|reflexivity].
    cbn [bind]. destruct (isEqual lv rv); cbn [negb]; [apply IH|reflexivity].
Qed.

Lemma nodeEqual_leaf_eq : forall a b,
    match a with VElem _ _ _ => False | _ => True end ->
    nodeEqual isEqual a b = nodeEqual_leaf a b.
Proof. intros a b H. destruct a; try reflexivity. contradiction. Qed.

Lemma map_nth_seq : forall (l : list value) d,
    map (fun i => nth i l d) (seq 0 (List.length l)) = l.
Proof.
  intros l d. apply nth_ext with (d := d) (d' := d).
  - now rewrite length_map, length_seq.
  - intros i Hi. rewrite length_map, length_seq in Hi.
    rewrite (nth_indep _ d (nth 0 l d)) by (now rewrite length_map, length_seq).
    rewrite (map_nth (fun i => nth i l d) (seq 0 (List.length l)) 0 i).
    now rewrite seq_nth.
Qed.

Lemma elements_array : forall r items,
    elements (VArr r items) (List.length items) = items.
Proof. intros r items. exact (map_nth_seq items VUndefined). Qed.

Lemma childrenEqual_eq : forall a b,
    childrenEqual isEqual a b
    = if strict_eq a b then Ok true
      else if negb (isArray a) && negb (isArray b) then nodeEqual isEqual a b
      else if negb (truthy a) && negb (truthy b) then Ok true
      else
        la <- length_of a ;;
        lb <- length_of b ;;
        if negb (option_nat_eqb la lb) then Ok false
        else if option_nat_eqb la (Some 0) && option_nat_eqb lb (Some 0) then Ok true
        else match la with
             | Some n => each_equal isEqual (elements a n) (elements b n)
             | None => Ok true
             end.
Proof.
  intros a b. unfold childrenEqual, childrenEqual_with.
  destruct (strict_eq a b); [reflexivity|].
  destruct (negb (isArray a) && negb (isArray b)); [reflexivity|].
  destruct (negb (truthy a) && negb (truthy b)); [reflexivity|].
  destruct a; try reflexivity.
  - (* a is a string *)
    cbn [length_of bind]. destruct (length_of b) as [lb|e]; [|reflexivity].
    cbn [bind].
    destruct (negb (option_nat_eqb (Some (String.length s)) lb)); [reflexivity|].
    destruct (option_nat_eqb (Some (String.length s)) (Some 0) && option_nat_eqb lb (Some 0));
      [reflexivity|].
    unfold elements. generalize (String.length s) as n. generalize 0 as i.
    intros i n. revert i. induction n as [|n IH]; intros i; [reflexivity|].
    cbn [seq map each_equal]. rewrite <- IH.
    rewrite (nodeEqual_leaf_eq (index_of (VStr s) i) (index_of b i)).
    + reflexivity.
    + simpl. now destruct (String.get i s).
  - (* a is an array *)
    cbn [length_of bind]. destruct (length_of b) as [lb|e]; [|reflexivity].
    cbn [bind].
    destruct (negb (option_nat_eqb (Some (List.length items)) lb)); [reflexivity|].
    destruct (option_nat_eqb (Some (List.length items)) (Some 0) && option_nat_eqb lb (Some 0));
      [reflexivity|].
    now rewrite elements_array.
Qed.

Lemma keys_distinct_items : forall r items x,
    keys_distinct (VArr r items) -> In x items -> keys_distinct x.
Proof.
  intros r items x H Hx. cbn [keys_distinct] in H.
  induction items as [|y items IH]; [contradiction|].
  destruct H as [Hy H]. destruct Hx as [->|Hx]; auto.
Qed.

Lemma keys_distinct_props : forall r t props k v,
    keys_distinct (VElem r t props) -> In (k, v) props -> keys_distinct v.
Proof.
  intros r t props k v [_ H] Hin.
  induction props as [|kv props IH]; [contradiction|].
  destruct H as [Hkv H]. destruct Hin as [->|Hin]; auto.
Qed.

Lemma keys_distinct_NoDup : forall v, keys_distinct v -> NoDup (keys (propsOfNode v)).
Proof.
  intros v H. destruct v; simpl; try constructor. now destruct H.
Qed.

Lemma keys_distinct_elements : forall a n x,
    keys_distinct a -> In x (elements a n) -> keys_distinct x.
Proof.
  intros a n x Ha Hx. unfold elements in Hx. apply in_map_iff in Hx.
  destruct Hx as [i [<- _]]. destruct a; simpl; auto.
  - now destruct (String.get i s).
  - destruct (nth_in_or_default i items VUndefined) as [Hin | Hd]; [|rewrite Hd]; [|exact I].
    now apply keys_distinct_items with ref items.
Qed.

Lemma vsize_elements : forall a n x, In x (elements a n) -> vsize x <= vsize a.
Proof.
  intros a n x Hx. unfold elements in Hx. apply in_map_iff in Hx.
  destruct Hx as [i [<- _]]. pose proof (vsize_pos a).
  destruct a; simpl; auto.
  - now destruct (String.get i s).
  - destruct (nth_in_or_default i items VUndefined) as [Hin | Hd]; [|rewrite Hd]; [|simpl; lia].
    apply list_sum_In in Hin. lia.
Qed.

Lemma length_elements : forall a n, List.length (elements a n) = n.
Proof. intros. unfold elements. now rewrite length_map, length_seq. Qed.

Lemma strict_eq_sym : forall a b, strict_eq a b = strict_eq b a.
Proof.
  destruct a, b; simpl; auto using Nat.eqb_sym, Z.eqb_sym, String.eqb_sym.
Qed.

Lemma js_type_eqb_eq : forall a b, js_type_eqb a b = true <-> a = b.
Proof. destruct a, b; simpl; split; intros; congruence. Qed.

Lemma option_nat_eqb_eq : forall a b, option_nat_eqb a b = true <-> a = b.
Proof.
  destruct a, b; simpl; split; intros H; try congruence.
  - apply Nat.eqb_eq in H. now subst.
  - injection H as ->. apply Nat.eqb_refl.
Qed.

Lemma lookup_In : forall k v props,
    NoDup (keys props) -> In (k, v) props -> lookup k props = Some v.
Proof.
  induction props as [|[k' v'] props IH]; intros Hnd Hin; [contradiction|].
  simpl in *. inversion Hnd as [|? ? Hnotin Hnd']; subst.
  destruct Hin as [[= -> ->]|Hin].
  - now rewrite String.eqb_refl.
  - destruct (String.eqb_spec k k') as [->|Hne]; [|auto].
    exfalso. apply Hnotin. apply in_map_iff. now exists (k', v).
Qed.

Lemma lookup_Some_In : forall k v props, lookup k props = Some v -> In (k, v) props.
Proof.
  induction props as [|[k' v'] props IH]; simpl; [discriminate|].
  destruct (String.eqb_spec k k') as [->|Hne].
  - intros [= ->]. now left.
  - intros H. right. auto.
Qed.

Lemma lookup_key : forall k props,
    In k (keys props) -> exists v, lookup k props = Some v.
Proof.
  induction props as [|[k' v'] props IH]; simpl; [contradiction|].
  intros [->|Hin].
  - rewrite String.eqb_refl. now eexists.
  - destruct (String.eqb k k'); [now eexists|auto].
Qed.


(** underscore's [isEqual] does not depend on the order of its arguments. *)
Hypothesis isEqual_sym : forall x y, isEqual x y = isEqual y x.

Lemma props_loop_true : forall l n rightProps,
    props_loop isEqual l n rightProps = Ok true ->
    (forall k lv, In (k, lv) l ->
                  exists rv, lookup k rightProps = Some rv
                             /\ compare_prop isEqual k lv rv = Ok true)
    /\ n = List.length (keys rightProps).
Proof.
  induction l as [|[k lv] l IH]; intros n rightProps H.
  - simpl in H. injection H as H. apply Nat.eqb_eq in H.
    split; [intros ? ? []|assumption].
  - cbn [props_loop] in H.
    destruct (lookup k rightProps) as [rv|] eqn:Hl; [|discriminate].
    destruct (compare_prop isEqual k lv rv) as [[|]|e] eqn:Hc; cbn [bind negb] in H;
      try discriminate.
    apply IH in H. destruct H as [Hall Hn]. split; [|assumption].
    intros k' lv' [[= <- <-]|Hin]; [now exists rv|auto].
Qed.

Lemma props_loop_not_false : forall l n leftProps,
    (forall k v, In (k, v) l ->
                 exists lv, lookup k leftProps = Some lv
                            /\ forall y, compare_prop isEqual k v lv = Ok y -> y = true) ->
    n = List.length (keys leftProps) ->
    forall y, props_loop isEqual l n leftProps = Ok y -> y = true.
Proof.
  induction l as [|[k v] l IH]; intros n leftProps Hall Hn y H.
  - simpl in H. injection H as <-. subst n. apply Nat.eqb_refl.
  - cbn [props_loop] in H.
    destruct (Hall k v (or_introl eq_refl)) as [lv [Hl Hc]]. rewrite Hl in H.
    destruct (compare_prop isEqual k v lv) as [c|e] eqn:Hcmp; cbn [bind] in H;
      [|discriminate].
    rewrite (Hc c eq_refl) in H. cbn [negb] in H.
    apply (IH n leftProps); auto. intros; apply Hall; now right.
Qed.

Lemma each_equal_sym : forall m, symmetric_upto isEqual m ->
    forall xs ys,
      (forall x, In x xs -> vsize x <= m /\ keys_distinct x) ->
      (forall y, In y ys -> keys_distinct y) ->
      each_equal isEqual xs ys = Ok true ->
      forall r, each_equal isEqual ys xs = Ok r -> r = true.
Proof.
  intros m IH. induction xs as [|x xs IHxs]; intros ys Hxs Hys H r Hr.
  - destruct ys; simpl in Hr; now injection Hr as <-.
  - destruct ys as [|y ys]; [simpl in Hr; now injection Hr as <-|].
    cbn [each_equal] in H, Hr.
    destruct (nodeEqual isEqual x y) as [[|]|e] eqn:Hxy; cbn [bind negb] in H;
      try discriminate.
    destruct (nodeEqual isEqual y x) as [c|e] eqn:Hyx; cbn [bind] in Hr;
      [|discriminate].
    destruct (Hxs x (or_introl eq_refl)) as [Hsize Hkx].
    rewrite (IH x Hsize Hkx y (Hys y (or_introl eq_refl)) Hxy c Hyx) in Hr.
    cbn [negb] in Hr. apply (IHxs ys); auto.
    + intros; apply Hxs; now right.
    + intros; apply Hys; now right.
Qed.

Lemma childrenEqual_sym : forall m, symmetric_upto isEqual m ->
    forall a b, vsize a <= m -> keys_distinct a -> keys_distinct b ->
      childrenEqual isEqual a b = Ok true ->
      forall y, childrenEqual isEqual b a = Ok y -> y = true.
Proof.
  intros m IH a b Hsize Ha Hb H y Hy.
  rewrite childrenEqual_eq in H, Hy. rewrite (strict_eq_sym b a) in Hy.
  destruct (strict_eq a b); [now injection Hy as <-|].
  rewrite (andb_comm (negb (isArray b))) in Hy.
  destruct (negb (isArray a) && negb (isArray b)); [now apply (IH a Hsize Ha b Hb H)|].
  rewrite (andb_comm (negb (truthy b))) in Hy.
  destruct (negb (truthy a) && negb (truthy b)); [now injection Hy as <-|].
  destruct (length_of a) as [la|e]; [|discriminate].
  destruct (length_of b) as [lb|e]; [|discriminate].
  cbn [bind] in H, Hy.
  destruct (option_nat_eqb la lb) eqn:Hlen; [|discriminate].
  apply option_nat_eqb_eq in Hlen. subst lb.
  rewrite (proj2 (option_nat_eqb_eq la la) eq_refl) in Hy. cbn [negb] in H, Hy.
  destruct (option_nat_eqb la (Some 0) && option_nat_eqb la (Some 0));
    [now injection Hy as <-|].
  destruct la as [n|]; [|now injection Hy as <-].
  apply (each_equal_sym IH) with (elements a n) (elements b n); auto.
  - intros x Hx. split.
    + apply vsize_elements in Hx. lia.
    + now apply keys_distinct_elements with a n.
  - intros x Hx. now apply keys_distinct_elements with b n.
Qed.

Lemma compare_prop_sym : forall m, symmetric_upto isEqual m ->
    forall k lv rv, vsize lv <= m -> keys_distinct lv -> keys_distinct rv ->
      compare_prop isEqual k lv rv = Ok true ->
      forall y, compare_prop isEqual k rv lv = Ok y -> y = true.
Proof.
  intros m IH k lv rv Hsize Hl Hr H y Hy. unfold compare_prop in *.
  destruct (String.eqb k "children").
  - now apply (childrenEqual_sym IH) with lv rv.
  - rewrite (strict_eq_sym lv rv) in Hy.
    destruct (strict_eq rv lv); [now injection Hy as <-|].
    destruct (js_type_eqb (typeof rv) (typeof lv) && js_type_eqb (typeof lv) TObject)
      eqn:Ht; [|discriminate].
    apply andb_true_iff in Ht. destruct Ht as [Ht1 Ht2].
    apply js_type_eqb_eq in Ht1, Ht2. rewrite Ht1, Ht2 in Hy. cbn in Hy.
    injection H as H. injection Hy as <-. now rewrite isEqual_sym.
Qed.

Lemma vsize_prop : forall (props : list (string * value)) k v,
    In (k, v) props -> vsize v <= list_sum (map (fun kv => vsize (snd kv)) props).
Proof.
  induction props as [|kv props IH]; intros k v Hin; [contradiction|].
  simpl. destruct Hin as [->|Hin]; [simpl; lia|]. apply IH in Hin. lia.
Qed.

Lemma symmetric_upto_all : forall m, symmetric_upto isEqual m.
Proof.
  induction m as [|m IH]; intros a Hsize Ha b Hb H y Hy.
  - pose proof (vsize_pos a). lia.
  - rewrite nodeEqual_eq in H, Hy.
    rewrite (strict_eq_sym b a) in Hy.
    destruct (strict_eq a b); [now injection Hy as <-|].
    rewrite (orb_comm (negb (truthy b))) in Hy.
    destruct (negb (truthy a) || negb (truthy b)); [discriminate|].
    rewrite (strict_eq_sym (type_of b)) in Hy.
    destruct (negb (strict_eq (type_of a) (type_of b))); [discriminate|].
    apply props_loop_true in H. destruct H as [Hall Hn].
    pose proof (keys_distinct_NoDup a Ha) as Hnda.
    pose proof (keys_distinct_NoDup b Hb) as Hndb.
    assert (Hincl : incl (keys (propsOfNode a)) (keys (propsOfNode b))).
    { intros k Hk. unfold keys in Hk. apply in_map_iff in Hk.
      destruct Hk as [[k' lv] [<- Hin]]. destruct (Hall k' lv Hin) as [rv [Hl _]].
      apply lookup_Some_In in Hl. unfold keys. apply in_map_iff. now exists (k', rv). }
    assert (Hback : incl (keys (propsOfNode b)) (keys (propsOfNode a))).
    { apply NoDup_length_incl; auto. lia. }
    revert Hy. apply props_loop_not_false; [|auto].
    intros k v Hin.
    assert (Hk : In k (keys (propsOfNode a))).
    { apply Hback. unfold keys. apply in_map_iff. now exists (k, v). }
    apply lookup_key in Hk. destruct Hk as [lv Hlv].
    exists lv. split; [assumption|].
    pose proof Hlv as Hinl. apply lookup_Some_In in Hinl.
    destruct (Hall k lv Hinl) as [rv [Hrv Hcmp]].
    assert (Hv : lookup k (propsOfNode b) = Some v) by (apply lookup_In; assumption).
    rewrite Hv in Hrv. injection Hrv as <-.
    apply (compare_prop_sym IH) with (lv := lv); auto.
    + destruct a; simpl in Hinl; try contradiction.
      apply vsize_prop in Hinl. simpl in Hsize. lia.
    + destruct a; simpl in Hinl; try contradiction.
      now apply keys_distinct_props with ref a props k.
    + destruct b; simpl in Hin; try contradiction.
      now apply keys_distinct_props with ref b props k.
Qed.

Lemma nodeEqual_symmetric_when_defined : forall a b x y,
    keys_distinct a -> keys_distinct b ->
    nodeEqual isEqual a b = Ok x -> nodeEqual isEqual b a = Ok y -> x = y.
Proof.
  intros a b x y Ha Hb Hx Hy.
  destruct x, y; auto.
  - symmetry. now apply (symmetric_upto_all (m := vsize a)) with a b.
  - now apply (symmetric_upto_all (m := vsize b)) with b a.
Qed.

End Symmetry.

End EqualityFacts.

(* ================================================================== *)
(** * Properties of the selector compiler *)
(* ================================================================== *)

Module SelectorFacts.
Import Utils ShallowTraversal Notions.

Lemma length_append : forall a b,
    String.length (a ++ b) = String.length a + String.length b.
Proof. induction a; simpl; intros; [reflexivity|now rewrite IHa]. Qed.

Lemma string_exists_append : forall p a b,
    string_exists p (a ++ b) = string_exists p a || string_exists p b.
Proof.
  induction a; simpl; intros; [reflexivity|]. now rewrite IHa, orb_assoc.
Qed.

Lemma eqb_empty_length : forall s, String.eqb s "" = true -> String.length s = 0.
Proof. intros s H. apply String.eqb_eq in H. now subst. Qed.

Lemma neqb_empty_length : forall s, String.eqb s "" = false -> 1 <= String.length s.
Proof. destruct s; simpl; intros; [discriminate|lia]. Qed.

(** ** The pieces of [splitSelector] *)

(** A piece holds only characters of the selector. *)
Lemma split_go_chars : forall p s cur,
    string_exists p cur = false -> string_exists p s = false ->
    Forall (fun f => string_exists p f = false) (split_go cur s).
Proof.
  induction s as [|c s IH]; intros cur Hcur Hs.
  - simpl. now constructor.
  - simpl in Hs. apply orb_false_iff in Hs. destruct Hs as [Hc Hs].
    cbn [split_go].
    destruct (split_lookahead (String c s) && negb (String.eqb cur "")).
    + constructor; [assumption|]. apply IH; [|assumption]. simpl. now rewrite Hc.
    + apply IH; [|assumption]. rewrite string_exists_append. simpl.
      now rewrite Hcur, Hc.
Qed.

Lemma split_go_length_le : forall s cur,
    Forall (fun f => String.length f <= String.length cur + String.length s)
      (split_go cur s).
Proof.
  induction s as [|c s IH]; intros cur.
  - simpl. constructor; [lia|constructor].
  - cbn [split_go].
    destruct (split_lookahead (String c s) && negb (String.eqb cur "")).
    + constructor; [simpl; lia|].
      eapply Forall_impl; [|apply IH]. simpl. intros; lia.
    + eapply Forall_impl; [|apply IH]. intros f.
      rewrite length_append. simpl. lia.
Qed.

Lemma split_go_length_lt : forall s cur,
    cuts cur s = true ->
    Forall (fun f => String.length f < String.length cur + String.length s)
      (split_go cur s).
Proof.
  induction s as [|c s IH]; intros cur Hcut.
  - discriminate.
  - cbn [split_go cuts] in *.
    destruct (split_lookahead (String c s) && negb (String.eqb cur "")) eqn:Hhere.
    + apply andb_true_iff in Hhere. destruct Hhere as [_ Hcur].
      apply negb_true_iff, neqb_empty_length in Hcur.
      constructor; [simpl; lia|].
      eapply Forall_impl; [|apply split_go_length_le]. simpl. intros; lia.
    + eapply Forall_impl; [|apply IH; assumption]. intros f.
      rewrite length_append. simpl. lia.
Qed.

Lemma append_not_empty : forall cur c,
    String.eqb (cur ++ String c EmptyString) "" = false.
Proof. destruct cur; reflexivity. Qed.

(** A compound selector is cut: its pieces are shorter than it is. *)
Lemma compound_cuts : forall s cur, isCompoundSelector s = true -> cuts cur s = true.
Proof.
  induction s as [|c s IH]; intros cur H; [discriminate|].
  cbn [cuts].
  destruct (split_lookahead (String c s) && negb (String.eqb cur "")); [reflexivity|].
  cbn [isCompoundSelector] in H. apply orb_true_iff in H. destruct H as [H|H].
  - apply andb_true_iff in H. destruct H as [_ H].
    destruct s as [|d s']; [discriminate|].
    cbn [cuts]. rewrite append_not_empty.
    replace (split_lookahead (String d s')) with true; [reflexivity|].
    unfold split_lookahead. apply orb_true_iff in H.
    destruct H as [H|H]; apply andb_true_iff in H; destruct H as [-> H];
      [reflexivity|]. now rewrite H, orb_true_r.
  - now apply IH.
Qed.

Lemma splitSelector_shorter : forall s,
    isCompoundSelector s = true ->
    Forall (fun f => String.length f < String.length s) (splitSelector s).
Proof.
  intros s H. apply (split_go_length_lt s ""). now apply compound_cuts.
Qed.

Lemma splitSelector_simple : forall s,
    isSimpleSelector s = true ->
    Forall (fun f => isSimpleSelector f = true) (splitSelector s).
Proof.
  intros s H. unfold isSimpleSelector in *. apply negb_true_iff in H.
  eapply Forall_impl; [|apply (split_go_chars is_complex_char s ""); auto].
  intros f Hf. now rewrite Hf.
Qed.

(** ** [buildPredicate] *)

Lemma mapM_ext_in : forall {A B} (f g : A -> result B) l,
    (forall x, In x l -> f x = g x) -> mapM f l = mapM g l.
Proof.
  induction l as [|x l IH]; intros H; [reflexivity|].
  simpl. rewrite (H x) by now left. rewrite IH; [reflexivity|].
  intros; apply H; now right.
Qed.

Lemma mapM_ok : forall {A B} (f : A -> result B) l,
    Forall (fun x => exists y, f x = Ok y) l -> exists ys, mapM f l = Ok ys.
Proof.
  induction 1 as [|x l [y Hy] Hl [ys Hys]]; simpl.
  - now eexists.
  - rewrite Hy, Hys. simpl. now eexists.
Qed.

(** The recursion of [buildPredicate] ends within the length of the
    selector: more fuel changes nothing. *)
Lemma buildPredicate_fuel_stable : forall n m s,
    String.length s <= n -> String.length s <= m ->
    buildPredicate_fuel n (VStr s) = buildPredicate_fuel m (VStr s).
Proof.
  induction n as [|n IH]; intros m s Hn Hm.
  - destruct s; [|simpl in Hn; lia]. destruct m; reflexivity.
  - destruct m as [|m].
    + destruct s; [reflexivity|simpl in Hm; lia].
    + cbn [buildPredicate_fuel typeof].
      destruct (negb (isSimpleSelector s)); [reflexivity|].
      destruct (isCompoundSelector s) eqn:Hc; [|reflexivity].
      f_equal. apply mapM_ext_in. intros f Hf.
      pose proof (splitSelector_shorter s Hc) as Hshort.
      rewrite Forall_forall in Hshort. specialize (Hshort f Hf).
      apply IH; lia.
Qed.

(** A selector without [~], white space, [:] or [>] compiles. *)
Lemma buildPredicate_fuel_simple : forall n s,
    String.length s <= n -> isSimpleSelector s = true ->
    exists p, buildPredicate_fuel n (VStr s) = Ok p.
Proof.
  induction n as [|n IH]; intros s Hn Hsimple.
  - destruct s; [|simpl in Hn; lia]. cbn. now eexists.
  - cbn [buildPredicate_fuel typeof]. rewrite Hsimple. cbn [negb].
    destruct (isCompoundSelector s) eqn:Hc.
    + pose proof (splitSelector_shorter s Hc) as Hshort.
      pose proof (splitSelector_simple s Hsimple) as Hsimp.
      rewrite Forall_forall in Hshort, Hsimp.
      assert (exists fns, mapM (fun f => buildPredicate_fuel n (VStr f))
                            (splitSelector s) = Ok fns) as [fns Hfns].
      { apply mapM_ok, Forall_forall. intros f Hf. apply IH.
        - specialize (Hshort f Hf). lia.
        - now apply Hsimp. }
      rewrite Hfns. cbn. now eexists.
    + destruct (starts_with (Ascii.eqb ".") s); [now eexists|].
      destruct (starts_with (Ascii.eqb "#") s); now eexists.
Qed.

Lemma buildPredicate_complex : forall s,
    isSimpleSelector s = false ->
    buildPredicate (VStr s) = Throw (selectorError s).
Proof.
  intros s H. unfold buildPredicate.
  destruct (selector_length (VStr s)); cbn; now rewrite H.
Qed.

Lemma buildPredicate_simple : forall s,
    isSimpleSelector s = true -> exists p, buildPredicate (VStr s) = Ok p.
Proof.
  intros s H. unfold buildPredicate. apply buildPredicate_fuel_simple; simpl; auto.
Qed.

(** The predicate of a compound selector is [AND] of the predicates of its
    pieces, each compiled on its own. *)
Lemma buildPredicate_compound : forall s,
    isSimpleSelector s = true -> isCompoundSelector s = true ->
    buildPredicate (VStr s)
    = (fns <- mapM (fun f => buildPredicate (VStr f)) (splitSelector s) ;;
       Ok (AND fns)).
Proof.
  intros s Hsimple Hc. unfold buildPredicate at 1. simpl selector_length.
  destruct (String.length s) as [|n] eqn:Hlen.
  - destruct s; [discriminate|simpl in Hlen; lia].
  - cbn [buildPredicate_fuel typeof]. rewrite Hsimple, Hc. cbn [negb].
    f_equal. apply mapM_ext_in. intros f Hf.
    pose proof (splitSelector_shorter s Hc) as Hshort.
    rewrite Forall_forall in Hshort. specialize (Hshort f Hf).
    unfold buildPredicate. simpl selector_length.
    apply buildPredicate_fuel_stable; lia.
Qed.

Lemma AND_loop_forallb : forall fns x, AND_loop fns x = forallb (fun f => f x) fns.
Proof.
  induction fns as [|f fns IH]; intros x; simpl; [reflexivity|].
  rewrite IH. now destruct (f x).
Qed.

Lemma forallb_Permutation : forall {A} (p : A -> bool) l l',
    Permutation l l' -> forallb p l = forallb p l'.
Proof.
  induction 1; simpl; try congruence.
  now rewrite !andb_assoc, (andb_comm (p y) (p x)).
Qed.

(** The reverse walk of [AND] is the conjunction, in any order. *)
Lemma AND_forallb : forall fns fns' x,
    Permutation fns fns' -> AND fns x = forallb (fun f => f x) fns'.
Proof.
  intros fns fns' x H. unfold AND. rewrite AND_loop_forallb.
  apply forallb_Permutation.
  eapply Permutation_trans; [apply Permutation_sym, Permutation_rev|exact H].
Qed.

End SelectorFacts.

(* ================================================================== *)
(** * Properties of the class test *)
(* ================================================================== *)

Module ClassFacts.
Import Utils ShallowTraversal Notions.

Lemma indexOf_from_occurs : forall s t i,
    (0 <= i)%Z -> Z.gtb (indexOf_from s t i) (-1) = occurs t s.
Proof.
  induction s as [|c s IH]; intros t i Hi.
  - cbn [indexOf_from occurs]. destruct (prefix t ""); cbn [orb]; [|reflexivity].
    apply Z.gtb_lt. lia.
  - cbn [indexOf_from occurs]. destruct (prefix t (String c s)); cbn [orb].
    + apply Z.gtb_lt. lia.
    + apply IH. lia.
Qed.


Lemma tokens_not_nil : forall s, tokens s <> [].
Proof.
  induction s as [|c s IH]; simpl; [discriminate|].
  destruct (Ascii.eqb c " "); [discriminate|].
  destruct (tokens s); discriminate.
Qed.

Lemma ascii_dec_eqb : forall a b (T : Type) (x y : T),
    (if ascii_dec a b then x else y) = (if Ascii.eqb a b then x else y).
Proof.
  intros a b T x y. destruct (ascii_dec a b) as [->|Hne].
  - now rewrite Ascii.eqb_refl.
  - apply Ascii.eqb_neq in Hne. now rewrite Hne.
Qed.

(** [c] followed by a space starts [s] followed by a space exactly when
    [c] is the first token of [s]. *)
Lemma prefix_empty : forall s, prefix "" s = true.
Proof. destruct s; reflexivity. Qed.

Lemma prefix_first_token : forall s c,
    has_space c = false ->
    prefix (c ++ " ") (s ++ " ") = String.eqb (hd "" (tokens s)) c.
Proof.
  induction s as [|a s IH]; intros c Hc.
  - destruct c as [|ch c]; [reflexivity|].
    simpl in Hc. apply orb_false_iff in Hc. destruct Hc as [Hch _].
    simpl. rewrite ascii_dec_eqb, Ascii.eqb_sym, Hch. reflexivity.
  - cbn [tokens append]. destruct (Ascii.eqb a " ") eqn:Ha.
    + apply Ascii.eqb_eq in Ha. subst a.
      destruct c as [|ch c].
      * cbn [append prefix hd]. rewrite ascii_dec_eqb, prefix_empty. reflexivity.
      * simpl in Hc. apply orb_false_iff in Hc. destruct Hc as [Hch _].
        cbn [append prefix hd]. rewrite ascii_dec_eqb, Ascii.eqb_sym, Hch.
        reflexivity.
    + destruct c as [|ch c].
      * cbn [append prefix]. rewrite ascii_dec_eqb, Ascii.eqb_sym, Ha.
        destruct (tokens s); reflexivity.
      * simpl in Hc. apply orb_false_iff in Hc. destruct Hc as [_ Hc].
        cbn [append prefix]. rewrite ascii_dec_eqb, (IH c Hc).
        pose proof (tokens_not_nil s) as Hne.
        destruct (tokens s) as [|t ts]; [contradiction|].
        simpl. rewrite Ascii.eqb_sym. reflexivity.
Qed.

(** [" c "] occurs in [s ++ " "] exactly when [c] is a token of [s] after
    the first. *)
Lemma occurs_later_token : forall s c,
    has_space c = false ->
    occurs (String " " (c ++ " ")) (s ++ " ")
    = existsb (String.eqb c) (tl (tokens s)).
Proof.
  induction s as [|a s IH]; intros c Hc.
  - cbn [append occurs prefix]. rewrite ascii_dec_eqb. destruct c; reflexivity.
  - cbn [append occurs tokens prefix]. rewrite ascii_dec_eqb, Ascii.eqb_sym.
    pose proof (tokens_not_nil s) as Hne.
    destruct (Ascii.eqb a " ") eqn:Ha.
    + rewrite (prefix_first_token s c Hc), (IH c Hc). cbn [tl].
      destruct (tokens s) as [|t ts]; [contradiction|].
      simpl. now rewrite String.eqb_sym.
    + rewrite (IH c Hc). simpl.
      destruct (tokens s) as [|t ts]; [contradiction|reflexivity].
Qed.

Lemma occurs_token : forall s c,
    has_space c = false ->
    occurs (" " ++ c ++ " ") (" " ++ s ++ " ") = existsb (String.eqb c) (tokens s).
Proof.
  intros s c Hc. cbn [append occurs prefix].
  rewrite ascii_dec_eqb. cbn [Ascii.eqb Bool.eqb].
  rewrite (prefix_first_token s c Hc), (occurs_later_token s c Hc).
  pose proof (tokens_not_nil s) as Hne.
  destruct (tokens s) as [|t ts]; [contradiction|].
  simpl. now rewrite String.eqb_sym.
Qed.

(** The mounted test reads the class string of the DOM node in the same
    way. *)
Lemma instHasClassName_token :
  forall (inst : Type) (isDOMComponent : inst -> bool) (dom_className : inst -> value)
         (i : inst) (c : string),
    isDOMComponent i = true ->
    has_space c = false ->
    MountedTraversal.instHasClassName isDOMComponent dom_className i c
    = existsb (String.eqb c)
        (tokens (to_string (if truthy (dom_className i) then dom_className i
                            else VStr ""))).
Proof.
  intros inst isDOMComponent dom_className i c Hdom Hc.
  unfold MountedTraversal.instHasClassName, indexOf. rewrite Hdom. cbn [negb].
  rewrite indexOf_from_occurs by lia. now apply occurs_token.
Qed.

End ClassFacts.

(* ================================================================== *)
(** * Properties of the wrapper *)
(* ================================================================== *)

Module WrapperFacts.
Import Utils ShallowTraversal ShallowWrapper Notions TraversalFacts.

Lemma unique_fold : forall l, unique l = fold_left unique_step l [].
Proof. reflexivity. Qed.

Lemma distinct_app_contains : forall acc v l,
    distinct (acc ++ v :: l) = true -> contains acc v = false.
Proof.
  induction acc as [|x acc IH]; intros v l H; [reflexivity|].
  simpl in H. apply andb_true_iff in H. destruct H as [Hx H].
  simpl. rewrite (IH v l H), orb_false_r.
  apply negb_true_iff in Hx. rewrite existsb_app in Hx.
  apply orb_false_iff in Hx. destruct Hx as [_ Hx]. simpl in Hx.
  now apply orb_false_iff in Hx.
Qed.

Lemma unique_step_distinct : forall l acc,
    distinct (acc ++ l) = true -> fold_left unique_step l acc = acc ++ l.
Proof.
  induction l as [|v l IH]; intros acc H; simpl.
  - now rewrite app_nil_r.
  - unfold unique_step at 2. rewrite (distinct_app_contains acc v l H).
    rewrite IH; rewrite <- app_assoc; [reflexivity|exact H].
Qed.

(** [unique] leaves a list without repetition as it is. *)
Lemma unique_distinct : forall l, distinct l = true -> unique l = l.
Proof. intros l H. rewrite unique_fold. now apply unique_step_distinct. Qed.

Lemma unique_step_prefix : forall l acc,
    exists r, fold_left unique_step l acc = acc ++ r.
Proof.
  induction l as [|v l IH]; intros acc; simpl.
  - exists []. now rewrite app_nil_r.
  - unfold unique_step at 2. destruct (contains acc v).
    + apply IH.
    + destruct (IH (acc ++ [v])) as [r Hr]. exists (v :: r).
      now rewrite Hr, <- app_assoc.
Qed.

(** [unique] keeps the first value first. *)
Lemma unique_head : forall x l, exists r, unique (x :: l) = x :: r.
Proof.
  intros x l. rewrite unique_fold. simpl. unfold unique_step at 2. simpl.
  apply (unique_step_prefix l [x]).
Qed.

Lemma compact_partition : forall (p : value -> bool) l,
    List.length (compact (List.filter p l))
    + List.length (compact (List.filter (fun n => negb (p n)) l))
    = List.length (compact l).
Proof.
  intros p l. unfold compact. induction l as [|x l IH]; simpl; [reflexivity|].
  destruct (p x); simpl; destruct (truthy x); simpl; lia.
Qed.

Lemma compact_all_truthy : forall l, forallb truthy l = true -> compact l = l.
Proof.
  unfold compact. induction l as [|x l IH]; simpl; [reflexivity|].
  intros H. apply andb_true_iff in H. destruct H as [-> H]. now rewrite IH.
Qed.

Lemma new_child_ok : forall {R} (root : Root R) v, wrapper_ok root (new_child v).
Proof. intros R root v. destruct v; split; reflexivity. Qed.

Lemma new_root_ok : forall {R} (c : R) render out el,
    wrapper_ok (new_root c render out el) RootWrapper.
Proof. intros. split; reflexivity. Qed.

End WrapperFacts.

(* ================================================================== *)
(** * The properties of the specification *)
(* ================================================================== *)

Import Utils ShallowTraversal ShallowWrapper Notions.
Import TraversalFacts EqualityFacts SelectorFacts ClassFacts WrapperFacts.

(** ** Ancestor paths *)

Lemma sibling_not_ancestor : ~ Reach Examples.sibling Examples.target.
Proof.
  intros H.
  apply (Reach_Preorder (treeFilter_all_preorder Examples.sibling)) in H.
  vm_compute in H. destruct H as [H|[H|[]]]; discriminate.
Qed.

(** C1.  [pathToNode] does not return exactly the ancestors of the target:
    a sibling of the target that has children and is rendered after it is
    visited before it and stays on the path.  In
    [<div><span/><div className="foo"><i/></div></div>] the path to the
    [span] holds the root and then the inner [div], which is a child of the
    root next to the [span] and does not contain it. *)
Theorem pathToNode_keeps_visited_sibling :
  pathToNode Examples.target Examples.tree = Some [Examples.tree; Examples.sibling]
  /\ In Examples.target (childrenOfNode Examples.tree)
  /\ In Examples.sibling (childrenOfNode Examples.tree)
  /\ ~ Reach Examples.sibling Examples.target.
Proof.
  split; [reflexivity|]. split; [now left|]. split; [right; now left|].
  exact sibling_not_ancestor.
Qed.

(** ** closest *)

(** When the node of a single-node wrapper matches, [closest] returns the
    wrapper itself. *)
Lemma closest_self : forall R (root : Root R) this selector,
    is_ root this selector = Ok true -> closest root this selector = Ok this.
Proof. intros R root this selector H. unfold closest. now rewrite H. Qed.

(** C4.  [closest] does not always return an ancestor: it takes the first
    match of [parents()], which [pathToNode] fills with visited siblings.
    In [<div><span/><div className="foo"><i/></div></div>] the [span] does
    not match [.foo] and has no ancestor that does, and [closest('.foo')]
    returns a wrapper around the inner [div], which does not contain the
    [span]. *)
Theorem closest_returns_visited_sibling :
  is_ (Examples.dom_root Examples.tree) (new_child Examples.target) (VStr ".foo")
  = Ok false
  /\ closest (Examples.dom_root Examples.tree) (new_child Examples.target)
       (VStr ".foo")
     = Ok (new_child Examples.sibling)
  /\ ~ Reach Examples.sibling Examples.target.
Proof.
  split; [reflexivity|]. split; [reflexivity|].
  exact sibling_not_ancestor.
Qed.

(** ** filter and not *)

Lemma filterWhere_length : forall R (root : Root R) this predicate,
    length root (filterWhere root this predicate)
    = List.length (compact (List.filter predicate (nodes root this))).
Proof. reflexivity. Qed.

(** C2, as the code has it.  For every wrapper and every selector that
    compiles, the lengths of [filter(sel)] and [not(sel)] add up to the
    number of truthy nodes of the wrapper ([filterWhere] passes its result
    through [compact]); they add up to the length of the wrapper when none
    of its nodes is falsy. *)
Theorem filter_not_partition_truthy : forall R (root : Root R) this selector predicate,
    buildPredicate selector = Ok predicate ->
    exists f n,
      filter root this selector = Ok f
      /\ not_ root this selector = Ok n
      /\ length root f + length root n = List.length (compact (nodes root this))
      /\ (wrapper_ok root this ->
          forallb truthy (nodes root this) = true ->
          length root f + length root n = length root this).
Proof.
  intros R root this selector predicate Hp.
  exists (filterWhere root this predicate),
         (filterWhere root this (fun n => negb (predicate n))).
  unfold filter, not_. rewrite Hp. cbn [bind].
  split; [reflexivity|]. split; [reflexivity|].
  rewrite !filterWhere_length, compact_partition.
  split; [reflexivity|].
  intros [Hlen _] Hall. now rewrite (compact_all_truthy _ Hall), Hlen.
Qed.

Lemma filter_not_partition_truthy_witness :
  buildPredicate (VStr "span") = Ok (fun node => nodeHasType node (VStr "span"))
  /\ exists f n,
      filter (Examples.dom_root Examples.tree)
        (new_child (array (childrenOfNode Examples.tree))) (VStr "span") = Ok f
      /\ not_ (Examples.dom_root Examples.tree)
           (new_child (array (childrenOfNode Examples.tree))) (VStr "span") = Ok n
      /\ length (Examples.dom_root Examples.tree) f
         + length (Examples.dom_root Examples.tree) n = 2.
Proof.
  split; [reflexivity|].
  destruct (filter_not_partition_truthy (Examples.dom_root Examples.tree)
              (new_child (array (childrenOfNode Examples.tree)))
              (VStr "span")
              (predicate := fun node => nodeHasType node (VStr "span")) eq_refl)
    as [f [n [Hf [Hn [Hsum _]]]]].
  exists f, n. repeat split; assumption.
Defined.

(** C2 fails as stated: the children of [<div>{0}<span/></div>] are [0] and
    the [span]; [filter('span')] keeps the [span], [not('span')] selects
    [0] and [compact] drops it. *)
Lemma filter_not_complement_fails :
  exists C f n,
    children (Examples.dom_root Examples.counter) RootWrapper VUndefined = Ok C
    /\ filter (Examples.dom_root Examples.counter) C (VStr "span") = Ok f
    /\ not_ (Examples.dom_root Examples.counter) C (VStr "span") = Ok n
    /\ nodes (Examples.dom_root Examples.counter) C
       = [VNum 0; VElem 2 (VStr "span") []]
    /\ length (Examples.dom_root Examples.counter) f
       + length (Examples.dom_root Examples.counter) n
       <> length (Examples.dom_root Examples.counter) C.
Proof.
  eexists. eexists. eexists.
  split; [reflexivity|]. split; [reflexivity|]. split; [reflexivity|].
  split; [reflexivity|]. vm_compute. discriminate.
Qed.

(** ** Selectors *)

(** C3, as the code has it.  For every string selector, [buildPredicate]
    throws the TypeError of [selectorError], whose message quotes the
    selector, when the selector contains [~], white space, [:] or [>], and
    returns a predicate when it contains none of them; an attribute-bracket
    selector free of these characters is among the latter. *)
Theorem buildPredicate_throws_iff_complex : forall selector,
    if string_exists is_complex_char selector
    then buildPredicate (VStr selector) = Throw (selectorError selector)
    else exists predicate, buildPredicate (VStr selector) = Ok predicate.
Proof.
  intros selector.
  destruct (string_exists is_complex_char selector) eqn:H.
  - apply buildPredicate_complex. unfold isSimpleSelector. now rewrite H.
  - apply buildPredicate_simple. unfold isSimpleSelector. now rewrite H.
Qed.

(** C3 fails as stated: ['[attr]'] is an attribute-bracket selector
    ([selectorType] says so) and [buildPredicate] does not throw on it; it
    returns the predicate that compares the node's type with ['[attr]']. *)
Lemma bracket_selector_compiles :
  selectorType "[attr]" = Some PROP_TYPE
  /\ buildPredicate (VStr "[attr]")
     = Ok (fun node => nodeHasType node (VStr "[attr]"))
  /\ (forall e, buildPredicate (VStr "[attr]") <> Throw e).
Proof.
  split; [reflexivity|]. split; [reflexivity|]. intros e. discriminate.
Qed.

(** C8.  For every compound simple selector, [buildPredicate] returns a
    predicate, each piece of [splitSelector] compiles on its own, and on
    every node the predicate holds exactly when the predicate of every
    piece holds: the walk of [AND] from the last piece to the first gives
    the conjunction of the pieces taken in any order. *)
Theorem compound_selector_conjunction : forall selector,
    isSimpleSelector selector = true ->
    isCompoundSelector selector = true ->
    exists predicate fns,
      buildPredicate (VStr selector) = Ok predicate
      /\ mapM (fun f => buildPredicate (VStr f)) (splitSelector selector) = Ok fns
      /\ forall node,
          (predicate node = true <-> Forall (fun f => f node = true) fns)
          /\ forall fns', Permutation fns fns' ->
                          predicate node = forallb (fun f => f node) fns'.
Proof.
  intros selector Hsimple Hcompound.
  assert (exists fns, mapM (fun f => buildPredicate (VStr f))
                        (splitSelector selector) = Ok fns) as [fns Hfns].
  { apply mapM_ok. eapply Forall_impl; [|apply splitSelector_simple, Hsimple].
    intros f Hf. now apply buildPredicate_simple. }
  exists (AND fns), fns.
  rewrite (buildPredicate_compound selector Hsimple Hcompound), Hfns.
  split; [reflexivity|]. split; [reflexivity|].
  intros node. split.
  - rewrite (AND_forallb node (Permutation_refl fns)), forallb_forall, Forall_forall.
    reflexivity.
  - intros fns' Hperm. now apply AND_forallb.
Qed.

Lemma compound_selector_conjunction_witness :
  isSimpleSelector "div.foo" = true
  /\ isCompoundSelector "div.foo" = true
  /\ exists predicate fns,
      buildPredicate (VStr "div.foo") = Ok predicate
      /\ mapM (fun f => buildPredicate (VStr f)) (splitSelector "div.foo") = Ok fns
      /\ forall node,
          (predicate node = true <-> Forall (fun f => f node = true) fns)
          /\ forall fns', Permutation fns fns' ->
                          predicate node = forallb (fun f => f node) fns'.
Proof.
  split; [reflexivity|]. split; [reflexivity|].
  exact (compound_selector_conjunction "div.foo" eq_refl eq_refl).
Defined.

(** ** Class names *)





(** ['foo'] does not match a [className] of ['foobar'], and the test is
    case sensitive. *)
Lemma hasClassName_foobar :
  hasClassName (VElem 1 (VStr "div") [("className", VStr "foobar")]) "foo" = false
  /\ hasClassName (VElem 1 (VStr "div") [("className", VStr "bar Foo")]) "foo" = false
  /\ hasClassName (VElem 1 (VStr "div") [("className", VStr "bar foo")]) "foo" = true.
Proof. repeat split; reflexivity. Qed.

(** ** Structural equality *)

Lemma strict_eq_refl : forall v, strict_eq v v = true.
Proof.
  destruct v; simpl; auto using Nat.eqb_refl, Z.eqb_refl, String.eqb_refl.
  now destruct b.
Qed.

(** [nodeEqual(n, n)] is true for every value: the first test is [a === b]. *)
Lemma nodeEqual_refl : forall isEqual n, nodeEqual isEqual n n = Ok true.
Proof.
  intros isEqual n. destruct n; cbn [nodeEqual]; now rewrite strict_eq_refl.
Qed.

(** C5.  [nodeEqual] is not symmetric on every pair of nodes.  With
    [a = <div>{null}</div>] and [b = <div id="y">{[<span/>]}</div>],
    [nodeEqual(a, b)] reaches [childrenEqual(null, [<span/>])], which reads
    [a.length] on [null] and throws, while [nodeEqual(b, a)] stops at the
    key [id], which [a] lacks, and returns false. *)
Theorem nodeEqual_throws_one_way : forall isEqual,
    nodeEqual isEqual Examples.hollow Examples.listed = Throw (cannot_read "length")
    /\ nodeEqual isEqual Examples.listed Examples.hollow = Ok false
    /\ childrenEqual isEqual VNull (VArr 3 [VElem 4 (VStr "span") []])
       = Throw (cannot_read "length").
Proof. intros isEqual. repeat split; reflexivity. Qed.

(** ** findWhere *)

Lemma findWhere_root : forall R (root : Root R) predicate,
    root_nodes root = [root_node root] ->
    isArray (root_node root) = false ->
    findWhere root RootWrapper predicate
    = Ok (new_child (array (unique (treeFilter (root_node root) predicate)))).
Proof.
  intros R root predicate Hnodes Harr.
  unfold findWhere, flatMap. cbn [nodes]. rewrite Hnodes. cbn [mapM combine seq List.length fst snd bind wrap].
  replace (node root (new_child (root_node root))) with (root_node root)
    by (destruct (root_node root); try reflexivity; discriminate).
  cbn [flatten_shallow flat_map array]. now rewrite app_nil_r.
Qed.

(** C6, as the code has it.  On the root wrapper of a rendered tree,
    [findWhere(() => true)] returns the pre-order list of the nodes of the
    tree, the root first, text and number leaves included, without the
    values that repeat an earlier one under [===] ([flatMap] passes its
    result through [unique]).  When the [n] nodes of the tree are pairwise
    different under [===] the collection is this list and has length [n]. *)
Theorem findWhere_true_unique_preorder : forall R (root : Root R),
    root_nodes root = [root_node root] ->
    isArray (root_node root) = false ->
    exists l found,
      Preorder (root_node root) l
      /\ findWhere root RootWrapper (fun _ => true) = Ok found
      /\ nodes root found = unique l
      /\ length root found = List.length (unique l)
      /\ node root found = root_node root
      /\ (distinct l = true ->
          nodes root found = l /\ length root found = List.length l).
Proof.
  intros R root Hnodes Harr.
  exists (treeFilter (root_node root) (fun _ => true)).
  exists (new_child (array (unique (treeFilter (root_node root) (fun _ => true))))).
  pose proof (treeFilter_all_preorder (root_node root)) as Hpre.
  split; [exact Hpre|]. split; [now apply findWhere_root|].
  cbn [array new_child nodes length node].
  split; [reflexivity|]. split; [reflexivity|]. split.
  - inversion Hpre as [t ls Hls Heq]. destruct (unique_head (root_node root) (List.concat ls))
      as [r Hr]. now rewrite Hr.
  - intros Hd. now rewrite (unique_distinct _ Hd).
Qed.

Lemma findWhere_true_unique_preorder_witness :
  root_nodes (Examples.dom_root Examples.tree) = [root_node (Examples.dom_root Examples.tree)]
  /\ isArray (root_node (Examples.dom_root Examples.tree)) = false
  /\ exists l found,
      Preorder (root_node (Examples.dom_root Examples.tree)) l
      /\ findWhere (Examples.dom_root Examples.tree) RootWrapper (fun _ => true) = Ok found
      /\ nodes (Examples.dom_root Examples.tree) found = unique l
      /\ length (Examples.dom_root Examples.tree) found = List.length (unique l)
      /\ node (Examples.dom_root Examples.tree) found
         = root_node (Examples.dom_root Examples.tree)
      /\ (distinct l = true ->
          nodes (Examples.dom_root Examples.tree) found = l
          /\ length (Examples.dom_root Examples.tree) found = List.length l).
Proof.
  split; [reflexivity|]. split; [reflexivity|].
  exact (findWhere_true_unique_preorder (Examples.dom_root Examples.tree)
           eq_refl eq_refl).
Defined.

(** C6 fails as stated: [<ul><li>x</li><li>x</li></ul>] has five nodes in
    pre-order (the [ul], each [li] and the text of each) and
    [findWhere(() => true)] returns four, the second ['x'] being [===] to
    the first. *)
Lemma findWhere_true_drops_repeated_text :
  exists l found,
    Preorder Examples.items l
    /\ List.length l = 5
    /\ findWhere (Examples.dom_root Examples.items) RootWrapper (fun _ => true)
       = Ok found
    /\ length (Examples.dom_root Examples.items) found = 4.
Proof.
  exists (treeFilter Examples.items (fun _ => true)). eexists.
  split; [apply treeFilter_all_preorder|].
  split; [reflexivity|]. split; reflexivity.
Qed.

(** ** Operations reserved to the root *)

(** C9.  On every wrapper that is not the root, [setProps], [setState] and
    [state] throw before doing anything else: the root, which holds the only
    snapshot the class writes to, is left as it was, and so are the nodes of
    the wrapper. *)
Theorem root_only_operations_throw :
  forall R (render : R -> value -> R) (getRenderOutput : R -> value)
         (instance_setState : R -> value -> R) (instance_state : R -> value)
         (cloneElement member : value -> value -> value)
         (root : Root R) (this : Wrapper) (arg : value),
    isRoot this = false ->
    setProps render getRenderOutput cloneElement root this arg
    = (Throw (Error "ShallowWrapper::setProps() can only be called on the root"), root)
    /\ setState getRenderOutput instance_setState root this arg
       = (Throw (Error "ShallowWrapper::setState() can only be called on the root"), root)
    /\ state instance_state member root this arg
       = (Throw (Error "ShallowWrapper::state() can only be called on the root"), root)
    /\ nodes (snd (setProps render getRenderOutput cloneElement root this arg)) this
       = nodes root this
    /\ nodes (snd (setState getRenderOutput instance_setState root this arg)) this
       = nodes root this
    /\ nodes (snd (state instance_state member root this arg)) this
       = nodes root this.
Proof.
  intros R render getRenderOutput instance_setState instance_state cloneElement
    member root this arg Hroot.
  unfold setProps, setState, state. rewrite Hroot. cbn [negb snd].
  repeat split; reflexivity.
Qed.

Lemma root_only_operations_throw_witness :
  isRoot (new_child Examples.target) = false
  /\ setState (fun r : value => r) (fun (_ : value) st => st)
       (Examples.dom_root Examples.tree) (new_child Examples.target) VNull
     = (Throw (Error "ShallowWrapper::setState() can only be called on the root"),
        Examples.dom_root Examples.tree).
Proof.
  split; [reflexivity|].
  exact (proj1 (proj2 (root_only_operations_throw
                         (fun (_ : value) el => el) (fun r => r)
                         (fun (_ : value) st => st) (fun r => r)
                         (fun el _ => el) (fun _ _ => VUndefined)
                         (Examples.dom_root Examples.tree)
                         (new_child Examples.target) VNull eq_refl))).
Defined.

(** ** Positions *)

Lemma nth_Z_out_of_range : forall l index,
    (index < 0 \/ Z.of_nat (List.length l) <= index)%Z -> nth_Z l index = VUndefined.
Proof.
  intros l index H. unfold nth_Z. destruct (Z.ltb_spec index 0); [reflexivity|].
  apply nth_overflow. lia.
Qed.

(** [get] outside the nodes wraps [undefined]. *)
Lemma get_out_of_range : forall R (root : Root R) this index,
    (index < 0 \/ Z.of_nat (List.length (nodes root this)) <= index)%Z ->
    get root this index = ChildWrapper VUndefined [VUndefined] 1.
Proof.
  intros R root this index H. unfold get. now rewrite nth_Z_out_of_range.
Qed.

(** C10.  On every wrapper, [get(i)] for an index outside the nodes
    returns a new wrapper of length 1 whose only node is [undefined]:
    [nodes[i]] is [undefined] and the constructor makes a one-node list of
    an argument that is not an array.  On an empty wrapper this is what
    [first()], [last()] and every [get(i)] return; no error is raised and
    the result is not empty. *)
Theorem empty_wrapper_positions : forall R (root : Root R) this,
    wrapper_ok root this ->
    (forall index,
        (index < 0 \/ Z.of_nat (length root this) <= index)%Z ->
        get root this index = ChildWrapper VUndefined [VUndefined] 1)
    /\ (length root this = 0 ->
        first root this = ChildWrapper VUndefined [VUndefined] 1
        /\ last root this = ChildWrapper VUndefined [VUndefined] 1
        /\ (forall index, get root this index = ChildWrapper VUndefined [VUndefined] 1)
        /\ length root (first root this) = 1
        /\ isEmpty root (last root this) = false).
Proof.
  intros R root this [Hlen _]. split.
  - intros index H. apply get_out_of_range. now rewrite <- Hlen.
  - intros Hzero.
    assert (Hget : forall index,
               get root this index = ChildWrapper VUndefined [VUndefined] 1).
    { intros index. apply get_out_of_range. rewrite <- Hlen, Hzero. simpl. lia. }
    unfold first, last. rewrite !Hget. repeat split; auto.
Qed.

Lemma empty_wrapper_positions_witness :
  wrapper_ok (Examples.dom_root Examples.tree) (new_child (array []))
  /\ length (Examples.dom_root Examples.tree) (new_child (array [])) = 0
  /\ first (Examples.dom_root Examples.tree) (new_child (array []))
     = ChildWrapper VUndefined [VUndefined] 1
  /\ last (Examples.dom_root Examples.tree) (new_child (array []))
     = ChildWrapper VUndefined [VUndefined] 1.
Proof.
  split; [split; reflexivity|]. split; [reflexivity|].
  pose proof (proj2 (empty_wrapper_positions
                       (root := Examples.dom_root Examples.tree)
                       (this := new_child (array []))
                       (conj eq_refl eq_refl)) eq_refl) as H.
  split; [exact (proj1 H)|exact (proj1 (proj2 H))].
Defined.
(* ================================================================== *)
(** * More on the traversals *)
(* ================================================================== *)

Module TraversalMore.
Import Utils ShallowTraversal ShallowWrapper Notions TraversalRest MoreNotions.
Import TraversalFacts.

Lemma Chain_Reach : forall t x l, Chain t x l -> Reach t x.
Proof.
  induction 1 as [t|t c x l Hc Hchain IH]; [constructor|].
  now apply Reach_child with c.
Qed.

Lemma Chain_extend : forall t x l c,
    Chain t x l -> In c (childrenOfNode x) -> Chain t c (l ++ [x]).
Proof.
  induction 1 as [t|t c' x l Hc' Hchain IH]; intros Hc; simpl.
  - apply Chain_child with c; [assumption|constructor].
  - apply Chain_child with c'; auto.
Qed.

Lemma Subseq_refl : forall l, Subseq l l.
Proof. induction l; [constructor|now apply Subseq_keep]. Qed.

Lemma Subseq_snoc_skip : forall l l' x, Subseq l l' -> Subseq l (l' ++ [x]).
Proof.
  induction 1; simpl; try (constructor; assumption).
  apply Subseq_skip. constructor.
Qed.

Lemma Subseq_snoc_keep : forall l l' x, Subseq l l' -> Subseq (l ++ [x]) (l' ++ [x]).
Proof.
  induction 1; simpl; try (constructor; assumption).
  apply Subseq_keep. constructor.
Qed.

(** The loop of [pathToNode] finds a target that is below a node of the
    queue. *)
Lemma pathToNode_loop_finds : forall fuel node queue path,
    list_sum (map vsize queue) < fuel ->
    (exists q x, In q queue /\ Reach q x /\ strict_eq x node = true) ->
    exists p, pathToNode_loop fuel node queue path = Return (Some p).
Proof.
  induction fuel as [|fuel IH]; intros node queue path Hfuel Hex; [lia|].
  destruct Hex as [q [x [Hq [Hr Hx]]]].
  simpl. destruct (pop queue) as [[current rest]|] eqn:Hpop.
  - apply pop_spec in Hpop. subst queue.
    destruct (strict_eq current node) eqn:Heq; [now eexists|].
    apply IH.
    + rewrite map_app, list_sum_app in *. simpl in Hfuel.
      pose proof (vsize_childrenOfNode current). lia.
    + apply in_app_or in Hq. destruct Hq as [Hq|[<-|[]]].
      * exists q, x. repeat split; auto. apply in_or_app. now left.
      * inversion Hr as [|t c y Hc Hr']; subst.
        -- rewrite Hx in Heq. discriminate.
        -- exists c, x. repeat split; auto. apply in_or_app. now right.
  - unfold pop in Hpop. destruct (rev queue) eqn:E; [|discriminate].
    apply (f_equal (@rev value)) in E. rewrite rev_involutive in E. subst queue.
    contradiction.
Qed.

Lemma removelast_snoc : forall (l : list value) x, removelast (l ++ [x]) = l.
Proof. intros. apply removelast_last. Qed.

Lemma pathToNode_loop_invariant : forall fuel root node queue path p,
    path_invariant root node queue path ->
    pathToNode_loop fuel node queue path = Return (Some p) ->
    exists x l, strict_eq x node = true /\ Chain root x l /\ Subseq l p
                /\ Forall (fun y => Reach root y /\ childrenOfNode y <> []
                                    /\ strict_eq y node = false) p.
Proof.
  induction fuel as [|fuel IH]; intros root node queue path p [Hq Hp] H;
    [discriminate|].
  simpl in H. destruct (pop queue) as [[current rest]|] eqn:Hpop; [|discriminate].
  apply pop_spec in Hpop. subst queue.
  destruct (Hq current) as [lc [Hchain Hsub]]; [apply in_or_app; right; now left|].
  destruct (strict_eq current node) eqn:Heq.
  - injection H as <-. now exists current, lc.
  - apply IH with (root := root) in H; [assumption|].
    destruct (childrenOfNode current) as [|c kids] eqn:Hkids.
    + simpl. rewrite removelast_snoc, app_nil_r. split; [|assumption].
      intros q Hin. apply Hq. apply in_or_app. now left.
    + cbn [List.length Nat.eqb]. split.
      * intros q Hin. apply in_app_or in Hin. destruct Hin as [Hin|Hin].
        -- destruct (Hq q) as [l [Hl Hs]]; [apply in_or_app; now left|].
           exists l. split; [assumption|now apply Subseq_snoc_skip].
        -- exists (lc ++ [current]). split.
           ++ apply Chain_extend; [assumption|now rewrite Hkids].
           ++ now apply Subseq_snoc_keep.
      * apply Forall_app. split; [assumption|]. constructor; [|constructor].
        repeat split; [now apply Chain_Reach with lc|now rewrite Hkids|assumption].
Qed.

Lemma filterR_app : forall fn l l',
    filterR fn (l ++ l')
    = (a <- filterR fn l ;; b <- filterR fn l' ;; Ok (a ++ b)).
Proof.
  induction l as [|x l IH]; intros l'; simpl.
  - destruct (filterR fn l'); reflexivity.
  - destruct (fn x) as [keep|e]; [|reflexivity]. cbn [bind]. rewrite IH.
    destruct (filterR fn l) as [a|e]; [|reflexivity]. cbn [bind].
    destruct (filterR fn l') as [b|e]; [|reflexivity]. cbn [bind].
    now destruct keep.
Qed.

Lemma treeForEachR_fuel_preorder : forall fuel t,
    vsize t <= fuel ->
    forall l, Preorder t l ->
    forall fn results,
      treeForEachR_fuel fuel t (push_ifR fn) results
      = (found <- filterR fn l ;; Ok (results ++ found)).
Proof.
  induction fuel as [|fuel IH]; intros t Hsize l Hl fn results.
  - pose proof (vsize_pos t). lia.
  - inversion Hl as [t' ls Hls]; subst.
    assert (Hkids : forall c, In c (childrenOfNode t) -> vsize c <= fuel).
    { intros c Hc. apply vsize_child in Hc. lia. }
    cbn [treeForEachR_fuel filterR].
    replace (push_ifR fn t results)
      with (keep <- fn t ;; Ok (if keep then results ++ [t] else results))
      by reflexivity.
    destruct (fn t) as [keep|e]; [|reflexivity]. cbn [bind].
    assert (Hfold : forall acc,
               fold_leftR (fun acc node => treeForEachR_fuel fuel node (push_ifR fn) acc)
                 (childrenOfNode t) acc
               = (found <- filterR fn (List.concat ls) ;; Ok (acc ++ found))).
    { clear Hl. induction Hls as [|c lc kids ls' Hc Hrest IHrest]; intros acc.
      - simpl. now rewrite app_nil_r.
      - cbn [fold_leftR List.concat].
        rewrite (IH c (Hkids c (or_introl eq_refl)) lc Hc).
        rewrite filterR_app.
        destruct (filterR fn lc) as [a|e]; [|reflexivity]. cbn [bind].
        rewrite IHrest by (intros; apply Hkids; now right).
        destruct (filterR fn (List.concat ls')) as [b|e]; [|reflexivity].
        cbn [bind]. now rewrite app_assoc. }
    rewrite Hfold.
    destruct (filterR fn (List.concat ls)) as [found|e]; [|reflexivity].
    cbn [bind]. destruct keep; [|reflexivity].
    now rewrite <- app_assoc.
Qed.

Lemma treeFilterR_filterR : forall t fn,
    treeFilterR t fn = filterR fn (treeFilter t (fun _ => true)).
Proof.
  intros t fn. unfold treeFilterR, treeForEachR.
  change (fun node results =>
            keep <- fn node ;; Ok (if keep then results ++ [node] else results))
    with (push_ifR fn).
  rewrite (@treeForEachR_fuel_preorder (vsize t) t (le_n _) _
             (treeFilter_all_preorder t)).
  now destruct (filterR fn (treeFilter t (fun _ => true))).
Qed.

Lemma treeFilter_In : forall t fn x,
    In x (treeFilter t fn) <-> Reach t x /\ fn x = true.
Proof.
  intros t fn x. pose proof (treeFilter_all_preorder t) as Hpre.
  rewrite treeFilter_filter, filter_In. split.
  - intros [Hin Hfn]. split; [|assumption]. now apply (Preorder_Reach Hpre).
  - intros [Hr Hfn]. split; [|assumption]. now apply (Reach_Preorder Hpre).
Qed.

Lemma filterR_throws : forall fn l x e,
    In x l -> fn x = Throw e -> exists e', filterR fn l = Throw e'.
Proof.
  induction l as [|y l IH]; intros x e Hin Hx; [contradiction|].
  cbn [filterR]. destruct Hin as [->|Hin].
  - rewrite Hx. now eexists.
  - destruct (fn y) as [keep|e0]; [|now eexists]. cbn [bind].
    destruct (IH x e Hin Hx) as [e' ->]. now eexists.
Qed.

End TraversalMore.

(* ================================================================== *)
(** * Properties of the text *)
(* ================================================================== *)

Module TextFacts.
Import Utils ShallowTraversal Notions TraversalRest MoreNotions.
Import TraversalFacts SelectorFacts.

Lemma append_empty_r : forall s : string, (s ++ "")%string = s.
Proof. induction s; simpl; congruence. Qed.

Lemma append_assoc : forall a b c : string,
    ((a ++ b) ++ c)%string = (a ++ b ++ c)%string.
Proof. induction a; simpl; intros; congruence. Qed.

Lemma concat_cons : forall x xs,
    String.concat "" (x :: xs) = (x ++ String.concat "" xs)%string.
Proof.
  intros x xs. destruct xs; simpl; [now rewrite append_empty_r|reflexivity].
Qed.

Lemma concat_app : forall l l',
    String.concat "" (l ++ l')
    = (String.concat "" l ++ String.concat "" l')%string.
Proof.
  induction l as [|x l IH]; intros l'; [reflexivity|].
  rewrite <- app_comm_cons, !concat_cons, IH. now rewrite append_assoc.
Qed.

Lemma concat_concat : forall (f : value -> string) ls,
    String.concat "" (map (fun l => String.concat "" (map f l)) ls)
    = String.concat "" (map f (List.concat ls)).
Proof.
  induction ls as [|l ls IH]; [reflexivity|].
  cbn [map List.concat]. now rewrite concat_cons, map_app, concat_app, IH.
Qed.

Lemma replace_spaces_none : forall s,
    string_exists is_space s = false -> replace_spaces s = s.
Proof.
  induction s as [|c s IH]; [reflexivity|]. simpl. intros H.
  apply orb_false_iff in H. destruct H as [Hc Hs]. now rewrite Hc, IH.
Qed.

Lemma skip_spaces_run : forall w b,
    string_exists (fun c => negb (is_space c)) w = false ->
    starts_with is_space b = false ->
    skip_spaces (w ++ b) = b.
Proof.
  induction w as [|c w IH]; intros b Hw Hb; simpl.
  - destruct b as [|d b]; [reflexivity|]. simpl in *. now rewrite Hb.
  - simpl in Hw. apply orb_false_iff in Hw. destruct Hw as [Hc Hw].
    apply negb_false_iff in Hc. rewrite Hc. now apply IH.
Qed.

(** [replace] touches the first run of white space and nothing after it. *)
Lemma replace_spaces_first_run : forall a c w b,
    string_exists is_space a = false ->
    is_space c = true ->
    string_exists (fun c => negb (is_space c)) w = false ->
    starts_with is_space b = false ->
    replace_spaces (a ++ String c w ++ b) = (a ++ String " " b)%string.
Proof.
  induction a as [|d a IH]; intros c w b Ha Hc Hw Hb; simpl.
  - rewrite Hc. now rewrite skip_spaces_run.
  - simpl in Ha. apply orb_false_iff in Ha. destruct Ha as [Hd Ha].
    rewrite Hd. f_equal. now apply IH.
Qed.

Lemma childrenOfNode_not_element : forall t,
    match t with VElem _ _ _ => False | _ => True end -> childrenOfNode t = [].
Proof.
  intros t H. unfold childrenOfNode, store_prop.
  destruct t; try reflexivity; try contradiction.
  - now destruct b.
  - now destruct (negb (truthy (VNum z))).
  - now destruct (negb (truthy (VStr s))).
Qed.

Lemma string_exists_concat : forall p (l : list string),
    Forall (fun s => string_exists p s = false) l ->
    string_exists p (String.concat "" l) = false.
Proof.
  induction 1 as [|s l Hs Hl IH]; [reflexivity|].
  now rewrite concat_cons, string_exists_append, Hs, IH.
Qed.

Lemma getTextFromNode_fuel_leaves : forall fuel t,
    vsize t <= fuel ->
    forall l, Preorder t l ->
    (forall x, In x l ->
               is_component x = false
               /\ string_exists is_space (leaf_text x) = false) ->
    getTextFromNode_fuel fuel t = String.concat "" (map leaf_text l).
Proof.
  induction fuel as [|fuel IH]; intros t Hsize l Hl Hall.
  - pose proof (vsize_pos t). lia.
  - inversion Hl as [t' ls Hls]; subst.
    assert (Hkids : forall c, In c (childrenOfNode t) -> vsize c <= fuel).
    { intros c Hc. apply vsize_child in Hc. lia. }
    assert (Hmap : map (getTextFromNode_fuel fuel) (childrenOfNode t)
                   = map (fun lc => String.concat "" (map leaf_text lc)) ls).
    { clear Hl. induction Hls as [|c lc kids ls' Hc Hrest IHrest]; [reflexivity|].
      cbn [map]. f_equal.
      - apply IH; [apply Hkids; now left|assumption|].
        intros x Hx. apply Hall. right. cbn [List.concat]. apply in_or_app. now left.
      - apply IHrest.
        + intros x Hx. apply Hall. destruct Hx as [<-|Hx]; [now left|].
          right. cbn [List.concat]. apply in_or_app. now right.
        + intros; apply Hkids; now right. }
    assert (Hrest : string_exists is_space
                      (String.concat "" (map leaf_text (List.concat ls))) = false).
    { apply string_exists_concat. apply Forall_forall. intros s Hs.
      apply in_map_iff in Hs. destruct Hs as [x [<- Hx]].
      apply Hall. now right. }
    destruct (Hall t (or_introl eq_refl)) as [Hcomp _].
    cbn [map]. rewrite concat_cons.
    destruct t;
      try (rewrite childrenOfNode_not_element in Hls by exact I;
           inversion Hls; subst; cbn; now rewrite ?append_empty_r);
      cbn [getTextFromNode_fuel leaf_text append];
      unfold is_component in Hcomp; rewrite Hcomp, Hmap, concat_concat;
      now apply replace_spaces_none.
Qed.

End TextFacts.

(* ================================================================== *)
(** * More on the selectors *)
(* ================================================================== *)

Module SelectorMore.
Import Utils ShallowTraversal Notions TraversalRest MoreNotions.
Import SelectorFacts TextFacts.

Lemma split_go_concat : forall s cur,
    String.concat "" (split_go cur s) = (cur ++ s)%string.
Proof.
  induction s as [|c s IH]; intros cur.
  - simpl. now rewrite append_empty_r.
  - cbn [split_go].
    destruct (split_lookahead (String c s) && negb (String.eqb cur "")).
    + now rewrite concat_cons, IH.
    + rewrite IH. now rewrite append_assoc.
Qed.

Lemma split_go_not_empty : forall s cur,
    String.eqb cur "" = false ->
    Forall (fun f => String.eqb f "" = false) (split_go cur s).
Proof.
  induction s as [|c s IH]; intros cur Hcur.
  - simpl. now constructor.
  - cbn [split_go].
    destruct (split_lookahead (String c s) && negb (String.eqb cur "")).
    + constructor; [assumption|]. now apply IH.
    + apply IH. apply append_not_empty.
Qed.

Lemma split_go_head : forall s cur,
    exists u, hd "" (split_go cur s) = (cur ++ u)%string.
Proof.
  induction s as [|c s IH]; intros cur.
  - exists "". simpl. now rewrite append_empty_r.
  - cbn [split_go].
    destruct (split_lookahead (String c s) && negb (String.eqb cur "")).
    + exists "". simpl. now rewrite append_empty_r.
    + destruct (IH (cur ++ String c "")%string) as [u Hu].
      exists (String c u). now rewrite Hu, append_assoc.
Qed.

Lemma split_go_tail : forall s cur,
    Forall (fun f => starts_with (fun c => Ascii.eqb c "." || Ascii.eqb c "[") f = true)
      (tl (split_go cur s)).
Proof.
  induction s as [|c s IH]; intros cur.
  - simpl. constructor.
  - cbn [split_go].
    destruct (split_lookahead (String c s) && negb (String.eqb cur "")) eqn:Hcut.
    + cbn [tl]. apply andb_true_iff in Hcut. destruct Hcut as [Hlook _].
      destruct (split_go_head s (String c "")) as [u Hu].
      pose proof (IH (String c "")) as Htail.
      destruct (split_go (String c "") s) as [|f rest]; [constructor|].
      simpl in Hu. subst f. constructor; [|exact Htail].
      simpl. unfold split_lookahead in Hlook.
      apply orb_true_iff in Hlook. destruct Hlook as [->|Hlook]; [reflexivity|].
      apply andb_true_iff in Hlook. destruct Hlook as [-> _]. apply orb_true_r.
    + apply IH.
Qed.

(** ** A piece is not cut again *)

Lemma closes_bracket_append : forall u s,
    closes_bracket u = true -> closes_bracket (u ++ s) = true.
Proof.
  induction u as [|c u IH]; intros s H; [discriminate|].
  simpl in *. destruct (Ascii.eqb c "]"); [reflexivity|].
  destruct (is_line_terminator c); [discriminate|]. now apply IH.
Qed.

Lemma split_lookahead_append : forall u s,
    split_lookahead u = true -> split_lookahead (u ++ s) = true.
Proof.
  intros [|c u] s H; [discriminate|]. simpl in *.
  apply orb_true_iff in H. destruct H as [->|H]; [reflexivity|].
  apply andb_true_iff in H. destruct H as [-> H].
  now rewrite (closes_bracket_append u s H), orb_true_r.
Qed.

Lemma cuts_indep : forall s cur cur',
    String.eqb cur "" = false -> String.eqb cur' "" = false ->
    cuts cur s = cuts cur' s.
Proof.
  induction s as [|c s IH]; intros cur cur' H H'; [reflexivity|].
  cbn [cuts]. rewrite H, H'. cbn [negb]. rewrite !andb_true_r.
  destruct (split_lookahead (String c s)); [reflexivity|].
  apply IH; apply append_not_empty.
Qed.

Lemma clear_tail_no_cut : forall u s cur,
    clear_tail u s = true -> String.eqb cur "" = false -> cuts cur u = false.
Proof.
  induction u as [|c u IH]; intros s cur H Hcur; [reflexivity|].
  cbn [clear_tail] in H. apply andb_true_iff in H. destruct H as [Hlook H].
  apply negb_true_iff in Hlook.
  cbn [cuts]. destruct (split_lookahead (String c u)) eqn:Hl.
  - apply (split_lookahead_append _ s) in Hl. simpl in Hl, Hlook. congruence.
  - cbn [andb]. apply (IH s); [assumption|apply append_not_empty].
Qed.

Lemma clear_tail_snoc : forall u c s,
    clear_tail u (String c s) = true ->
    split_lookahead (String c s) = false ->
    clear_tail (u ++ String c "") s = true.
Proof.
  induction u as [|d u IH]; intros c s H Hlook.
  - simpl. simpl in Hlook. now rewrite Hlook.
  - cbn [clear_tail append] in *. apply andb_true_iff in H. destruct H as [Hd H].
    rewrite (IH c s H Hlook), andb_true_r.
    change (String d (u ++ String c "") ++ s)%string
      with (String d ((u ++ String c "") ++ s))%string.
    rewrite append_assoc. exact Hd.
Qed.

Lemma split_go_pieces_uncut : forall s cur,
    match cur with EmptyString => True | String _ u => clear_tail u s = true end ->
    Forall (fun f => cuts "" f = false) (split_go cur s).
Proof.
  induction s as [|c s IH]; intros cur J.
  - simpl. constructor; [|constructor].
    destruct cur as [|d u]; [reflexivity|].
    cbn [cuts]. rewrite andb_false_r. now apply (clear_tail_no_cut u "").
  - cbn [split_go].
    destruct (split_lookahead (String c s) && negb (String.eqb cur "")) eqn:Hcut.
    + constructor; [|apply IH; reflexivity].
      destruct cur as [|d u]; [reflexivity|].
      cbn [cuts]. rewrite andb_false_r. now apply (clear_tail_no_cut u (String c s)).
    + apply IH. destruct cur as [|d u]; [reflexivity|].
      cbn [append]. apply clear_tail_snoc; [assumption|].
      simpl in Hcut. now rewrite andb_true_r in Hcut.
Qed.

Lemma split_go_no_cut : forall s cur,
    cuts cur s = false -> split_go cur s = [(cur ++ s)%string].
Proof.
  induction s as [|c s IH]; intros cur H.
  - simpl. now rewrite append_empty_r.
  - cbn [split_go cuts] in *.
    destruct (split_lookahead (String c s) && negb (String.eqb cur ""));
      [discriminate|].
    rewrite (IH _ H). now rewrite append_assoc.
Qed.

(** ** Selectors made of a tag and class names *)

Lemma plain_not_compound : forall s, plain s -> isCompoundSelector s = false.
Proof.
  induction s as [|c s IH]; intros H; [reflexivity|].
  unfold plain in *. simpl in H. apply orb_false_iff in H. destruct H as [Hc Hs].
  cbn [isCompoundSelector]. rewrite (IH Hs), orb_false_r.
  destruct s as [|d s']; [apply andb_false_r|].
  simpl in Hs. apply orb_false_iff in Hs. destruct Hs as [Hd _].
  apply orb_false_iff in Hd. destruct Hd as [Hdot Hbr].
  now rewrite Hdot, Hbr, andb_false_r.
Qed.

Lemma plain_tail_not_compound : forall d s,
    plain s -> isCompoundSelector (String d s) = false.
Proof.
  intros d s H. cbn [isCompoundSelector].
  rewrite (plain_not_compound H), orb_false_r.
  destruct s as [|e s']; [apply andb_false_r|].
  unfold plain in H. simpl in H. apply orb_false_iff in H. destruct H as [He _].
  apply orb_false_iff in He. destruct He as [Hdot Hbr].
  now rewrite Hdot, Hbr, andb_false_r.
Qed.

Lemma split_go_plain : forall u cur rest,
    plain u ->
    split_go cur (u ++ rest) = split_go (cur ++ u) rest.
Proof.
  induction u as [|c u IH]; intros cur rest H.
  - simpl. now rewrite append_empty_r.
  - unfold plain in H. simpl in H. apply orb_false_iff in H. destruct H as [Hc Hu].
    apply orb_false_iff in Hc. destruct Hc as [Hdot Hbr].
    cbn [append split_go split_lookahead]. rewrite Hdot, Hbr. cbn [orb andb].
    rewrite (IH _ _ Hu). now rewrite append_assoc.
Qed.

Lemma split_go_dot : forall cur rest,
    String.eqb cur "" = false ->
    split_go cur (String "." rest) = cur :: split_go (String "." "") rest.
Proof.
  intros cur rest H. cbn [split_go]. simpl split_lookahead. now rewrite H.
Qed.

Lemma split_go_classes : forall cs cur,
    String.eqb cur "" = false ->
    Forall (fun c => plain c) cs ->
    split_go cur (class_suffix cs) = cur :: map (String ".") cs.
Proof.
  induction cs as [|c cs IH]; intros cur Hcur Hcs; [reflexivity|].
  inversion Hcs as [|c' cs' Hc Hrest]; subst.
  unfold class_suffix in *. cbn [map]. rewrite concat_cons.
  cbn [append]. rewrite (@split_go_dot cur _ Hcur). f_equal.
  rewrite (@split_go_plain c (String "." "") _ Hc). cbn [append].
  apply IH; [reflexivity|assumption].
Qed.

Lemma last_char_cons : forall c d s,
    last_char (String c (String d s)) = last_char (String d s).
Proof. reflexivity. Qed.

Lemma isCompoundSelector_cons : forall c d s,
    isCompoundSelector (String c (String d s))
    = (is_letter c
       && ((Ascii.eqb d "." && starts_with is_letter s)
           || (Ascii.eqb d "[" && closes_bracket s)))
      || isCompoundSelector (String d s).
Proof. reflexivity. Qed.

Lemma dotted_not_compound : forall tag c,
    plain tag -> plain c ->
    match last_char tag with Some x => is_letter x | None => false end
    && starts_with is_letter c = false ->
    isCompoundSelector (tag ++ String "." c) = false.
Proof.
  induction tag as [|x tag IH]; intros c Htag Hc Hl.
  - simpl append. now apply plain_tail_not_compound.
  - unfold plain in Htag. simpl in Htag. apply orb_false_iff in Htag.
    destruct Htag as [_ Htag]. destruct tag as [|d tag'].
    + cbn [append]. rewrite isCompoundSelector_cons.
      rewrite (plain_tail_not_compound "." Hc), orb_false_r.
      cbn [last_char] in Hl. cbn [Ascii.eqb Bool.eqb andb orb].
      now rewrite orb_false_r.
    + cbn [append]. rewrite isCompoundSelector_cons.
      rewrite last_char_cons in Hl.
      change (String d (tag' ++ String "." c))%string
        with (String d tag' ++ String "." c)%string.
      rewrite (IH c Htag Hc Hl), orb_false_r.
      simpl in Htag. apply orb_false_iff in Htag. destruct Htag as [Hd _].
      apply orb_false_iff in Hd. destruct Hd as [Hdot Hbr].
      now rewrite Hdot, Hbr, andb_false_r.
Qed.

Lemma string_exists_class_suffix : forall p cs c,
    string_exists p (class_suffix cs) = false -> In c cs ->
    string_exists p c = false.
Proof.
  induction cs as [|d cs IH]; intros c H Hin; [contradiction|].
  unfold class_suffix in *. cbn [map] in H. rewrite concat_cons in H.
  simpl in H. apply orb_false_iff in H. destruct H as [_ H].
  rewrite string_exists_append in H. apply orb_false_iff in H.
  destruct H as [Hd Hrest]. destruct Hin as [<-|Hin]; auto.
Qed.

Lemma forallb_map : forall {A B} (f : A -> B) (p : B -> bool) l,
    forallb p (map f l) = forallb (fun x => p (f x)) l.
Proof.
  induction l as [|x l IH]; simpl; [reflexivity|now rewrite IH].
Qed.

Lemma buildPredicate_class : forall c,
    isSimpleSelector c = true -> plain c ->
    buildPredicate (VStr (String "." c)) = Ok (fun node => hasClassName node c).
Proof.
  intros c Hsimple Hplain. unfold buildPredicate.
  assert (Hs : isSimpleSelector (String "." c) = true).
  { unfold isSimpleSelector in *. simpl. exact Hsimple. }
  assert (Hc : isCompoundSelector (String "." c) = false)
    by now apply plain_tail_not_compound.
  simpl selector_length. cbn [buildPredicate_fuel typeof].
  rewrite Hs, Hc. reflexivity.
Qed.

End SelectorMore.

(* ================================================================== *)
(** * More on the structural equality *)
(* ================================================================== *)

Module EqualityMore.
Import Utils ShallowTraversal Notions MoreNotions TraversalFacts EqualityFacts.

Section More.

Variable isEqual : value -> value -> bool.

Lemma nodeEqual_leaves : forall a b,
    is_leaf a = true -> is_leaf b = true ->
    truthy a = true -> truthy b = true ->
    nodeEqual isEqual a b = Ok true.
Proof.
  intros a b Ha Hb Hta Htb. rewrite nodeEqual_eq, Hta, Htb.
  destruct (strict_eq a b); [reflexivity|].
  destruct a; try discriminate; destruct b; try discriminate; reflexivity.
Qed.

Lemma props_loop_all : forall l n rightProps,
    (forall k lv, In (k, lv) l ->
                  exists rv, lookup k rightProps = Some rv
                             /\ compare_prop isEqual k lv rv = Ok true) ->
    n = List.length (keys rightProps) ->
    props_loop isEqual l n rightProps = Ok true.
Proof.
  induction l as [|[k lv] l IH]; intros n rightProps Hall Hn.
  - simpl. subst n. now rewrite Nat.eqb_refl.
  - cbn [props_loop].
    destruct (Hall k lv (or_introl eq_refl)) as [rv [Hl Hc]].
    rewrite Hl, Hc. cbn [bind negb]. apply IH; [|assumption].
    intros; apply Hall; now right.
Qed.

Lemma lookup_app_left : forall k v (l l' : list (string * value)),
    lookup k l = Some v -> lookup k (l ++ l') = Some v.
Proof.
  induction l as [|[k' v'] l IH]; intros l' H; [discriminate|].
  simpl in *. destruct (String.eqb k k'); [assumption|auto].
Qed.

Lemma lookup_app_right : forall k (l l' : list (string * value)),
    ~ In k (keys l) -> lookup k (l ++ l') = lookup k l'.
Proof.
  induction l as [|[k' v'] l IH]; intros l' H; [reflexivity|].
  simpl in *. destruct (String.eqb_spec k k') as [->|Hne].
  - exfalso. apply H. now left.
  - apply IH. intros Hin. apply H. now right.
Qed.

End More.

End EqualityMore.

(* ================================================================== *)
(** * More on the wrapper *)
(* ================================================================== *)

Module WrapperMore.
Import Utils ShallowTraversal ShallowWrapper Notions TraversalRest MoreNotions.
Import TraversalFacts SelectorFacts WrapperFacts TraversalMore.

Lemma mapM_pure : forall {A B} (g : A -> B) l,
    mapM (fun x => Ok (g x)) l = Ok (map g l).
Proof.
  induction l as [|x l IH]; [reflexivity|]. cbn [mapM map bind]. now rewrite IH.
Qed.

Lemma mapM_index : forall {A B} (g : A -> result B) l k,
    mapM (fun ni => g (fst ni)) (combine l (seq k (List.length l))) = mapM g l.
Proof.
  induction l as [|x l IH]; intros k; [reflexivity|].
  cbn [List.length seq combine mapM fst]. now rewrite IH.
Qed.

Lemma mapM_bind_array : forall (f : value -> result (list value)) l,
    mapM (fun n => x <- f n ;; Ok (array x)) l
    = (ls <- mapM f l ;; Ok (map array ls)).
Proof.
  induction l as [|n l IH]; [reflexivity|].
  cbn [mapM]. rewrite IH. destruct (f n) as [x|e]; [|reflexivity].
  cbn [bind]. now destruct (mapM f l).
Qed.

Lemma flatten_arrays : forall ls, flatten_shallow (map array ls) = List.concat ls.
Proof.
  unfold flatten_shallow. induction ls as [|l ls IH]; [reflexivity|].
  cbn [map flat_map array List.concat]. now rewrite <- IH.
Qed.

Lemma node_new_child : forall R (root : Root R) n,
    isArray n = false -> node root (new_child n) = n.
Proof. intros R root n H. destruct n; try reflexivity; discriminate. Qed.

Lemma nodes_new_child_array : forall R (root : Root R) l,
    nodes root (new_child (array l)) = l.
Proof. reflexivity. Qed.

Lemma length_new_child_array : forall R (root : Root R) l,
    length root (new_child (array l)) = List.length l.
Proof. reflexivity. Qed.

(** [flatMap] on a function that reads only the node of its wrapper. *)
Lemma flatMap_nodes : forall R (root : Root R) this
                             (f : value -> result (list value)),
    Forall (fun n => isArray n = false) (nodes root this) ->
    flatMap root this (fun n _ => l <- f (node root n) ;; Ok (array l))
    = (ls <- mapM f (nodes root this) ;;
       Ok (new_child (array (unique (List.concat ls))))).
Proof.
  intros R root this f Harr. unfold flatMap.
  assert (Hmap : mapM (fun ni : value * nat =>
                         l <- f (node root (wrap this (ANode (fst ni)))) ;;
                         Ok (array l))
                   (combine (nodes root this)
                      (seq 0 (List.length (nodes root this))))
                 = (ls <- mapM f (nodes root this) ;; Ok (map array ls))).
  { rewrite <- mapM_bind_array.
    rewrite <- (mapM_index (fun n => x <- f n ;; Ok (array x)) (nodes root this) 0).
    apply mapM_ext_in. intros [n i] Hin. apply in_combine_l in Hin.
    rewrite Forall_forall in Harr. cbn [fst wrap].
    now rewrite (node_new_child root n (Harr n Hin)). }
  rewrite Hmap. destruct (mapM f (nodes root this)) as [ls|e]; [|reflexivity].
  cbn [bind wrap]. now rewrite flatten_arrays.
Qed.

Lemma flatMap_pure : forall R (root : Root R) this (g : value -> list value),
    Forall (fun n => isArray n = false) (nodes root this) ->
    flatMap root this (fun n _ => Ok (array (g (node root n))))
    = Ok (new_child (array (unique (flat_map g (nodes root this))))).
Proof.
  intros R root this g Harr.
  pose proof (flatMap_nodes root this (fun n => Ok (g n)) Harr) as H.
  cbn [bind] in H. rewrite H. rewrite mapM_pure. cbn [bind].
  now rewrite flat_map_concat_map.
Qed.

(** ** [unique] *)

Lemma contains_app : forall a b v,
    contains (a ++ b) v = contains a v || contains b v.
Proof. intros. unfold contains. apply existsb_app. Qed.

Lemma unique_step_In : forall l acc x,
    In x (fold_left unique_step l acc) -> In x acc \/ In x l.
Proof.
  induction l as [|v l IH]; intros acc x H; [now left|].
  cbn [fold_left] in H. apply IH in H. destruct H as [H|H]; [|right; now right].
  unfold unique_step in H. destruct (contains acc v); [now left|].
  apply in_app_or in H. destruct H as [H|[<-|[]]]; [now left|right; now left].
Qed.

Lemma unique_In : forall l x, In x (unique l) -> In x l.
Proof.
  intros l x H. rewrite unique_fold in H. apply unique_step_In in H.
  now destruct H.
Qed.

Lemma unique_step_contains : forall l acc x,
    contains acc x = true \/ In x l ->
    contains (fold_left unique_step l acc) x = true.
Proof.
  induction l as [|v l IH]; intros acc x H.
  - destruct H as [H|[]]. exact H.
  - cbn [fold_left]. apply IH. destruct H as [H|[->|H]].
    + left. unfold unique_step. destruct (contains acc v); [assumption|].
      now rewrite contains_app, H.
    + left. unfold unique_step. destruct (contains acc x) eqn:Hc; [assumption|].
      rewrite contains_app. unfold contains at 2. simpl.
      now rewrite strict_eq_refl, orb_true_r.
    + now right.
Qed.

Lemma unique_complete : forall l x, In x l -> contains (unique l) x = true.
Proof.
  intros l x H. rewrite unique_fold. apply unique_step_contains. now right.
Qed.

Lemma distinct_snoc : forall acc v,
    distinct acc = true -> contains acc v = false ->
    distinct (acc ++ [v]) = true.
Proof.
  induction acc as [|x acc IH]; intros v Hd Hc; [reflexivity|].
  cbn [distinct app] in *. apply andb_true_iff in Hd. destruct Hd as [Hx Hd].
  unfold contains in Hc. cbn [existsb] in Hc. apply orb_false_iff in Hc.
  destruct Hc as [Hxv Hc]. rewrite (IH v Hd Hc), andb_true_r.
  rewrite existsb_app. cbn [existsb]. rewrite Hxv, !orb_false_r. exact Hx.
Qed.

Lemma unique_step_keeps_distinct : forall l acc,
    distinct acc = true -> distinct (fold_left unique_step l acc) = true.
Proof.
  induction l as [|v l IH]; intros acc H; [exact H|].
  cbn [fold_left]. apply IH. unfold unique_step.
  destruct (contains acc v) eqn:Hc; [exact H|now apply distinct_snoc].
Qed.

Lemma unique_is_distinct : forall l, distinct (unique l) = true.
Proof. intros l. rewrite unique_fold. now apply unique_step_keeps_distinct. Qed.

Lemma unique_length_zero : forall l,
    Nat.ltb 0 (List.length (unique l)) = negb (Nat.eqb (List.length l) 0).
Proof.
  intros [|x l]; [reflexivity|].
  destruct (unique_head x l) as [r ->]. reflexivity.
Qed.

(** ** [compact] and [filterWhere] *)




(** ** The root *)

Lemma parentsOfNode_self : forall x, parentsOfNode x x = Ok [].
Proof.
  intros x. unfold parentsOfNode, pathToNode.
  cbn [pathToNode_loop pop rev app]. now rewrite strict_eq_refl.
Qed.

Lemma flatMap_new_child : forall R (root : Root R) this fn w,
    flatMap root this fn = Ok w -> exists v, w = new_child v.
Proof.
  intros R root this fn w H. unfold flatMap in H.
  match type of H with
  | context [mapM ?f ?l] => destruct (mapM f l) as [ns|e]
  end; [|discriminate].
  cbn [bind] in H. injection H as <-.
  now exists (array (unique (flatten_shallow ns))).
Qed.

Lemma filter_new_child : forall R (root : Root R) this selector w,
    filter root this selector = Ok w -> exists v, w = new_child v.
Proof.
  intros R root this selector w H. unfold filter in H.
  destruct (buildPredicate selector) as [p|e]; [|discriminate].
  cbn [bind] in H. injection H as <-.
  now exists (array (compact (List.filter p (nodes root this)))).
Qed.

Lemma nth_last : forall (l : list value) d,
    nth (List.length l - 1) l d = List.last l d.
Proof.
  induction l as [|x l IH]; intros d; [reflexivity|].
  destruct l as [|y l]; [reflexivity|]. specialize (IH d).
  replace (List.length (x :: y :: l) - 1) with (S (List.length (y :: l) - 1))
    by (simpl; lia).
  change (nth (List.length (y :: l) - 1) (y :: l) d = List.last (y :: l) d).
  exact IH.
Qed.

Lemma mapM_throw_iff : forall {A B C} (f : A -> result B) (g : A -> result C) l,
    (forall x e, In x l -> (f x = Throw e <-> g x = Throw e)) ->
    forall e, mapM f l = Throw e <-> mapM g l = Throw e.
Proof.
  induction l as [|x l IH]; intros H e; [split; discriminate|].
  cbn [mapM].
  assert (Hx : forall e, f x = Throw e <-> g x = Throw e)
    by (intros; apply H; now left).
  assert (Hl : forall e, mapM f l = Throw e <-> mapM g l = Throw e)
    by (apply IH; intros; apply H; now right).
  destruct (f x) as [y|e1] eqn:Hf, (g x) as [z|e2] eqn:Hg; cbn [bind].
  - destruct (mapM f l) as [ys|e3] eqn:Hfl, (mapM g l) as [zs|e4] eqn:Hgl;
      cbn [bind].
    + split; discriminate.
    + discriminate (proj2 (Hl e4) eq_refl).
    + discriminate (proj1 (Hl e3) eq_refl).
    + apply Hl.
  - pose proof (proj2 (Hx e2) eq_refl). discriminate.
  - pose proof (proj1 (Hx e1) eq_refl). discriminate.
  - pose proof (proj1 (Hx e1) eq_refl) as He. injection He as ->.
    split; intros [= ->]; reflexivity.
Qed.

(** On a wrapper that is not the root, the root methods of
    [WrapperMethods] stop at the same guard as those of [ShallowWrapper]. *)
Lemma root_methods_same_guard :
  forall R (getRenderOutput : R -> value) (stub : value)
         (render : R -> value -> option value -> result unit * R)
         (cloneElement : value -> value -> result value)
         (renderer_instance public_instance : R -> value)
         (instance_setState : R -> value -> option value -> result unit * R)
         (instance_state : R -> value) (member : value -> value -> value)
         (render0 : R -> value -> R) (instance_setState0 : R -> value -> R)
         (cloneElement0 : value -> value -> value)
         (root : Root R) this arg document,
    isRoot this = false ->
    WrapperMethods.setProps getRenderOutput stub render cloneElement root this
      arg document
    = (fst (setProps render0 getRenderOutput cloneElement0 root this arg),
       root, document)
    /\ WrapperMethods.setState getRenderOutput stub renderer_instance
         public_instance instance_setState root this arg document
       = (fst (setState getRenderOutput instance_setState0 root this arg),
          root, document)
    /\ WrapperMethods.state renderer_instance public_instance instance_state
         member root this arg
       = fst (state instance_state member root this arg).
Proof.
  intros. unfold WrapperMethods.setProps, WrapperMethods.setState,
    WrapperMethods.state, setProps, setState, state.
  rewrite H. repeat split.
Qed.


End WrapperMore.

(* ================================================================== *)
(** * More on the mounted selectors *)
(* ================================================================== *)

Module MountedMore.
Import Utils ShallowTraversal SelectorFacts WrapperMore.

Section Agreement.

Variable inst : Type.
Variable isDOMComponent : inst -> bool.
Variable dom_className : inst -> value.
Variable dom_id : inst -> value.
Variable tagName : inst -> string.
Variable toUpperCase : string -> string.
Variable isCompositeComponentWithType : inst -> value -> bool.

Lemma buildInstPredicate_fuel_throws : forall fuel selector e,
    MountedRest.buildInstPredicate_fuel isDOMComponent dom_className dom_id
      tagName toUpperCase isCompositeComponentWithType fuel selector = Throw e
    <-> buildPredicate_fuel fuel selector = Throw e.
Proof.
  induction fuel as [|fuel IH]; intros selector e.
  - destruct selector as [| |b|z|s|r n d|r|r items|r t props]; cbn;
      try (split; intros H; (discriminate || (injection H as <-; reflexivity))).
    destruct (isSimpleSelector s); cbn; [|split; intros H; injection H as <-; reflexivity].
    destruct (isCompoundSelector s); [split; intros H; injection H as <-; reflexivity|].
    destruct (starts_with (Ascii.eqb ".") s); [split; discriminate|].
    destruct (starts_with (Ascii.eqb "#") s); split; discriminate.
  - destruct selector as [| |b|z|s|r n d|r|r items|r t props];
      cbn [MountedRest.buildInstPredicate_fuel buildPredicate_fuel typeof];
      try (split; intros H; (discriminate || (injection H as <-; reflexivity))).
    destruct (isSimpleSelector s); cbn [negb]; [|split; intros H; injection H as <-; reflexivity].
    destruct (isCompoundSelector s).
    + pose proof (@mapM_throw_iff _ _ _
                    (fun f => MountedRest.buildInstPredicate_fuel isDOMComponent
                                dom_className dom_id tagName toUpperCase
                                isCompositeComponentWithType fuel (VStr f))
                    (fun f => buildPredicate_fuel fuel (VStr f))
                    (splitSelector s)
                    (fun x e _ => IH (VStr x) e)) as Hm.
      destruct (mapM _ (splitSelector s)) as [fs|e1];
        destruct (mapM (fun f => buildPredicate_fuel fuel (VStr f))
                    (splitSelector s)) as [gs|e2]; cbn [bind].
      * split; discriminate.
      * discriminate (proj2 (Hm e2) eq_refl).
      * discriminate (proj1 (Hm e1) eq_refl).
      * pose proof (proj1 (Hm e1) eq_refl) as H'. injection H' as <-.
        split; intros H; injection H as <-; reflexivity.
    + destruct (starts_with (Ascii.eqb ".") s); [split; discriminate|].
      destruct (starts_with (Ascii.eqb "#") s); split; discriminate.
Qed.

End Agreement.

End MountedMore.

(* ================================================================== *)
(** * Further properties of the code *)
(* ================================================================== *)

Import TraversalRest MoreNotions TraversalMore TextFacts.

(** ** Traversals *)

(** X1.  [treeFilter(tree, fn)] is the pre-order list of the nodes of the
    tree from which the nodes that fail [fn] are left out: it holds exactly
    the nodes that are [tree] or below it and satisfy [fn]. *)
Theorem treeFilter_selects_reachable : forall tree fn,
    treeFilter tree fn = List.filter fn (treeFilter tree (fun _ => true))
    /\ Preorder tree (treeFilter tree (fun _ => true))
    /\ forall x, In x (treeFilter tree fn) <-> Reach tree x /\ fn x = true.
Proof.
  intros tree fn. pose proof (treeFilter_all_preorder tree) as Hpre.
  split; [apply treeFilter_filter|]. split; [exact Hpre|].
  intros x. rewrite treeFilter_filter, filter_In. split.
  - intros [Hin Hfn]. split; [|assumption]. now apply (Preorder_Reach Hpre).
  - intros [Hr Hfn]. split; [|assumption]. now apply (Reach_Preorder Hpre).
Qed.

(** X2.  [pathToNode(node, root)] returns [null] exactly when no node that
    is [root] or below it is [===] to [node]; [parentsOfNode] then throws a
    TypeError ([null.reverse()]), and otherwise returns the path reversed. *)
Theorem pathToNode_null_iff_unreachable : forall node root,
    (pathToNode node root = None
     <-> forall x, Reach root x -> strict_eq x node = false)
    /\ (parentsOfNode node root = Throw (cannot_read "reverse")
        <-> pathToNode node root = None)
    /\ (forall path, pathToNode node root = Some path ->
                     parentsOfNode node root = Ok (rev path)).
Proof.
  intros node root. split; [split|split].
  - intros Hnone x Hr. destruct (strict_eq x node) eqn:Hx; [|reflexivity].
    destruct (pathToNode_loop_finds (fuel := S (vsize root)) node [root] [])
      as [p Hp].
    + simpl. lia.
    + exists root, x. repeat split; auto. now left.
    + rewrite pathToNode_returns, Hnone in Hp. discriminate.
  - apply pathToNode_unreachable.
  - unfold parentsOfNode. split.
    + destruct (pathToNode node root); [discriminate|reflexivity].
    + now intros ->.
  - intros path H. unfold parentsOfNode. now rewrite H.
Qed.

(** X3.  When [pathToNode(node, root)] returns a path, the path holds, in
    order from the root, the ancestors of a node of the tree that is [===]
    to [node], possibly with other nodes between them; every node of the
    path is in the tree, has children and is not [===] to [node]. *)
Theorem pathToNode_holds_ancestors : forall node root path,
    pathToNode node root = Some path ->
    exists x ancestors,
      strict_eq x node = true
      /\ Chain root x ancestors
      /\ Subseq ancestors path
      /\ Forall (fun y => Reach root y /\ childrenOfNode y <> []
                          /\ strict_eq y node = false) path.
Proof.
  intros node root path H.
  pose proof (pathToNode_returns node root) as Hret. rewrite H in Hret.
  apply pathToNode_loop_invariant with (root := root) in Hret; [assumption|].
  split; [|constructor].
  intros q [<-|[]]. exists []. split; constructor.
Qed.

Lemma pathToNode_holds_ancestors_witness :
  pathToNode Examples.target Examples.tree = Some [Examples.tree; Examples.sibling]
  /\ exists x ancestors,
      strict_eq x Examples.target = true
      /\ Chain Examples.tree x ancestors
      /\ Subseq ancestors [Examples.tree; Examples.sibling]
      /\ Forall (fun y => Reach Examples.tree y /\ childrenOfNode y <> []
                          /\ strict_eq y Examples.target = false)
           [Examples.tree; Examples.sibling].
Proof.
  split; [reflexivity|].
  exact (@pathToNode_holds_ancestors Examples.target Examples.tree _ eq_refl).
Defined.

(** X4.  For a tree that holds no component element and no white space in
    its text, [getTextFromNode] returns the texts of the string and number
    leaves of the tree, concatenated in pre-order. *)
Theorem getTextFromNode_concatenates_leaves : forall tree,
    (forall x, Reach tree x ->
               is_component x = false
               /\ string_exists is_space (leaf_text x) = false) ->
    getTextFromNode tree
    = String.concat "" (map leaf_text (treeFilter tree (fun _ => true))).
Proof.
  intros tree H. unfold getTextFromNode.
  pose proof (treeFilter_all_preorder tree) as Hpre.
  apply getTextFromNode_fuel_leaves; [lia|exact Hpre|].
  intros x Hx. apply H. now apply (Preorder_Reach Hpre).
Qed.

Lemma getTextFromNode_concatenates_leaves_witness :
  getTextFromNode Examples.items = "xx".
Proof.
  rewrite (@getTextFromNode_concatenates_leaves Examples.items).
  - reflexivity.
  - intros x Hx.
    apply (Reach_Preorder (treeFilter_all_preorder Examples.items)) in Hx.
    vm_compute in Hx.
    repeat (destruct Hx as [<-|Hx]; [split; reflexivity|]). contradiction.
Defined.

(** X5.  For a node that is not a component element and whose only child
    is a string, [getTextFromNode] returns the string with its first run of
    white space replaced by one space; white space after that run is left
    as it is. *)
Theorem getTextFromNode_first_run_only : forall node a c w b,
    is_component node = false ->
    childrenOfNode node = [VStr (a ++ String c w ++ b)] ->
    string_exists is_space a = false ->
    is_space c = true ->
    string_exists (fun c => negb (is_space c)) w = false ->
    starts_with is_space b = false ->
    getTextFromNode node = (a ++ String " " b)%string.
Proof.
  intros node a c w b Hcomp Hkids Ha Hc Hw Hb.
  unfold getTextFromNode.
  pose proof (vsize_childrenOfNode node) as Hsize. rewrite Hkids in Hsize.
  simpl in Hsize.
  destruct (vsize node) as [|fuel] eqn:Hv; [lia|].
  destruct node;
    try (rewrite childrenOfNode_not_element in Hkids by exact I; discriminate).
  cbn [getTextFromNode_fuel]. unfold is_component in Hcomp. rewrite Hcomp, Hkids.
  destruct fuel as [|fuel]; [lia|].
  cbn [map getTextFromNode_fuel to_string String.concat].
  now apply replace_spaces_first_run.
Qed.

Lemma getTextFromNode_first_run_only_witness :
  getTextFromNode (VElem 1 (VStr "p") [("children", VStr "a  b  c")]) = "a b  c".
Proof.
  exact (@getTextFromNode_first_run_only
           (VElem 1 (VStr "p") [("children", VStr "a  b  c")])
           "a" " " " " "b  c" eq_refl eq_refl eq_refl eq_refl eq_refl eq_refl).
Defined.

Import SelectorMore EqualityMore.

(** ** Structural equality *)

(** X6.  With an [isEqual] that does not depend on the order of its
    arguments, and nodes whose props objects, all the way down, have
    distinct keys, no key that [Object.prototype] defines and no function
    as [children]: when [nodeEqual(a, b)] returns, [nodeEqual(b, a)] returns
    the same answer or throws. *)
Theorem nodeEqual_agrees_when_both_return : forall isEqual a b x,
    (forall u v, isEqual u v = isEqual v u) ->
    keys_distinct a -> keys_distinct b ->
    own_keyed a -> own_keyed b ->
    nodeEqual isEqual a b = Ok x ->
    nodeEqual isEqual b a = Ok x \/ exists e, nodeEqual isEqual b a = Throw e.
Proof.
  intros isEqual a b x Hsym Ha Hb _ _ Hx.
  destruct (nodeEqual isEqual b a) as [y|e] eqn:Hy; [left|right; now exists e].
  f_equal. symmetry.
  now apply (@nodeEqual_symmetric_when_defined isEqual Hsym a b).
Qed.

Lemma nodeEqual_agrees_when_both_return_witness :
  nodeEqual strict_eq
    (VElem 3 (VStr "div")
       [("id", VStr "x"); ("children", VElem 4 (VStr "span") [])])
    (VElem 1 (VStr "div")
       [("id", VStr "x"); ("children", VElem 2 (VStr "span") [])])
  = Ok true
  \/ exists e,
      nodeEqual strict_eq
        (VElem 3 (VStr "div")
           [("id", VStr "x"); ("children", VElem 4 (VStr "span") [])])
        (VElem 1 (VStr "div")
           [("id", VStr "x"); ("children", VElem 2 (VStr "span") [])])
      = Throw e.
Proof.
  apply (@nodeEqual_agrees_when_both_return strict_eq
           (VElem 1 (VStr "div")
              [("id", VStr "x"); ("children", VElem 2 (VStr "span") [])])
           (VElem 3 (VStr "div")
              [("id", VStr "x"); ("children", VElem 4 (VStr "span") [])])
           true).
  - exact strict_eq_sym.
  - cbn. repeat split; repeat constructor; cbn; intuition discriminate.
  - cbn. repeat split; repeat constructor; cbn; intuition discriminate.
  - cbn. repeat split.
  - cbn. repeat split.
  - reflexivity.
Defined.

(** X7.  [nodeEqual] does not compare text: two truthy values that are
    neither elements nor arrays are equal for it, and so are two elements
    of the same type and props whose only children are such values,
    whatever the two texts are. *)
Theorem nodeEqual_ignores_text : forall isEqual r r' type props c c',
    NoDup (keys props) -> ~ In "children" (keys props) ->
    is_leaf c = true -> is_leaf c' = true ->
    truthy c = true -> truthy c' = true ->
    nodeEqual isEqual c c' = Ok true
    /\ nodeEqual isEqual (VElem r type (props ++ [("children", c)]))
         (VElem r' type (props ++ [("children", c')])) = Ok true.
Proof.
  intros isEqual r r' type props c c' Hnd Hnotin Hc Hc' Ht Ht'.
  pose proof (nodeEqual_leaves isEqual c c' Hc Hc' Ht Ht') as Hleaf.
  split; [exact Hleaf|].
  rewrite nodeEqual_eq.
  destruct (strict_eq (VElem r type (props ++ [("children", c)]))
              (VElem r' type (props ++ [("children", c')]))); [reflexivity|].
  cbn [truthy negb orb type_of propsOfNode]. rewrite strict_eq_refl. cbn [negb].
  apply props_loop_all.
  - intros k lv Hin. apply in_app_or in Hin. destruct Hin as [Hin|[Hin|[]]].
    + exists lv. split.
      * apply lookup_app_left. now apply lookup_In.
      * unfold compare_prop.
        destruct (String.eqb_spec k "children") as [->|Hne].
        -- exfalso. apply Hnotin. apply in_map_iff. now exists ("children", lv).
        -- now rewrite strict_eq_refl.
    + injection Hin as <- <-. exists c'. split.
      * rewrite lookup_app_right by assumption. reflexivity.
      * unfold compare_prop. cbn [String.eqb Ascii.eqb Bool.eqb andb].
        rewrite childrenEqual_eq.
        destruct (strict_eq c c'); [reflexivity|].
        destruct c; try discriminate; destruct c'; try discriminate;
          cbn [isArray negb andb]; exact Hleaf.
  - unfold keys. now rewrite !length_map, !length_app.
Qed.

Lemma nodeEqual_ignores_text_witness :
  nodeEqual (fun _ _ => false) (VStr "yes") (VStr "no") = Ok true
  /\ nodeEqual (fun _ _ => false)
       (VElem 1 (VStr "b") ([("id", VStr "x")] ++ [("children", VStr "yes")]))
       (VElem 2 (VStr "b") ([("id", VStr "x")] ++ [("children", VStr "no")]))
     = Ok true.
Proof.
  apply (@nodeEqual_ignores_text (fun _ _ => false) 1 2 (VStr "b")
           [("id", VStr "x")] (VStr "yes") (VStr "no")).
  - repeat constructor. simpl. tauto.
  - simpl. intros [H|[]]. discriminate.
  - reflexivity.
  - reflexivity.
  - reflexivity.
  - reflexivity.
Defined.

(** ** Selectors *)

(** X8.  [splitSelector] loses nothing: the pieces concatenate to the
    selector; no piece of a non-empty selector is empty; every piece after
    the first starts with ['.'] or ['[']. *)
Theorem splitSelector_round_trip : forall selector,
    String.concat "" (splitSelector selector) = selector
    /\ match selector with
       | EmptyString => splitSelector selector = [""]
       | String _ _ =>
           Forall (fun f => String.eqb f "" = false) (splitSelector selector)
       end
    /\ Forall (fun f => starts_with (fun c => Ascii.eqb c "." || Ascii.eqb c "[") f
                        = true)
         (tl (splitSelector selector)).
Proof.
  intros selector. unfold splitSelector. split; [|split].
  - now rewrite split_go_concat.
  - destruct selector as [|c s]; [reflexivity|].
    cbn [split_go]. rewrite andb_false_r. now apply split_go_not_empty.
  - apply split_go_tail.
Qed.

(** X9.  No piece of [splitSelector] is split again: splitting a piece
    gives the piece back, and no piece is a compound selector, so the
    recursion of [buildPredicate] on the pieces stops at once. *)
Theorem splitSelector_pieces_final : forall selector,
    Forall (fun f => splitSelector f = [f] /\ isCompoundSelector f = false)
      (splitSelector selector).
Proof.
  intros selector. unfold splitSelector.
  pose proof (@split_go_pieces_uncut selector "" I) as H.
  eapply Forall_impl; [|exact H]. cbv beta. intros f Hf. split.
  - now rewrite (split_go_no_cut _ _ Hf).
  - destruct (isCompoundSelector f) eqn:Hc; [|reflexivity].
    now rewrite (compound_cuts f "" Hc) in Hf.
Qed.

(** X10.  A tag name followed by class names, as in [div.a.b], is split
    into the tag name and the class selectors, and a node satisfies the
    compiled predicate exactly when it satisfies the predicate of the tag
    name and [hasClassName] for every class name. *)
Theorem tag_and_classes_selector : forall tag cs pt,
    String.eqb tag "" = false ->
    plain tag -> Forall (fun c => plain c) cs ->
    isSimpleSelector (tag ++ class_suffix cs) = true ->
    isCompoundSelector (tag ++ class_suffix cs) = true ->
    buildPredicate (VStr tag) = Ok pt ->
    splitSelector (tag ++ class_suffix cs) = tag :: map (String ".") cs
    /\ exists p,
        buildPredicate (VStr (tag ++ class_suffix cs)) = Ok p
        /\ forall node,
            p node = pt node && forallb (fun c => hasClassName node c) cs.
Proof.
  intros tag cs pt Htag Hplain Hcs Hsimple Hcompound Hpt.
  assert (Hsplit : splitSelector (tag ++ class_suffix cs)
                   = tag :: map (String ".") cs).
  { unfold splitSelector. rewrite (@split_go_plain tag "" _ Hplain).
    now apply split_go_classes. }
  split; [exact Hsplit|].
  rewrite (buildPredicate_compound _ Hsimple Hcompound), Hsplit.
  cbn [mapM]. rewrite Hpt. cbn [bind].
  assert (Hmap : mapM (fun f => buildPredicate (VStr f)) (map (String ".") cs)
                 = Ok (map (fun c node => hasClassName node c) cs)).
  { unfold isSimpleSelector in Hsimple. apply negb_true_iff in Hsimple.
    rewrite string_exists_append in Hsimple.
    apply orb_false_iff in Hsimple. destruct Hsimple as [_ Hsimple].
    clear Hsplit Hcompound.
    induction cs as [|c cs IH]; [reflexivity|].
    inversion Hcs as [|? ? Hc Hrest]; subst.
    cbn [map mapM]. rewrite buildPredicate_class.
    - cbn [bind]. rewrite IH; [reflexivity|assumption|].
      unfold class_suffix in *. cbn [map] in Hsimple.
      rewrite concat_cons in Hsimple. cbn [append string_exists] in Hsimple.
      apply orb_false_iff in Hsimple. destruct Hsimple as [_ Hsimple].
      rewrite string_exists_append in Hsimple.
      now apply orb_false_iff in Hsimple.
    - unfold isSimpleSelector.
      rewrite (@string_exists_class_suffix is_complex_char (c :: cs) c Hsimple);
        [reflexivity|now left].
    - assumption. }
  rewrite Hmap. cbn [bind]. eexists. split; [reflexivity|].
  intros node. rewrite (@AND_forallb _ _ node (Permutation_refl _)).
  cbn [forallb]. now rewrite forallb_map.
Qed.

Lemma tag_and_classes_selector_witness :
  splitSelector "div.a.b" = ["div"; ".a"; ".b"]
  /\ exists p,
      buildPredicate (VStr "div.a.b") = Ok p
      /\ forall node,
          p node = nodeHasType node (VStr "div")
                   && forallb (fun c => hasClassName node c) ["a"; "b"].
Proof.
  apply (@tag_and_classes_selector "div" ["a"; "b"]
           (fun node => nodeHasType node (VStr "div"))).
  - reflexivity.
  - reflexivity.
  - repeat constructor.
  - reflexivity.
  - reflexivity.
  - reflexivity.
Defined.

(** X11.  A dot splits a selector only between two letters.  When the
    character before the dot or the one after it is not a letter, as in
    [h1.title], the selector is not compound: the whole text, dot and class
    name included, is compared with the type of the node. *)
Theorem dotted_selector_not_split : forall tag c,
    plain tag -> plain c ->
    match last_char tag with Some x => is_letter x | None => false end
    && starts_with is_letter c = false ->
    isSimpleSelector (tag ++ String "." c) = true ->
    starts_with (Ascii.eqb ".") tag = false ->
    starts_with (Ascii.eqb "#") tag = false ->
    String.eqb tag "" = false ->
    buildPredicate (VStr (tag ++ String "." c))
    = Ok (fun node => nodeHasType node (VStr (tag ++ String "." c))).
Proof.
  intros tag c Htag Hc Hl Hsimple Hdot Hhash Hne.
  pose proof (dotted_not_compound Htag Hc Hl) as Hcompound.
  destruct tag as [|x tag]; [discriminate|].
  unfold buildPredicate. cbn [append selector_length String.length] in *.
  cbn [buildPredicate_fuel typeof]. rewrite Hsimple, Hcompound.
  cbn [negb]. cbn [starts_with] in *. now rewrite Hdot, Hhash.
Qed.

Lemma dotted_selector_not_split_witness :
  buildPredicate (VStr "h1.title")
  = Ok (fun node => nodeHasType node (VStr "h1.title")).
Proof.
  apply (@dotted_selector_not_split "h1" "title"); reflexivity.
Defined.

Import WrapperMore.

(** ** The wrapper *)

(** X12.  [contains(element)] on a wrapper of one node visits the whole
    tree of that node in pre-order, calling [nodeEqual(element, other)] on
    every node: it returns whether some call returned true, and it throws
    as soon as one call throws, also when an earlier node was equal. *)
Theorem contains_scans_whole_tree :
  forall R isEqual (root : Root R) this n element,
    nodes root this = [n] -> isArray n = false ->
    WrapperMethods.contains isEqual root this element
    = (found <- filterR (fun other => nodeEqual isEqual element other)
                  (treeFilter n (fun _ => true)) ;;
       Ok (negb (Nat.eqb (List.length found) 0)))
    /\ forall x e, Reach n x -> nodeEqual isEqual element x = Throw e ->
                   exists e',
                     WrapperMethods.contains isEqual root this element = Throw e'.
Proof.
  intros R isEqual root this n element Hn Harr.
  assert (Heq : WrapperMethods.contains isEqual root this element
                = (found <- filterR (fun other => nodeEqual isEqual element other)
                              (treeFilter n (fun _ => true)) ;;
                   Ok (negb (Nat.eqb (List.length found) 0)))).
  { unfold WrapperMethods.contains, WrapperMethods.findWhereR.
    pose proof (@flatMap_nodes R root this
                  (fun m => treeFilterR m
                              (fun other => nodeEqual isEqual element other))) as H.
    cbv beta in H. rewrite H by (rewrite Hn; repeat constructor; assumption).
    rewrite Hn. cbn [mapM]. rewrite treeFilterR_filterR.
    destruct (filterR _ _) as [found|e]; [|reflexivity].
    cbn [bind List.concat]. rewrite app_nil_r, length_new_child_array.
    now rewrite unique_length_zero. }
  split; [exact Heq|]. intros x e Hr Hx. rewrite Heq.
  destruct (@filterR_throws (fun other => nodeEqual isEqual element other)
              (treeFilter n (fun _ => true)) x e) as [e' He'].
  - apply treeFilter_In. now split.
  - exact Hx.
  - rewrite He'. now eexists.
Qed.

Lemma contains_scans_whole_tree_witness :
  WrapperMethods.contains (fun _ _ => true) (Examples.dom_root Examples.tree)
    RootWrapper Examples.leaf = Ok true.
Proof.
  rewrite (proj1 (@contains_scans_whole_tree value (fun _ _ => true)
                    (Examples.dom_root Examples.tree) RootWrapper Examples.tree
                    Examples.leaf eq_refl eq_refl)).
  reflexivity.
Defined.

(** X13.  [findWhere(predicate)] on a wrapper whose nodes are not arrays
    returns a well-formed wrapper without repetition under [===]; each of
    its nodes satisfies the predicate and is in the tree of a node of the
    wrapper, and every such node is in the result up to [===]. *)
Theorem findWhere_sound_complete : forall R (root : Root R) this predicate,
    Forall (fun n => isArray n = false) (nodes root this) ->
    exists found,
      findWhere root this predicate = Ok found
      /\ wrapper_ok root found
      /\ distinct (nodes root found) = true
      /\ (forall x, In x (nodes root found) ->
                    predicate x = true
                    /\ exists n, In n (nodes root this) /\ Reach n x)
      /\ (forall n x, In n (nodes root this) -> Reach n x ->
                      predicate x = true ->
                      contains (nodes root found) x = true).
Proof.
  intros R root this predicate Harr.
  pose proof (@flatMap_pure R root this (fun m => treeFilter m predicate) Harr)
    as H. cbv beta in H.
  eexists. split; [exact H|]. split; [apply new_child_ok|].
  rewrite nodes_new_child_array. split; [apply unique_is_distinct|]. split.
  - intros x Hin. apply unique_In in Hin. apply in_flat_map in Hin.
    destruct Hin as [n [Hn Hx]]. apply treeFilter_In in Hx.
    destruct Hx as [Hr Hp]. split; [assumption|]. now exists n.
  - intros n x Hn Hr Hp. apply unique_complete. apply in_flat_map.
    exists n. split; [assumption|]. apply treeFilter_In. now split.
Qed.

Lemma findWhere_sound_complete_witness :
  exists found,
    findWhere (Examples.dom_root Examples.tree) RootWrapper
      (fun x => hasClassName x "foo") = Ok found
    /\ wrapper_ok (Examples.dom_root Examples.tree) found
    /\ distinct (nodes (Examples.dom_root Examples.tree) found) = true
    /\ (forall x, In x (nodes (Examples.dom_root Examples.tree) found) ->
                  hasClassName x "foo" = true
                  /\ exists n,
                      In n (nodes (Examples.dom_root Examples.tree) RootWrapper)
                      /\ Reach n x)
    /\ (forall n x,
           In n (nodes (Examples.dom_root Examples.tree) RootWrapper) ->
           Reach n x -> hasClassName x "foo" = true ->
           contains (nodes (Examples.dom_root Examples.tree) found) x = true).
Proof.
  apply (@findWhere_sound_complete value (Examples.dom_root Examples.tree)
           RootWrapper (fun x => hasClassName x "foo")).
  repeat constructor.
Defined.

(** X14.  [children(selector)] on a wrapper whose nodes are not arrays
    gathers the direct children of the nodes, each once under [===]; a
    falsy selector, the empty string included, is no selector and all the
    children are returned, a truthy one filters them. *)
Theorem children_are_direct : forall R (root : Root R) this selector,
    Forall (fun n => isArray n = false) (nodes root this) ->
    children root this selector
    = (if truthy selector
       then filter root
              (new_child
                 (array (unique (flat_map childrenOfNode (nodes root this)))))
              selector
       else Ok (new_child
                  (array (unique (flat_map childrenOfNode (nodes root this))))))
    /\ distinct (unique (flat_map childrenOfNode (nodes root this))) = true
    /\ forall x, In x (unique (flat_map childrenOfNode (nodes root this))) ->
                 exists n, In n (nodes root this) /\ In x (childrenOfNode n).
Proof.
  intros R root this selector Harr. split; [|split].
  - unfold children.
    rewrite (@flatMap_pure R root this childrenOfNode Harr). reflexivity.
  - apply unique_is_distinct.
  - intros x Hin. apply unique_In in Hin. now apply in_flat_map in Hin.
Qed.

Lemma children_are_direct_witness :
  children (Examples.dom_root Examples.tree) RootWrapper (VStr "")
  = Ok (new_child (array [Examples.target; Examples.sibling])).
Proof.
  assert (H : Forall (fun n => isArray n = false)
                 (nodes (Examples.dom_root Examples.tree) RootWrapper))
    by (repeat constructor).
  rewrite (proj1 (@children_are_direct value (Examples.dom_root Examples.tree)
                    RootWrapper (VStr "") H)).
  reflexivity.
Defined.

(** X15.  [parent()] on the root wrapper does not return an empty wrapper:
    the root has no parent, [parents().nodes[0]] is [undefined], and the
    result is a wrapper of length 1 around [undefined]. *)
Theorem parent_of_root_is_undefined : forall R (root : Root R),
    root_nodes root = [root_node root] ->
    isArray (root_node root) = false ->
    parent root RootWrapper = Ok (ChildWrapper VUndefined [VUndefined] 1).
Proof.
  intros R root Hnodes Harr. unfold parent, flatMap. cbn [nodes].
  rewrite Hnodes.
  cbn [List.length seq combine mapM fst snd wrap]. unfold parents.
  assert (Hlen : length root (new_child (root_node root)) = 1)
    by (destruct (root_node root); try reflexivity; discriminate).
  unfold single. rewrite Hlen. cbn [Nat.eqb negb node].
  rewrite (node_new_child root _ Harr), parentsOfNode_self.
  reflexivity.
Qed.

Lemma parent_of_root_is_undefined_witness :
  parent (Examples.dom_root Examples.tree) RootWrapper
  = Ok (ChildWrapper VUndefined [VUndefined] 1).
Proof.
  apply (@parent_of_root_is_undefined value (Examples.dom_root Examples.tree));
    reflexivity.
Defined.



(** X17.  Every wrapper a query method returns is well formed: its
    [length] counts its [nodes] and its [node] is the first of them. *)
Theorem query_results_well_formed :
  forall R (root : Root R) this selector predicate index found,
    wrapper_ok root this ->
    filter root this selector = Ok found
    \/ not_ root this selector = Ok found
    \/ find root this selector = Ok found
    \/ findWhere root this predicate = Ok found
    \/ children root this selector = Ok found
    \/ parents root this selector = Ok found
    \/ parent root this = Ok found
    \/ closest root this selector = Ok found
    \/ found = filterWhere root this predicate
    \/ found = get root this index
    \/ found = first root this
    \/ found = last root this ->
    wrapper_ok root found.
Proof.
  intros R root this selector predicate index found Hok H.
  assert (Hnew : forall v, found = new_child v -> wrapper_ok root found)
    by (intros v ->; apply new_child_ok).
  destruct H as [H|[H|[H|[H|[H|[H|[H|[H|[H|[H|[H|H]]]]]]]]]]].
  - destruct (filter_new_child _ _ _ H) as [v Hv]. now apply Hnew with v.
  - unfold not_ in H. destruct (buildPredicate selector); [|discriminate].
    cbn [bind] in H. injection H as <-. apply new_child_ok.
  - unfold find in H. destruct (buildPredicate selector); [|discriminate].
    cbn [bind] in H. destruct (flatMap_new_child _ _ _ H) as [v Hv].
    now apply Hnew with v.
  - destruct (flatMap_new_child _ _ _ H) as [v Hv]. now apply Hnew with v.
  - unfold children in H.
    destruct (flatMap root this
                (fun n _ => Ok (array (childrenOfNode (node root n)))))
      as [all|e] eqn:Hall; [|discriminate].
    cbn [bind] in H. destruct (truthy selector).
    + destruct (filter_new_child _ _ _ H) as [v Hv]. now apply Hnew with v.
    + injection H as <-. destruct (flatMap_new_child _ _ _ Hall) as [v Hv].
      rewrite Hv. apply new_child_ok.
  - unfold parents in H. destruct (single root this _) as [ps|e]; [|discriminate].
    cbn [bind] in H. destruct (truthy selector).
    + destruct (filter_new_child _ _ _ H) as [v Hv]. now apply Hnew with v.
    + injection H as <-. split; reflexivity.
  - destruct (flatMap_new_child _ _ _ H) as [v Hv]. now apply Hnew with v.
  - unfold closest in H. destruct (is_ root this selector) as [[|]|e];
      cbn [bind] in H; [now injection H as <-| |discriminate].
    destruct (parents root this VUndefined) as [ps|e]; [|discriminate].
    cbn [bind] in H. destruct (filter root ps selector) as [fs|e]; [|discriminate].
    cbn [bind] in H. injection H as <-. apply new_child_ok.
  - subst found. apply new_child_ok.
  - subst found. apply new_child_ok.
  - subst found. apply new_child_ok.
  - subst found. apply new_child_ok.
Qed.

Lemma query_results_well_formed_witness :
  wrapper_ok (Examples.dom_root Examples.tree)
    (first (Examples.dom_root Examples.tree) RootWrapper).
Proof.
  apply (@query_results_well_formed value (Examples.dom_root Examples.tree)
           RootWrapper VUndefined (fun _ => true) 0%Z
           (first (Examples.dom_root Examples.tree) RootWrapper)).
  - split; reflexivity.
  - do 10 right. now left.
Defined.

(** ** The root and its renderer *)

(** X18.  On the root wrapper, when [cloneElement] and the renderer do
    not throw, [setProps] returns the wrapper, replaces its node by the
    output of the renderer and leaves [global.document] as
    [withSetStateAllowed] does; the element the root was made from is
    never replaced, so a second [setProps] clones the original element
    again, without the props of the first.  When the renderer throws, the
    root keeps its old node and [global.document] stays defined.
    [setState] does the same through the instance of the renderer; on a
    root whose renderer holds no instance, as after rendering a DOM element,
    [setState] and [state] throw a TypeError. *)
Theorem root_mutators_rerender :
  forall R (getRenderOutput : R -> value) (stub : value)
         (render : R -> value -> option value -> result unit * R)
         (cloneElement : value -> value -> result value)
         (renderer_instance public_instance : R -> value)
         (instance_setState : R -> value -> option value -> result unit * R)
         (instance_state : R -> value) (member : value -> value -> value)
         (root : Root R) (document : option value),
    root_length root = 1 ->
    (forall props element rd,
        cloneElement (unrendered root) props = Ok element ->
        render (renderer root) element (document_inside stub document)
        = (Ok tt, rd) ->
        WrapperMethods.setProps getRenderOutput stub render cloneElement
          root RootWrapper props document
        = (Ok RootWrapper, rerendered getRenderOutput root rd,
           document_after document)
        /\ forall props' element' rd',
            cloneElement (unrendered root) props' = Ok element' ->
            render rd element' (document_inside stub document) = (Ok tt, rd') ->
            WrapperMethods.setProps getRenderOutput stub render cloneElement
              (rerendered getRenderOutput root rd) RootWrapper props'
              (document_after document)
            = (Ok RootWrapper, rerendered getRenderOutput root rd',
               document_after document))
    /\ (forall props element e rd,
           cloneElement (unrendered root) props = Ok element ->
           render (renderer root) element (document_inside stub document)
           = (Throw e, rd) ->
           WrapperMethods.setProps getRenderOutput stub render cloneElement
             root RootWrapper props document
           = (Throw e,
              mkRoot (unrendered root) rd (root_node root) (root_nodes root)
                (root_length root),
              document_inside stub document))
    /\ (forall st name,
           renderer_instance (renderer root) = VNull ->
           WrapperMethods.setState getRenderOutput stub renderer_instance
             public_instance instance_setState root RootWrapper st document
           = (Throw (cannot_read "_instance"), root,
              document_inside stub document)
           /\ WrapperMethods.state renderer_instance public_instance
                instance_state member root RootWrapper name
              = Throw (cannot_read "_instance"))
    /\ (forall st r1 r2 rd,
           renderer_instance (renderer root) = VObj r1 ->
           public_instance (renderer root) = VObj r2 ->
           instance_setState (renderer root) st (document_inside stub document)
           = (Ok tt, rd) ->
           WrapperMethods.setState getRenderOutput stub renderer_instance
             public_instance instance_setState root RootWrapper st document
           = (Ok RootWrapper, rerendered getRenderOutput root rd,
              document_after document)).
Proof.
  intros R getRenderOutput stub render cloneElement renderer_instance
    public_instance instance_setState instance_state member root document Hlen.
  assert (Hsuccess : forall (root' : Root R) doc props element rd,
             root_length root' = 1 ->
             cloneElement (unrendered root') props = Ok element ->
             render (renderer root') element (document_inside stub doc)
             = (Ok tt, rd) ->
             WrapperMethods.setProps getRenderOutput stub render cloneElement
               root' RootWrapper props doc
             = (Ok RootWrapper, rerendered getRenderOutput root' rd,
                document_after doc)).
  { intros root' doc props element rd Hl Hclone Hrender.
    unfold WrapperMethods.setProps, UtilsRest.withSetStateAllowed,
      document_inside, document_after in *.
    cbn [isRoot negb length].
    destruct (Nat.eqb_spec (root_length root') 1) as [_|Hne]; [|contradiction].
    cbn [negb]. rewrite Hclone, Hrender.
    unfold update, single_st, rerendered. cbn [isRoot negb length root_length].
    destruct (Nat.eqb_spec (root_length root') 1) as [_|Hne]; [|contradiction].
    now destruct (UtilsRest.document_undefined doc). }
  assert (Hdoc : document_inside stub (document_after document)
                 = document_inside stub document
                 /\ document_after (document_after document)
                    = document_after document).
  { unfold document_inside, document_after.
    destruct (UtilsRest.document_undefined document) eqn:Hd; cbn; rewrite ?Hd;
      split; reflexivity. }
  destruct Hdoc as [Hin Hafter].
  split; [|split; [|split]].
  - intros props element rd Hclone Hrender.
    split; [now apply Hsuccess with element|].
    intros props' element' rd' Hclone' Hrender'.
    rewrite (Hsuccess (rerendered getRenderOutput root rd)
               (document_after document) props' element' rd' Hlen Hclone').
    + now rewrite Hafter.
    + cbn [rerendered renderer]. now rewrite Hin.
  - intros props element e rd Hclone Hrender.
    unfold WrapperMethods.setProps, UtilsRest.withSetStateAllowed,
      document_inside in *.
    cbn [isRoot negb length].
    destruct (Nat.eqb_spec (root_length root) 1) as [_|Hne]; [|contradiction].
    cbn [negb]. rewrite Hclone, Hrender. reflexivity.
  - intros st name Hnull. split.
    + unfold WrapperMethods.setState, UtilsRest.withSetStateAllowed,
        WrapperMethods.instance, document_inside.
      cbn [isRoot negb length].
      destruct (Nat.eqb_spec (root_length root) 1) as [_|Hne]; [|contradiction].
      cbn [negb]. rewrite Hnull. reflexivity.
    + unfold WrapperMethods.state, WrapperMethods.instance, single.
      cbn [isRoot negb length].
      destruct (Nat.eqb_spec (root_length root) 1) as [_|Hne]; [|contradiction].
      cbn [negb]. rewrite Hnull. reflexivity.
  - intros st r1 r2 rd Hinst Hpublic Hset.
    unfold WrapperMethods.setState, UtilsRest.withSetStateAllowed,
      WrapperMethods.instance, document_inside, document_after in *.
    cbn [isRoot negb length].
    destruct (Nat.eqb_spec (root_length root) 1) as [_|Hne]; [|contradiction].
    cbn [negb]. rewrite Hinst, Hpublic, Hset.
    unfold update, single_st, rerendered. cbn [isRoot negb length root_length].
    destruct (Nat.eqb_spec (root_length root) 1) as [_|Hne]; [|contradiction].
    now destruct (UtilsRest.document_undefined document).
Qed.

Lemma root_mutators_rerender_witness :
  WrapperMethods.setProps (fun r : value => r) (VObj 0)
    (fun _ el _ => (Ok tt, el))
    (fun el props => Ok (VElem 7 (type_of el) [("id", props)]))
    (Examples.dom_root (VElem 1 (VStr "div") [])) RootWrapper (VStr "y") None
  = (Ok RootWrapper,
     rerendered (fun r : value => r)
       (Examples.dom_root (VElem 1 (VStr "div") []))
       (VElem 7 (VStr "div") [("id", VStr "y")]),
     None)
  /\ WrapperMethods.setState (fun r : value => r) (VObj 0)
       (fun _ => VNull) (fun _ => VUndefined) (fun r _ _ => (Ok tt, r))
       (Examples.dom_root (VElem 1 (VStr "div") [])) RootWrapper VNull None
     = (Throw (cannot_read "_instance"),
        Examples.dom_root (VElem 1 (VStr "div") []), Some (VObj 0)).
Proof.
  destruct (@root_mutators_rerender value (fun r : value => r) (VObj 0)
              (fun _ el _ => (Ok tt, el))
              (fun el props => Ok (VElem 7 (type_of el) [("id", props)]))
              (fun _ => VNull) (fun _ => VUndefined) (fun r _ _ => (Ok tt, r))
              (fun _ => VUndefined) (fun _ _ => VUndefined)
              (Examples.dom_root (VElem 1 (VStr "div") [])) None eq_refl)
    as [Hprops [_ [Hnull _]]].
  split.
  - exact (proj1 (Hprops (VStr "y") (VElem 7 (VStr "div") [("id", VStr "y")])
                    (VElem 7 (VStr "div") [("id", VStr "y")]) eq_refl eq_refl)).
  - exact (proj1 (Hnull VNull VUndefined eq_refl)).
Defined.

(** X19.  [simulate(event, ...args)] on a wrapper of one node whose prop
    [on<Event>] is a function calls the handler with [global.document]
    defined, then updates the root, also when the wrapper is not the root:
    the root gets the output of the renderer as the handler left it,
    [global.document] is removed again if it was not defined before, and
    the wrapper itself is returned. *)
Theorem simulate_runs_handler_and_updates_root :
  forall R (getRenderOutput : R -> value) toUpperCase stub call
         (root : Root R) this c rest args document r n d rd,
    root_length root = 1 ->
    length root this = 1 ->
    WrapperMethods.member_of ("on" ++ toUpperCase c ++ rest)
      (propsOfNode (node root this)) = VFun r n d ->
    call (VFun r n d) args (renderer root)
      (if UtilsRest.document_undefined document then Some stub else document)
    = (Ok tt, rd) ->
    WrapperMethods.simulate getRenderOutput toUpperCase stub call root this
      (String c rest) args document
    = (Ok this, rerendered getRenderOutput root rd,
       if UtilsRest.document_undefined document then None else document).
Proof.
  intros R getRenderOutput toUpperCase stub call root this c rest args document
    r n d rd Hroot Hlen Hprop Hcall.
  unfold WrapperMethods.simulate, WrapperMethods.prop, WrapperMethods.props.
  cbn [UtilsRest.propFromEvent]. unfold single. rewrite Hlen.
  cbn [Nat.eqb negb bind]. rewrite Hprop. cbn [truthy].
  unfold UtilsRest.withSetStateAllowed. rewrite Hcall.
  unfold update, single_st, rerendered. cbn [isRoot negb length root_length].
  destruct (Nat.eqb_spec (root_length root) 1); [|contradiction].
  now destruct (UtilsRest.document_undefined document).
Qed.

Lemma simulate_runs_handler_and_updates_root_witness :
  WrapperMethods.simulate (fun r : value => r) (fun c => String c "") (VObj 0)
    (fun _ _ _ _ => (Ok tt, Examples.leaf))
    (Examples.dom_root
       (VElem 1 (VStr "a") [("onclick", VFun 2 "handler" None)]))
    RootWrapper "click" [] None
  = (Ok RootWrapper,
     rerendered (fun r : value => r)
       (Examples.dom_root
          (VElem 1 (VStr "a") [("onclick", VFun 2 "handler" None)]))
       Examples.leaf,
     None).
Proof.
  apply (@simulate_runs_handler_and_updates_root value (fun r : value => r)
           (fun c => String c "") (VObj 0)
           (fun _ _ _ _ => (Ok tt, Examples.leaf))
           (Examples.dom_root
              (VElem 1 (VStr "a") [("onclick", VFun 2 "handler" None)]))
           RootWrapper "c"%char "lick" [] None 2 "handler" None Examples.leaf);
    reflexivity.
Defined.

(** X20.  When the handler throws, or the prop is truthy and not a
    function, [simulate] throws in the middle of [withSetStateAllowed]: the
    root is not updated and keeps its old node, and a [global.document]
    that was not defined before stays set to the object stored for the
    call. *)
Theorem simulate_failure_leaves_document :
  forall R (getRenderOutput : R -> value) toUpperCase stub call
         (root : Root R) this c rest args document handler,
    length root this = 1 ->
    UtilsRest.document_undefined document = true ->
    WrapperMethods.member_of ("on" ++ toUpperCase c ++ rest)
      (propsOfNode (node root this)) = handler ->
    truthy handler = true ->
    (forall e rd,
        call handler args (renderer root) (Some stub) = (Throw e, rd) ->
        typeof handler = TFunction ->
        WrapperMethods.simulate getRenderOutput toUpperCase stub call root this
          (String c rest) args document
        = (Throw e,
           mkRoot (unrendered root) rd (root_node root) (root_nodes root)
             (root_length root),
           Some stub))
    /\ (typeof handler <> TFunction ->
        WrapperMethods.simulate getRenderOutput toUpperCase stub call root this
          (String c rest) args document
        = (Throw (TypeError "handler is not a function"), root, Some stub)).
Proof.
  intros R getRenderOutput toUpperCase stub call root this c rest args document
    handler Hlen Hdoc Hprop Ht.
  assert (Hstart : WrapperMethods.prop root this
                     ("on" ++ toUpperCase c ++ rest)%string = Ok handler).
  { unfold WrapperMethods.prop, WrapperMethods.props, single. rewrite Hlen.
    cbn [Nat.eqb negb bind]. now rewrite Hprop. }
  split.
  - intros e rd Hcall Hfun.
    unfold WrapperMethods.simulate. cbn [UtilsRest.propFromEvent].
    rewrite Hstart, Ht. unfold UtilsRest.withSetStateAllowed. rewrite Hdoc.
    destruct handler; try discriminate. rewrite Hcall. reflexivity.
  - intros Hfun.
    unfold WrapperMethods.simulate. cbn [UtilsRest.propFromEvent].
    rewrite Hstart, Ht. unfold UtilsRest.withSetStateAllowed. rewrite Hdoc.
    destruct handler; try reflexivity; try discriminate.
    now destruct Hfun.
Qed.

Lemma simulate_failure_leaves_document_witness :
  WrapperMethods.simulate (fun r : value => r) (fun c => String c "") (VObj 0)
    (fun _ _ r _ => (Ok tt, r))
    (Examples.dom_root (VElem 1 (VStr "a") [("onclick", VStr "go")]))
    RootWrapper "click" [] None
  = (Throw (TypeError "handler is not a function"),
     Examples.dom_root (VElem 1 (VStr "a") [("onclick", VStr "go")]),
     Some (VObj 0)).
Proof.
  apply (@simulate_failure_leaves_document value (fun r : value => r)
           (fun c => String c "") (VObj 0) (fun _ _ r _ => (Ok tt, r))
           (Examples.dom_root (VElem 1 (VStr "a") [("onclick", VStr "go")]))
           RootWrapper "c"%char "lick" [] None (VStr "go")
           eq_refl eq_refl eq_refl eq_refl).
  discriminate.
Defined.

(** X21.  The methods for a single node throw the same error on a wrapper
    of any other length, before they look at a node.  [is] and [closest]
    compile their selector first, so a selector that is rejected wins over
    the length; [simulate] reads the first character of the event name
    first, so the empty event name wins too. *)
Theorem single_node_methods_throw :
  forall R (getRenderOutput : R -> value) toUpperCase stub call
         (root : Root R) this name c rest args document selector,
    length root this <> 1 ->
    WrapperMethods.text root this = Throw (single_error root this)
    /\ WrapperMethods.props root this = Throw (single_error root this)
    /\ WrapperMethods.prop root this name = Throw (single_error root this)
    /\ WrapperMethods.type root this = Throw (single_error root this)
    /\ hasClass root this name = Throw (single_error root this)
    /\ parents root this selector = Throw (single_error root this)
    /\ WrapperMethods.simulate getRenderOutput toUpperCase stub call root this
         (String c rest) args document
       = (Throw (single_error root this), root, document)
    /\ WrapperMethods.simulate getRenderOutput toUpperCase stub call root this
         "" args document
       = (Throw (cannot_read "toUpperCase"), root, document)
    /\ is_ root this selector
       = (_ <- buildPredicate selector ;; Throw (single_error root this))
    /\ closest root this selector
       = (_ <- buildPredicate selector ;; Throw (single_error root this)).
Proof.
  intros R getRenderOutput toUpperCase stub call root this name c rest args
    document selector Hlen.
  assert (Hsingle : forall A (fn : value -> result A),
             single root this fn = Throw (single_error root this)).
  { intros A fn. unfold single.
    destruct (Nat.eqb_spec (length root this) 1) as [Heq|_]; [contradiction|].
    reflexivity. }
  assert (Hprop : forall key, WrapperMethods.prop root this key
                              = Throw (single_error root this)).
  { intros key. unfold WrapperMethods.prop, WrapperMethods.props.
    now rewrite Hsingle. }
  assert (His : is_ root this selector
                = (_ <- buildPredicate selector ;;
                   Throw (single_error root this))).
  { unfold is_. destruct (buildPredicate selector); [|reflexivity].
    cbn [bind]. apply Hsingle. }
  repeat split; try apply Hsingle; try apply Hprop; try exact His.
  - unfold parents. now rewrite Hsingle.
  - unfold WrapperMethods.simulate. cbn [UtilsRest.propFromEvent].
    now rewrite Hprop.
  - unfold closest. rewrite His.
    now destruct (buildPredicate selector).
Qed.

Lemma single_node_methods_throw_witness :
  WrapperMethods.text (Examples.dom_root Examples.tree) (ChildWrapper VUndefined [] 0)
  = Throw (Error "This method is only meant to be run on single node. 0 found instead.").
Proof.
  apply (@single_node_methods_throw value (fun r : value => r)
           (fun c => String c "") (VObj 0) (fun _ _ r _ => (Ok tt, r))
           (Examples.dom_root Examples.tree) (ChildWrapper VUndefined [] 0)
           "id" "c"%char "lick" [] None VUndefined).
  discriminate.
Defined.

(** X22.  The renderer of [react-compat] does not render a DOM element:
    [render] keeps the element, [getRenderOutput] gives it back, the
    renderer of React and the stored instance are left as they were.  The
    node of a root wrapper made from a DOM element is that element. *)
Theorem dom_element_renders_to_itself :
  forall TR (createRenderer : TR) (test_render : TR -> value -> TR)
         (test_getRenderOutput : TR -> value) (test_instance : TR -> value)
         (this : ReactCompat.Compatible TR) element,
    typeof (type_of element) = TString ->
    exists this',
      ReactCompat.render test_render test_instance this element = Ok this'
      /\ ReactCompat.getRenderOutput test_getRenderOutput this' = element
      /\ ReactCompat.renderer this' = ReactCompat.renderer this
      /\ ReactCompat._instance this' = ReactCompat._instance this
      /\ root_node
           (new_root (ReactCompat.createRendererCompatible createRenderer
                        test_instance)
              (ReactCompat.render_element test_render test_instance)
              (ReactCompat.getRenderOutput test_getRenderOutput) element)
         = element.
Proof.
  intros TR createRenderer test_render test_getRenderOutput test_instance this
    element H.
  destruct element as [| |b|z|s|r n d|r|r items|r t props]; try discriminate.
  cbn [type_of] in H.
  exists (ReactCompat.mkCompatible (ReactCompat.renderer this) true
            (VElem r t props) (ReactCompat._instance this)).
  unfold new_root, ReactCompat.render_element, ReactCompat.render,
    ReactCompat.getRenderOutput.
  cbn [type_of]. rewrite H. repeat split.
Qed.

Lemma dom_element_renders_to_itself_witness :
  exists this',
    ReactCompat.render (fun (r : nat) (_ : value) => S r) (fun _ => VNull)
      (ReactCompat.createRendererCompatible 0 (fun _ => VNull)) Examples.tree
    = Ok this'
    /\ ReactCompat.getRenderOutput (fun _ => VNull) this' = Examples.tree
    /\ ReactCompat.renderer this'
       = ReactCompat.renderer
           (ReactCompat.createRendererCompatible 0 (fun _ => VNull))
    /\ ReactCompat._instance this'
       = ReactCompat._instance
           (ReactCompat.createRendererCompatible 0 (fun _ => VNull))
    /\ root_node
         (new_root (ReactCompat.createRendererCompatible 0 (fun _ => VNull))
            (ReactCompat.render_element (fun (r : nat) (_ : value) => S r)
               (fun _ => VNull))
            (ReactCompat.getRenderOutput (fun _ => VNull)) Examples.tree)
       = Examples.tree.
Proof.
  apply (@dom_element_renders_to_itself nat 0
           (fun (r : nat) (_ : value) => S r) (fun _ => VNull) (fun _ => VNull)
           (ReactCompat.createRendererCompatible 0 (fun _ => VNull))
           Examples.tree).
  reflexivity.
Defined.

(** X23.  [buildInstPredicate] of MountedTraversal.js rejects exactly the
    selectors that [buildPredicate] rejects, with the same exception. *)
Theorem buildInstPredicate_rejects_alike :
  forall inst (isDOMComponent : inst -> bool) (dom_className dom_id : inst -> value)
         (tagName : inst -> string) (toUpperCase : string -> string)
         (isCompositeComponentWithType : inst -> value -> bool) selector e,
    MountedRest.buildInstPredicate isDOMComponent dom_className dom_id tagName
      toUpperCase isCompositeComponentWithType selector = Throw e
    <-> buildPredicate selector = Throw e.
Proof.
  intros. unfold MountedRest.buildInstPredicate, buildPredicate.
  apply MountedMore.buildInstPredicate_fuel_throws.
Qed.

(** X24.  [withSetStateAllowed] removes [global.document] after a call of
    [fn] that returns, when the property was not defined before.  When
    [fn] throws, the object stored for the call stays in [global.document];
    every later call then finds the property defined and never removes
    it. *)
Theorem withSetStateAllowed_leaves_stub_after_throw :
  forall stub St (fn : St -> option value -> result unit * St * option value)
         st st' document e,
    UtilsRest.document_undefined document = true ->
    UtilsRest.document_undefined (Some stub) = false ->
    fn st (Some stub) = (Throw e, st', Some stub) ->
    UtilsRest.withSetStateAllowed stub fn st document
    = (Throw e, st', Some stub)
    /\ (forall (g : St -> option value -> result unit * St * option value)
                st1 st2 d,
           g st1 (Some stub) = (Ok tt, st2, d) ->
           UtilsRest.withSetStateAllowed stub g st1 document = (Ok tt, st2, None)
           /\ UtilsRest.withSetStateAllowed stub g st1 (Some stub)
              = (Ok tt, st2, d)).
Proof.
  intros stub St fn st st' document e Hdoc Hstub Hfn.
  unfold UtilsRest.withSetStateAllowed. rewrite Hdoc, Hstub, Hfn.
  split; [reflexivity|]. intros g st1 st2 d Hg. now rewrite Hg.
Qed.

Lemma withSetStateAllowed_leaves_stub_after_throw_witness :
  UtilsRest.withSetStateAllowed (VObj 0)
    (fun (st : nat) d => (Throw (Error "boom"), S st, d)) 0 None
  = (Throw (Error "boom"), 1, Some (VObj 0)).
Proof.
  apply (@withSetStateAllowed_leaves_stub_after_throw (VObj 0) nat
           (fun (st : nat) d => (Throw (Error "boom"), S st, d)) 0 1 None
           (Error "boom")); reflexivity.
Defined.

(** X25.  On a well-formed wrapper that is not empty and holds no array,
    [first()] wraps the node of the wrapper, [last()] the last of its
    nodes and [get(i)] the node at [i], each in a wrapper of length 1. *)
Theorem first_and_last_in_range : forall R (root : Root R) this,
    wrapper_ok root this ->
    nodes root this <> [] ->
    Forall (fun n => isArray n = false) (nodes root this) ->
    first root this = ChildWrapper (node root this) [node root this] 1
    /\ last root this
       = ChildWrapper (List.last (nodes root this) VUndefined)
           [List.last (nodes root this) VUndefined] 1
    /\ forall i, i < List.length (nodes root this) ->
                 get root this (Z.of_nat i)
                 = ChildWrapper (nth i (nodes root this) VUndefined)
                     [nth i (nodes root this) VUndefined] 1.
Proof.
  intros R root this [Hlen Hnode] Hne Harr.
  assert (Hget : forall i, i < List.length (nodes root this) ->
                           get root this (Z.of_nat i)
                           = ChildWrapper (nth i (nodes root this) VUndefined)
                               [nth i (nodes root this) VUndefined] 1).
  { intros i Hi. unfold get, nth_Z. cbn [wrap].
    destruct (Z.ltb_spec (Z.of_nat i) 0) as [Hneg|_]; [lia|].
    rewrite Nat2Z.id. rewrite Forall_forall in Harr.
    pose proof (Harr _ (nth_In (nodes root this) VUndefined Hi)) as Hx.
    destruct (nth i (nodes root this) VUndefined); try reflexivity; discriminate. }
  assert (Hpos : 0 < List.length (nodes root this))
    by (destruct (nodes root this); [contradiction|simpl; lia]).
  split; [|split].
  - unfold first. change 0%Z with (Z.of_nat 0). rewrite (Hget 0 Hpos).
    now rewrite Hnode.
  - unfold last. rewrite Hlen.
    replace (Z.of_nat (List.length (nodes root this)) - 1)%Z
      with (Z.of_nat (List.length (nodes root this) - 1)) by lia.
    rewrite Hget by lia. now rewrite nth_last.
  - exact Hget.
Qed.

Lemma first_and_last_in_range_witness :
  last (Examples.dom_root Examples.tree)
    (ChildWrapper Examples.target [Examples.target; Examples.sibling] 2)
  = ChildWrapper Examples.sibling [Examples.sibling] 1.
Proof.
  apply (@first_and_last_in_range value (Examples.dom_root Examples.tree)
           (ChildWrapper Examples.target [Examples.target; Examples.sibling] 2)).
  - split; reflexivity.
  - discriminate.
  - repeat constructor.
Defined.

(** X26.  [is('.c')] is [hasClass('c')] for a class name [c] without
    ['.'], ['['] and the characters of complex selectors. *)
Theorem is_class_selector_is_hasClass : forall R (root : Root R) this c,
    isSimpleSelector c = true -> plain c ->
    is_ root this (VStr (String "." c)) = hasClass root this c.
Proof.
  intros R root this c Hsimple Hplain. unfold is_, hasClass.
  now rewrite (buildPredicate_class Hsimple Hplain).
Qed.

Lemma is_class_selector_is_hasClass_witness :
  is_ (Examples.dom_root Examples.sibling) RootWrapper (VStr ".foo")
  = hasClass (Examples.dom_root Examples.sibling) RootWrapper "foo".
Proof.
  apply (@is_class_selector_is_hasClass value
           (Examples.dom_root Examples.sibling) RootWrapper "foo");
    reflexivity.
Defined.

(** X27.  [instHasClassName(inst, c)] of MountedTraversal.js is false on
    an instance that is not a DOM component; on a DOM component it tells
    whether [c], a name without spaces, is one of the space-separated
    tokens of the class string of the DOM node. *)
Theorem instHasClassName_dom_token :
  forall inst (isDOMComponent : inst -> bool) (dom_className : inst -> value)
         (i : inst) (c : string),
    has_space c = false ->
    MountedTraversal.instHasClassName isDOMComponent dom_className i c
    = isDOMComponent i
      && existsb (String.eqb c)
           (tokens (to_string (if truthy (dom_className i) then dom_className i
                               else VStr ""))).
Proof.
  intros inst isDOMComponent dom_className i c Hc.
  destruct (isDOMComponent i) eqn:Hdom.
  - now apply instHasClassName_token.
  - unfold MountedTraversal.instHasClassName. now rewrite Hdom.
Qed.

Lemma instHasClassName_dom_token_witness :
  MountedTraversal.instHasClassName (fun _ : nat => true)
    (fun _ => VStr "bar foo") 0 "foo" = true.
Proof.
  rewrite (@instHasClassName_dom_token nat (fun _ => true)
             (fun _ => VStr "bar foo") 0 "foo" eq_refl).
  reflexivity.
Defined.

